(** * Delivery ledger and batching coordinator of cci-custom-metrics-datadog

    A shallow embedding of [src/services/WorkflowCache.ts], of
    [DatadogService.submitMetrics] (the current pairing variant, the earlier
    positional-slice variant and the unbatched variant before it) and of the
    transformer [src/utils/transformers.ts], followed by the properties the
    specification states about them and by further properties of the code.

    Modelling choices.
    - The file system is a finite map from paths to file contents; a
      content is abstracted to what [JSON.parse] and the [sent] field make
      of it.  [JSON.stringify] followed by [JSON.parse] is the identity on
      documents of the shape [{ sent: [...] }]; a [sent] field that is
      present but is not an array of strings is outside the model.
    - Every effect the coordinator performs is appended to a trace: ledger
      reads and writes, audit-log writes and Transport calls, each Transport
      call with the rejection it met, if any.  Console output, directory
      creation and failures of [writeFileSync] are not modelled.
    - The Transport ([metricsApi.submitMetrics], a mock in the tests) is a
      deterministic function of the payloads it has received so far and of
      the current one; it resolves ([None]) or rejects with a thrown value.
    - Calls run one after the other: nothing else touches the world while
      [submitMetrics] awaits the Transport.
    - The coordinator inspects a metric series at one place only: the audit
      log formats the timestamp of every point, and that throws when the
      date is invalid.  The type of series is a parameter that comes with
      this one observation.
    - [batchSize] is a natural number.  The [for] loop is bounded by fuel;
      running out of fuel is the completion [Diverge], which a positive
      batch size never produces and batch size 0 always does on a non-empty
      input. *)

From stdpp Require Import base strings list gmap pretty.

Set Default Proof Using "Type".
Open Scope string_scope.
Open Scope nat_scope.
Open Scope list_scope.
Open Scope stdpp_scope.

(** ** Thrown values and completions *)

(** What a [throw] carries: an [Error] instance with its message, or any
    other value ([error instanceof Error] is false for it). *)
Inductive Thrown : Type :=
  | JsError (message : string)
  | NonError (value : string).

Inductive Completion (A : Type) : Type :=
  | Normal (a : A)
  | Throw (e : Thrown)
  | Diverge.
Arguments Normal {A} a.
Arguments Throw {A} e.
Arguments Diverge {A}.

(** ** Files *)

(** A file as the ledger code sees it. *)
Inductive FileContent : Type :=
  | Unreadable                        (* readFileSync throws *)
  | NotJson                           (* JSON.parse throws *)
  | NoSent                            (* parses, but [data.sent] is undefined *)
  | SentDoc (sent : list string).     (* { sent: [...] } *)

Module Path.

(** [join(process.cwd(), "cache", filename)] *)
Definition join (cwd dir filename : string) : string :=
  cwd +:+ "/" +:+ dir +:+ "/" +:+ filename.

End Path.

(** ** What the audit log reads of a series *)

(** [logMetricPayload] formats every point of a series that has a timestamp
    and a value with [new Date(point.timestamp * 1000).toISOString()], and
    [toISOString] throws a [RangeError] on an invalid date, which is what a
    timestamp that is [NaN], infinite or out of the range of dates gives.
    [formatsDates series_] tells whether the call returns for every such
    point of [series_]. *)
Class Dated (Series : Type) : Type := formatsDates : Series → bool.

(** In the examples a series is named by a string; the series named
    [NaN] has a point whose timestamp is not a number, the others have
    valid dates. *)
#[global] Instance string_dated : Dated string :=
  λ name, bool_decide (name ≠ "NaN").

(** ** The transformer: BigQuery rows to metric series

    [src/utils/transformers.ts], in the version that returns the payload
    together with the workflow identifiers.  A field of a row holds a string
    or [null], which is what the guard [isValidRecord] tests; a character is
    a code unit below 256.  The two conversions to numbers are parameters:
    [parseTimestamp] stands for [Math.floor(new Date(dateStr).getTime() / 1000)]
    and [parseFloat] for the built-in function; both take any value. *)

Module Transformers.

Record BigQueryWorkflowData : Type := {
  minutes : option string;
  created_at : option string;
  branch : option string;
  workflow_name : option string;
  status : option string;
  project_slug : option string;
  workflow_id : option string
}.

Record ProcessedTags : Type := {
  tag_branch : string;
  tag_project_slug : string;
  tag_workflow : string;
  tag_status : string
}.

Definition METRIC_NAME : string := "ci.workflow.duration".

Definition ENV_TAG : string := "env:ci".

Definition REQUIRED_TAGS : list string :=
  ["env:ci"; "project_slug"; "branch"; "workflow"; "status"].

(** The character [:] *)
Definition colon : Ascii.ascii := Ascii.ascii_of_nat 58.

(** [s.split(sep)] for a separator of one character *)
Fixpoint split (sep : Ascii.ascii) (s : string) : list string :=
  match s with
  | EmptyString => [EmptyString]
  | String c s' =>
      if Ascii.eqb c sep then EmptyString :: split sep s'
      else match split sep s' with
           | [] => [String c EmptyString]
           | part :: parts => String c part :: parts
           end
  end.

(** The white space and line terminators [trim] removes: tab, line feed,
    vertical tab, form feed, carriage return, space, no-break space. *)
Definition isWhiteSpace (c : Ascii.ascii) : bool :=
  bool_decide (Ascii.nat_of_ascii c ∈ [9; 10; 11; 12; 13; 32; 160]).

Fixpoint trimStart (s : string) : string :=
  match s with
  | EmptyString => EmptyString
  | String c s' => if isWhiteSpace c then trimStart s' else s
  end.

Definition trimEnd (s : string) : string :=
  String.rev (trimStart (String.rev s)).

(** [s.trim()] *)
Definition trim (s : string) : string := trimEnd (trimStart s).

(** [tags[key]]; [undefined] for any other property name *)
Definition tagsGet (tags : ProcessedTags) (key : option string) : option string :=
  match key with
  | None => None
  | Some k =>
      if bool_decide (k = "branch") then Some (tag_branch tags)
      else if bool_decide (k = "project_slug") then Some (tag_project_slug tags)
      else if bool_decide (k = "workflow") then Some (tag_workflow tags)
      else if bool_decide (k = "status") then Some (tag_status tags)
      else None
  end.

(** The text a template literal makes of a value. *)
Definition template (v : option string) : string := default "undefined" v.

Definition processBranch (branch : option string) : string :=
  match branch with
  | None => "null"
  | Some b => if bool_decide (b ∈ ["master"; "staging"; "uat"]) then b else "feature"
  end.

Definition processStatus (status : string) : option string :=
  if bool_decide (status = "success" ∨ status = "failed") then Some status
  else None.

Definition isValidRecord (record : BigQueryWorkflowData) : bool :=
  bool_decide (minutes record ≠ None)
  && bool_decide (created_at record ≠ None)
  && bool_decide (workflow_name record ≠ None)
  && bool_decide (status record ≠ None)
  && bool_decide (project_slug record ≠ None)
  && bool_decide (workflow_id record ≠ None).

Definition processTags (data : BigQueryWorkflowData) : option ProcessedTags :=
  if negb (isValidRecord data) then None
  else
    match status data, project_slug data, workflow_name data with
    | Some status_, Some slug, Some name =>
        match processStatus status_ with
        | None => None
        | Some status' =>
            Some {| tag_branch := processBranch (branch data);
                    tag_project_slug := slug;
                    tag_workflow := name;
                    tag_status := status' |}
        end
    | _, _, _ => None   (* excluded by [isValidRecord] *)
    end.

(** The array [formattedTags] of [formatTags]. *)
Definition formattedTags (tags : ProcessedTags) : list string :=
  [ENV_TAG;
   "project_slug:" +:+ tag_project_slug tags;
   "branch:" +:+ tag_branch tags;
   "workflow:" +:+ tag_workflow tags;
   "status:" +:+ tag_status tags].

(** The required tags [formatTags] does not find among the formatted ones. *)
Definition missingTags (tags : ProcessedTags) : list string :=
  filter (λ tag,
            let fullTag :=
              if bool_decide (tag = ENV_TAG) then ENV_TAG
              else tag +:+ ":" +:+ template (tagsGet tags (split colon tag !! 0)) in
            bool_decide (fullTag ∈ formattedTags tags) = false)
         REQUIRED_TAGS.

(** Whether some formatted tag has no value after its first colon. *)
Definition foundMissingValues (tags : ProcessedTags) : bool :=
  existsb (λ tag,
             let parts := split colon tag in
             match parts !! 1 with
             | None => true
             | Some v => bool_decide (String.length (trim v) = 0)
             end)
          (formattedTags tags).

Definition formatTags (tags : ProcessedTags) : option (list string) :=
  if bool_decide (0 < length (missingTags tags)) then None
  else if foundMissingValues tags then None
  else Some (formattedTags tags).

(** The part of [v] before its first colon: what [formatTags] finds at
    [parts[1]] for a tag made of a name, a colon and [v]. *)
Definition firstPart (v : string) : string := default "" (split colon v !! 0).

Section Conversions.

Context {Num : Type}.
Context (parseTimestamp parseFloat : option string → Num).

Record MetricPoint : Type := { timestamp : Num; value : Num }.

Record MetricSeries : Type := {
  metric : string;
  type_ : nat;
  points : list MetricPoint;
  unit_ : string;
  tags : list string
}.

Record MetricPayload : Type := { series : list MetricSeries }.

(** The callback of [data.map] in [transformToDatadogMetric]. *)
Definition toSeries (record : BigQueryWorkflowData) : option MetricSeries :=
  match processTags record with
  | None => None
  | Some tags =>
      match formatTags tags with
      | None => None
      | Some formatted =>
          Some {| metric := METRIC_NAME;
                  type_ := 3;
                  points := [{| timestamp := parseTimestamp (created_at record);
                                value := parseFloat (minutes record) |}];
                  unit_ := "minutes";
                  tags := formatted |}
      end
  end.

(** [a.filter((x, ind) => f(x, ind))], the indices counted from [ind] *)
Fixpoint filterIndexed {A} (f : A → nat → bool) (ind : nat) (a : list A) : list A :=
  match a with
  | [] => []
  | x :: a' => (if f x ind then [x] else []) ++ filterIndexed f (S ind) a'
  end.

Definition transformToDatadogMetric (data : list BigQueryWorkflowData)
  : MetricPayload * list (option string) :=
  let seriesWithNulls := toSeries <$> data in
  let series_ := omap id seriesWithNulls in
  let workflowIds :=
    filterIndexed
      (λ _ ind, match seriesWithNulls !! ind with
                | Some None => false
                | _ => true
                end)
      0 (workflow_id <$> data) in
  ({| series := series_ |}, workflowIds).

End Conversions.

Arguments MetricPoint : clear implicits.
Arguments MetricSeries : clear implicits.
Arguments MetricPayload : clear implicits.

(** Whether [new Date(t * 1000)] is a valid date. *)
Class DateCheck (Num : Type) : Type := validDate : Num → bool.

(** The points the transformer builds all have a timestamp and a value, so
    the audit log formats the date of every point of a series. *)
#[global] Instance series_dated {Num : Type} `{!DateCheck Num}
  : Dated (MetricSeries Num) :=
  λ series_, forallb (λ point, validDate (timestamp point)) (points series_).

End Transformers.

Section Coordinator.

Context {Series : Type} `{!Dated Series}.

Record MetricPayload : Type := { series : list Series }.

(** ** The world and its trace *)

Inductive Event : Type :=
  | ReadFile (path : string)
  | WriteFile (path : string) (content : FileContent)
  | AuditLog (dry : bool) (payload : MetricPayload)
  | ApiSubmit (payload : MetricPayload) (rejection : option Thrown).

Record World : Type := {
  files : gmap string FileContent;
  trace : list Event
}.

Definition emit (e : Event) (w : World) : World :=
  {| files := files w; trace := trace w ++ [e] |}.

(** The payloads the Transport has received, oldest first. *)
Definition apiCalls (t : list Event) : list MetricPayload :=
  omap (λ e, match e with ApiSubmit p _ => Some p | _ => None end) t.

(** ** The monad of effectful code: state, exceptions, divergence *)

Definition M (A : Type) : Type := World → World * Completion A.

Definition ret {A} (a : A) : M A := λ w, (w, Normal a).

Definition bind {A B} (m : M A) (k : A → M B) : M B :=
  λ w, match m w with
       | (w', Normal a) => k a w'
       | (w', Throw e) => (w', Throw e)
       | (w', Diverge) => (w', Diverge)
       end.

Definition throw {A} (e : Thrown) : M A := λ w, (w, Throw e).

Definition diverge {A} : M A := λ w, (w, Diverge).

(** [try { m } catch (error) { handler error }] *)
Definition tryCatch {A} (m : M A) (handler : Thrown → M A) : M A :=
  λ w, match m w with
       | (w', Throw e) => handler e w'
       | r => r
       end.

Notation "x <- m ;; k" := (bind m (λ x, k))
  (at level 100, m at next level, right associativity).
Notation "m ;;; k" := (bind m (λ _, k))
  (at level 100, right associativity).

Fixpoint filterM {A} (p : A → M bool) (l : list A) : M (list A) :=
  match l with
  | [] => ret []
  | x :: l' =>
      b <- p x ;;
      r <- filterM p l' ;;
      ret (if b then x :: r else r)
  end.

(** ** fs and JSON primitives *)

Definition existsSync (path : string) : M bool :=
  λ w, (w, Normal (bool_decide (is_Some (files w !! path)))).

Definition readFileSync (path : string) : M FileContent :=
  λ w, match files w !! path with
       | None => (emit (ReadFile path) w, Throw (JsError "ENOENT: no such file or directory"))
       | Some Unreadable => (emit (ReadFile path) w, Throw (JsError "EACCES: permission denied"))
       | Some c => (emit (ReadFile path) w, Normal c)
       end.

Definition writeFileSync (path : string) (c : FileContent) : M unit :=
  λ w, ({| files := <[path := c]> (files w);
           trace := trace w ++ [WriteFile path c] |}, Normal tt).

(** [JSON.parse(text).sent], as an array of strings *)
Definition JSON_parse_sent (c : FileContent) : M (list string) :=
  match c with
  | SentDoc sent => ret sent
  | NoSent => throw (JsError "TypeError: data.sent is undefined")
  | _ => throw (JsError "SyntaxError: Unexpected token in JSON")
  end.

(** [sent.includes(workflowId)] *)
Definition includes (sent : list string) (workflowId : string) : bool :=
  bool_decide (workflowId ∈ sent).

(** [[...new Set(xs)]]: the first occurrence of every element, in order. *)
Fixpoint setSpread (xs : list string) : list string :=
  match xs with
  | [] => []
  | x :: xs' => x :: filter (λ y, y ≠ x) (setSpread xs')
  end.

(** ** WorkflowCache *)

Record WorkflowCache : Type := { cacheFilePath : string }.

Definition ensureCacheExists (c : WorkflowCache) : M unit :=
  ex <- existsSync (cacheFilePath c) ;;
  if negb ex then writeFileSync (cacheFilePath c) (SentDoc []) else ret tt.

Definition newWorkflowCache (cwd filename : string) : M WorkflowCache :=
  let c := {| cacheFilePath := Path.join cwd "cache" filename |} in
  ensureCacheExists c ;;;
  ret c.

Definition hasBeenSent (c : WorkflowCache) (workflowId : string) : M bool :=
  tryCatch
    (text <- readFileSync (cacheFilePath c) ;;
     sent <- JSON_parse_sent text ;;
     ret (includes sent workflowId))
    (λ _, ret false).

Definition markAsSent (c : WorkflowCache) (workflowIds : list string) : M unit :=
  tryCatch
    (text <- readFileSync (cacheFilePath c) ;;
     sent <- JSON_parse_sent text ;;
     let newSent := setSpread (sent ++ workflowIds) in
     writeFileSync (cacheFilePath c) (SentDoc newSent))
    (λ error, throw error).

Definition filterNewWorkflows (c : WorkflowCache) (workflowIds : list string)
  : M (list string) :=
  filterM (λ id, b <- hasBeenSent c id ;; ret (negb b)) workflowIds.

(** ** DatadogService *)

(** The mocked Transport: previous payloads, current payload, outcome. *)
Definition MetricsApi : Type :=
  list MetricPayload → MetricPayload → option Thrown.

Record Process : Type := {
  cwd : string;
  NODE_ENV : option string;
  DD_API_KEY : option string;
  v2_MetricsApi : MetricsApi
}.

Record Options : Type := {
  opt_dryRun : option bool;
  opt_batchSize : option nat
}.

Record DatadogService : Type := {
  metricsApi : MetricsApi;
  dryRun : bool;
  workflowCache : WorkflowCache;
  batchSize : nat
}.

Definition cacheFilename (dry : bool) (node_env : option string) : string :=
  if bool_decide (node_env = Some "test")
  then (if dry then "sent-workflows-dry-run-test.json" else "sent-workflows-test.json")
  else (if dry then "sent-workflows-dry-run.json" else "sent-workflows.json").

(** [!process.env.DD_API_KEY] *)
Definition falsy (v : option string) : bool :=
  match v with None => true | Some s => bool_decide (s = "") end.

Definition newDatadogService (proc : Process) (options : option Options)
  : M DatadogService :=
  let dry := default false (options ≫= opt_dryRun) in
  let bs := default 10 (options ≫= opt_batchSize) in
  let filename := cacheFilename dry (NODE_ENV proc) in
  cache <- newWorkflowCache (cwd proc) filename ;;
  if falsy (DD_API_KEY proc)
  then throw (JsError "DD_API_KEY environment variable is required")
  else ret {| metricsApi := v2_MetricsApi proc; dryRun := dry;
              workflowCache := cache; batchSize := bs |}.

(** [a.forEach(f)] *)
Fixpoint forEach {A} (f : A → M unit) (a : list A) : M unit :=
  match a with
  | [] => ret tt
  | x :: a' => f x ;;; forEach f a'
  end.

(** The [RangeError] of [toISOString] on an invalid date. *)
Definition invalidTimeValue : Thrown := JsError "Invalid time value".

(** The callback of [payload.series.forEach]: the lines of one series,
    among them the formatted date of every point. *)
Definition logSeries (series_ : Series) : M unit :=
  if formatsDates series_ then ret tt else throw invalidTimeValue.

(** The lines are built first, then written: one audit artifact per call,
    whose file name comes from the clock, and none when building the lines
    throws. *)
Definition logMetricPayload (s : DatadogService) (payload : MetricPayload) : M unit :=
  forEach logSeries (series payload) ;;;
  λ w, (emit (AuditLog (dryRun s) payload) w, Normal tt).

(** [await this.metricsApi.submitMetrics({ body })] *)
Definition metricsApi_submitMetrics (s : DatadogService) (body : MetricPayload) : M unit :=
  λ w, match metricsApi s (apiCalls (trace w)) body with
       | None => (emit (ApiSubmit body None) w, Normal tt)
       | Some e => (emit (ApiSubmit body (Some e)) w, Throw e)
       end.

Record Pair : Type := { payload : Series; workflowId : string }.

(** [a.slice(start, end)] for [0 <= start] *)
Definition slice {A} (a : list A) (start end_ : nat) : list A :=
  take (end_ - start) (drop start a).

(** The [catch] block of [submitMetrics]. *)
Definition rethrow {A} (error : Thrown) : M A :=
  match error with
  | JsError _ => throw error
  | NonError _ => throw (JsError "Unknown error submitting metrics")
  end.

Definition mismatchMessage (n m : nat) : string :=
  "Mismatch between series (" +:+ pretty n +:+ ") and workflow IDs ("
    +:+ pretty m +:+ ")".

(** The [for (let i = 0; i < paired.length; i += this.batchSize)] loop of
    the pairing variant, started at index [i]. *)
Fixpoint processBatches (fuel : nat) (s : DatadogService) (paired : list Pair)
    (i : nat) : M unit :=
  match fuel with
  | O => diverge
  | S fuel' =>
      if bool_decide (i < length paired) then
        let batch := slice paired i (i + batchSize s) in
        newWorkflowPairs <-
          filterM (λ pair, b <- hasBeenSent (workflowCache s) (workflowId pair) ;;
                           ret (negb b)) batch ;;
        if bool_decide (length newWorkflowPairs = 0) then
          processBatches fuel' s paired (i + batchSize s)
        else
          let batchPayload := {| series := payload <$> newWorkflowPairs |} in
          logMetricPayload s batchPayload ;;;
          tryCatch
            ((if negb (dryRun s)
              then metricsApi_submitMetrics s batchPayload
              else ret tt) ;;;
             markAsSent (workflowCache s) (workflowId <$> newWorkflowPairs))
            rethrow ;;;
          processBatches fuel' s paired (i + batchSize s)
      else ret tt
  end.

(** [payload.series.map((series, index) => ({ payload: series,
    workflowId: workflowIds[index] }))]; the length guard makes every
    index valid. *)
Definition pairUp (ss : list Series) (workflowIds : list string) : list Pair :=
  imap (λ index series_,
          {| payload := series_;
             workflowId := default "" (workflowIds !! index) |}) ss.

Definition submitMetricsFuel (fuel : nat) (s : DatadogService)
    (p : MetricPayload) (workflowIds : list string) : M unit :=
  if negb (bool_decide (length (series p) = length workflowIds)) then
    throw (JsError (mismatchMessage (length (series p)) (length workflowIds)))
  else
    let paired := pairUp (series p) workflowIds in
    processBatches fuel s paired 0.

(** The loop runs at most once per element when [batchSize] is positive,
    plus the final failing test. *)
Definition submitMetrics (s : DatadogService) (p : MetricPayload)
    (workflowIds : list string) : M unit :=
  submitMetricsFuel (S (length (series p))) s p workflowIds.

(** ** The earlier positional-slice variant of [submitMetrics] *)

Fixpoint processSlices (fuel : nat) (s : DatadogService) (p : MetricPayload)
    (newWorkflows : list string) (i : nat) : M unit :=
  match fuel with
  | O => diverge
  | S fuel' =>
      if bool_decide (i < length newWorkflows) then
        let batchWorkflows := slice newWorkflows i (i + batchSize s) in
        let batchPayload := {| series := slice (series p) i (i + batchSize s) |} in
        logMetricPayload s batchPayload ;;;
        tryCatch
          ((if negb (dryRun s)
            then metricsApi_submitMetrics s batchPayload
            else ret tt) ;;;
           markAsSent (workflowCache s) batchWorkflows)
          rethrow ;;;
        processSlices fuel' s p newWorkflows (i + batchSize s)
      else ret tt
  end.

Definition submitMetrics_positional (s : DatadogService) (p : MetricPayload)
    (workflowIds : list string) : M unit :=
  newWorkflows <- filterNewWorkflows (workflowCache s) workflowIds ;;
  if bool_decide (length newWorkflows = 0) then ret tt
  else processSlices (S (length newWorkflows)) s p newWorkflows 0.

(** ** Observations used in the statements *)

(** The world [w] with the events [es] appended to its trace. *)
Definition addTrace (es : list Event) (w : World) : World :=
  {| files := files w; trace := trace w ++ es |}.

(** The [sent] array stored at [path], when the file holds one. *)
Definition sentOf (fs : gmap string FileContent) (path : string)
  : option (list string) :=
  match fs !! path with
  | Some (SentDoc sent) => Some sent
  | _ => None
  end.

(** The identifiers stored at [path]; none when the file is unusable. *)
Definition storedIds (fs : gmap string FileContent) (path : string) : list string :=
  default [] (sentOf fs path).

(** Whether [id] is stored in the ledger file at [path]. *)
Definition recorded (fs : gmap string FileContent) (path id : string) : bool :=
  match sentOf fs path with
  | Some sent => includes sent id
  | None => false
  end.

(** The sub-batch of a window: the pairs whose identifier is not stored. *)
Definition subBatch (fs : gmap string FileContent) (path : string)
    (batch : list Pair) : list Pair :=
  filter (λ pair, recorded fs path (workflowId pair) = false) batch.

(** The error that leaves [submitMetrics] when the Transport threw [e]. *)
Definition propagated (e : Thrown) : Thrown :=
  match e with
  | JsError _ => e
  | NonError _ => JsError "Unknown error submitting metrics"
  end.

(** ** One window of the loop *)

(** The loop body after the empty-sub-batch test: audit, Transport unless
    dry run, then the ledger write, inside the [try]. *)
Definition deliverBatch (s : DatadogService) (newWorkflowPairs : list Pair)
  : M unit :=
  let batchPayload := {| series := payload <$> newWorkflowPairs |} in
  logMetricPayload s batchPayload ;;;
  tryCatch
    ((if negb (dryRun s)
      then metricsApi_submitMetrics s batchPayload
      else ret tt) ;;;
     markAsSent (workflowCache s) (workflowId <$> newWorkflowPairs))
    rethrow.

(** Whether the audit log can format every point of [body]. *)
Definition loggable (body : MetricPayload) : bool :=
  forallb formatsDates (series body).

(** The events of the Transport step of one window. *)
Definition apiEvents (s : DatadogService) (body : MetricPayload) : list Event :=
  if dryRun s then [] else [ApiSubmit body None].

(** The Transport step of one window lets the body go on. *)
Definition transportOk (s : DatadogService) (t : list Event)
    (body : MetricPayload) : Prop :=
  dryRun s = true ∨ metricsApi s (apiCalls t) body = None.

(** The world after the filter of one window has read the ledger once per
    pair. *)
Definition afterFilter (s : DatadogService) (paired : list Pair) (i : nat)
    (w : World) : World :=
  addTrace (replicate (length (slice paired i (i + batchSize s)))
              (ReadFile (cacheFilePath (workflowCache s)))) w.

(** The sub-batch of the window that starts at [i], filtered in world [w]. *)
Definition windowNew (s : DatadogService) (paired : list Pair) (i : nat)
    (w : World) : list Pair :=
  subBatch (files w) (cacheFilePath (workflowCache s))
    (slice paired i (i + batchSize s)).

(** The four ways one window's delivery can end. *)
Inductive DeliverOutcome (s : DatadogService) (new : list Pair) (w : World)
  : World * Completion unit → Prop :=
  | LoggerFailed :
      let body := {| series := payload <$> new |} in
      loggable body = false →
      DeliverOutcome s new w (w, Throw invalidTimeValue)
  | Delivered sent :
      let path := cacheFilePath (workflowCache s) in
      let body := {| series := payload <$> new |} in
      let sent' := setSpread (sent ++ (workflowId <$> new)) in
      loggable body = true →
      sentOf (files w) path = Some sent →
      transportOk s (trace w) body →
      DeliverOutcome s new w
        ({| files := <[path := SentDoc sent']> (files w);
            trace := trace w ++ [AuditLog (dryRun s) body] ++ apiEvents s body
                       ++ [ReadFile path; WriteFile path (SentDoc sent')] |},
         Normal tt)
  | TransportFailed e :
      let body := {| series := payload <$> new |} in
      loggable body = true →
      dryRun s = false →
      metricsApi s (apiCalls (trace w)) body = Some e →
      DeliverOutcome s new w
        (addTrace [AuditLog false body; ApiSubmit body (Some e)] w,
         Throw (propagated e))
  | LedgerFailed message :
      let path := cacheFilePath (workflowCache s) in
      let body := {| series := payload <$> new |} in
      loggable body = true →
      sentOf (files w) path = None →
      transportOk s (trace w) body →
      DeliverOutcome s new w
        (addTrace ([AuditLog (dryRun s) body] ++ apiEvents s body
                     ++ [ReadFile path]) w,
         Throw (JsError message)).

(** ** The loop as a derivation *)

(** The runs of [processBatches] from index [i], window by window; a
    derivation may also stop for lack of fuel at any window. *)
Inductive LoopRun (s : DatadogService) (paired : list Pair)
  : nat → World → World * Completion unit → Prop :=
  | run_done i w :
      length paired ≤ i →
      LoopRun s paired i w (w, Normal tt)
  | run_out_of_fuel i w :
      LoopRun s paired i w (w, Diverge)
  | run_skip i w res :
      i < length paired →
      windowNew s paired i w = [] →
      LoopRun s paired (i + batchSize s) (afterFilter s paired i w) res →
      LoopRun s paired i w res
  | run_deliver i w w' res :
      i < length paired →
      windowNew s paired i w ≠ [] →
      deliverBatch s (windowNew s paired i w) (afterFilter s paired i w)
        = (w', Normal tt) →
      LoopRun s paired (i + batchSize s) w' res →
      LoopRun s paired i w res
  | run_abort i w w' e :
      i < length paired →
      windowNew s paired i w ≠ [] →
      deliverBatch s (windowNew s paired i w) (afterFilter s paired i w)
        = (w', Throw e) →
      LoopRun s paired i w (w', Throw e).

(** ** Histories of ledger operations *)

(** The public operations of one [WorkflowCache] object. *)
Inductive CacheOp : Type :=
  | OpHasBeenSent (workflowId : string)
  | OpMarkAsSent (workflowIds : list string)
  | OpFilterNewWorkflows (workflowIds : list string).

Definition runOp (c : WorkflowCache) (op : CacheOp) : M unit :=
  match op with
  | OpHasBeenSent id => hasBeenSent c id ;;; ret tt
  | OpMarkAsSent ids => markAsSent c ids
  | OpFilterNewWorkflows ids => filterNewWorkflows c ids ;;; ret tt
  end.

Fixpoint runOps (c : WorkflowCache) (ops : list CacheOp) : M unit :=
  match ops with
  | [] => ret tt
  | op :: ops' => runOp c op ;;; runOps c ops'
  end.

(** The identifiers a history passed to [markAsSent]. *)
Fixpoint markedIn (ops : list CacheOp) : list string :=
  match ops with
  | [] => []
  | OpMarkAsSent ids :: ops' => ids ++ markedIn ops'
  | _ :: ops' => markedIn ops'
  end.

(** ** A ledger file the code cannot use *)

(** The file is missing, unreadable, not JSON, or lacks the [sent] array. *)
Definition brokenLedger (fs : gmap string FileContent) (path : string) : Prop :=
  fs !! path = None ∨ fs !! path = Some Unreadable
  ∨ fs !! path = Some NotJson ∨ fs !! path = Some NoSent.

(** ** Sub-batches as the Transport sees them *)

(** The body sent for a sub-batch. *)
Definition payloadOf (batch : list Pair) : MetricPayload :=
  {| series := payload <$> batch |}.

(** How many of the sub-batches carry the identifier [id]. *)
Definition invocationsOf (id : string) (batches : list (list Pair)) : nat :=
  length (filter (λ batch, id ∈ workflowId <$> batch) batches).

(** The sub-batches a window hands to the Transport: none in a dry run. *)
Definition sentBatches (s : DatadogService) (new : list Pair) : list (list Pair) :=
  if dryRun s then [] else [new].

(** ** The batching algorithm in the specification's words *)

(** Spec 4.2, step 2: consecutive windows of at most [size] elements. *)
Fixpoint windowsFuel {A} (fuel size : nat) (l : list A) : list (list A) :=
  match fuel, l with
  | S fuel', _ :: _ => take size l :: windowsFuel fuel' size (drop size l)
  | _, _ => []
  end.

Definition windows {A} (size : nat) (l : list A) : list (list A) :=
  windowsFuel (length l) size l.

(** Spec 4.2, step 3, live mode with a Transport that accepts: for each
    window in order, the sub-batch of pairs whose identifier is not in the
    ledger; an empty sub-batch is skipped, any other is sent and its
    identifiers join the ledger. *)
Fixpoint spec_deliveries (sent : list string) (ws : list (list Pair))
  : list MetricPayload :=
  match ws with
  | [] => []
  | window :: ws' =>
      match filter (λ pair, workflowId pair ∉ sent) window with
      | [] => spec_deliveries sent ws'
      | sub => payloadOf sub :: spec_deliveries (sent ++ (workflowId <$> sub)) ws'
      end
  end.

(** A Transport that resolves every call. *)
Definition accepting (api : MetricsApi) : Prop :=
  ∀ history body, api history body = None.

(** ** The points a call submits *)

(** All the series handed to the Transport, in order. *)
Definition submittedPoints (t : list Event) : list Series :=
  concat (series <$> apiCalls t).

(** The points of the pairs [l], which sit at positions [j], [j + 1], ...
    of the input, whose identifier is undelivered when their window is
    filtered: neither in the ledger [sent] the call started with, nor among
    the identifiers [ids] of the earlier windows. *)
Fixpoint pointsDueFrom (size : nat) (sent ids : list string) (j : nat)
    (l : list Pair) : list Series :=
  match l with
  | [] => []
  | p :: l' =>
      (if decide ((workflowId p ∉ sent) ∧ (workflowId p ∉ take (j / size * size) ids))
       then [payload p] else [])
        ++ pointsDueFrom size sent ids (S j) l'
  end.

(** ** Concrete services and worlds, as the tests set them up *)

Definition testPath : string := "/app/cache/sent-workflows-test.json".

Definition testDryRunPath : string := "/app/cache/sent-workflows-dry-run-test.json".

(** A Transport that accepts every call. *)
Definition acceptAll : MetricsApi := λ _ _, None.

(** A Transport that rejects the call made after [n] earlier calls. *)
Definition rejectAfter (n : nat) (e : Thrown) : MetricsApi :=
  λ history _, if decide (length history = n) then Some e else None.

Definition testService (dry : bool) (size : nat) (api : MetricsApi)
  : DatadogService :=
  {| metricsApi := api; dryRun := dry;
     workflowCache := {| cacheFilePath := testPath |}; batchSize := size |}.

(** The dry-run service the constructor builds by default in the tests. *)
Definition testDryRunService : DatadogService :=
  {| metricsApi := acceptAll; dryRun := true;
     workflowCache := {| cacheFilePath := testDryRunPath |}; batchSize := 10 |}.

(** A world without files. *)
Definition emptyWorld : World := {| files := ∅; trace := [] |}.

(** A world whose only file is the live ledger, holding [sent]. *)
Definition ledgerWorld (sent : list string) : World :=
  {| files := {[ testPath := SentDoc sent ]}; trace := [] |}.

(** A world whose ledger file is not JSON. *)
Definition corruptWorld : World :=
  {| files := {[ testPath := NotJson ]}; trace := [] |}.

Definition testProcess : Process :=
  {| cwd := "/app"; NODE_ENV := Some "test"; DD_API_KEY := Some "test-api-key";
     v2_MetricsApi := acceptAll |}.

(** ** The earlier unbatched variant of [submitMetrics] *)

(** One Transport call for the whole payload as soon as one identifier is
    undelivered; the service of that version has no [batchSize]. *)
Definition submitMetrics_unbatched (s : DatadogService) (p : MetricPayload)
    (workflowIds : list string) : M unit :=
  newWorkflows <- filterNewWorkflows (workflowCache s) workflowIds ;;
  if bool_decide (length newWorkflows = 0) then ret tt
  else
    logMetricPayload s p ;;;
    if dryRun s then markAsSent (workflowCache s) newWorkflows
    else
      tryCatch
        (metricsApi_submitMetrics s p ;;;
         markAsSent (workflowCache s) newWorkflows)
        rethrow.

(** ** The variant of [submitMetrics] before the ledger *)


(** ** Further observations *)

(** The payloads written to the audit log, oldest first. *)
Definition auditedPayloads (t : list Event) : list MetricPayload :=
  omap (λ e, match e with AuditLog _ p => Some p | _ => None end) t.

(** Every ledger write of [t] comes directly after a Transport call that
    resolved and the ledger read of [markAsSent]. *)
Definition writesFollowAccept (t : list Event) : Prop :=
  ∀ t1 q c t2,
    t = t1 ++ WriteFile q c :: t2 →
    ∃ t0 body, t1 = t0 ++ [ApiSubmit body None; ReadFile q].

(** The body of one iteration of either batching loop: audit, Transport
    unless dry run, then the ledger write, inside the [try]. *)
Definition deliver (s : DatadogService) (batchPayload : MetricPayload)
    (batchWorkflows : list string) : M unit :=
  logMetricPayload s batchPayload ;;;
  tryCatch
    ((if negb (dryRun s)
      then metricsApi_submitMetrics s batchPayload
      else ret tt) ;;;
     markAsSent (workflowCache s) batchWorkflows)
    rethrow.

(** The payloads the Transport has accepted, oldest first. *)
Definition acceptedCalls (t : list Event) : list MetricPayload :=
  omap (λ e, match e with ApiSubmit p None => Some p | _ => None end) t.

(** Whether an event is a read of a file. *)
Definition isRead (e : Event) : bool :=
  match e with ReadFile _ => true | _ => false end.

(** A trace without its file reads. *)
Definition withoutReads (t : list Event) : list Event :=
  filter (λ e, isRead e = false) t.

(** Local definitions introduced by inverting a derivation. *)
Ltac unfold_lets := repeat match goal with x := _ |- _ => subst x end.

(** ** Running the ledger operations *)

Lemma addTrace_nil w : addTrace [] w = w.
Proof. destruct w; unfold addTrace; simpl. by rewrite app_nil_r. Qed.

Lemma addTrace_addTrace es1 es2 w :
  addTrace es2 (addTrace es1 w) = addTrace (es1 ++ es2) w.
Proof. unfold addTrace; simpl. by rewrite app_assoc. Qed.

Lemma emit_addTrace e w : emit e w = addTrace [e] w.
Proof. done. Qed.

Lemma apiCalls_app t1 t2 : apiCalls (t1 ++ t2) = apiCalls t1 ++ apiCalls t2.
Proof. apply omap_app. Qed.

Lemma apiCalls_reads n path : apiCalls (replicate n (ReadFile path)) = [].
Proof. induction n; simpl; auto. Qed.

Lemma hasBeenSent_run c id w :
  hasBeenSent c id w
  = (addTrace [ReadFile (cacheFilePath c)] w,
     Normal (recorded (files w) (cacheFilePath c) id)).
Proof.
  unfold hasBeenSent, tryCatch, bind, readFileSync, recorded, sentOf.
  destruct (files w !! cacheFilePath c) as [[| | |sent]|]; reflexivity.
Qed.

Lemma markAsSent_run c ids w sent :
  sentOf (files w) (cacheFilePath c) = Some sent →
  markAsSent c ids w
  = ({| files := <[cacheFilePath c := SentDoc (setSpread (sent ++ ids))]> (files w);
        trace := trace w ++ [ReadFile (cacheFilePath c);
                             WriteFile (cacheFilePath c)
                               (SentDoc (setSpread (sent ++ ids)))] |},
     Normal tt).
Proof.
  unfold sentOf, markAsSent, tryCatch, bind, readFileSync.
  destruct (files w !! cacheFilePath c) as [[| | |sent']|]; try done.
  intros [= ->]. simpl. unfold writeFileSync; simpl.
  by rewrite <- app_assoc.
Qed.

Lemma markAsSent_fails c ids w :
  sentOf (files w) (cacheFilePath c) = None →
  ∃ message,
    markAsSent c ids w
    = (addTrace [ReadFile (cacheFilePath c)] w, Throw (JsError message)).
Proof.
  unfold sentOf, markAsSent, tryCatch, bind, readFileSync.
  destruct (files w !! cacheFilePath c) as [[| | |sent']|]; try done;
    intros _; eexists; reflexivity.
Qed.

Lemma bind_normal {A B} (m : M A) (k : A → M B) w w' a :
  m w = (w', Normal a) → bind m k w = k a w'.
Proof. unfold bind. by intros ->. Qed.

Lemma bind_throw {A B} (m : M A) (k : A → M B) w w' e :
  m w = (w', Throw e) → bind m k w = (w', Throw e).
Proof. unfold bind. by intros ->. Qed.

Lemma bind_assoc {A B C} (m : M A) (k : A → M B) (h : B → M C) w :
  bind (bind m k) h w = bind m (λ a, bind (k a) h) w.
Proof. unfold bind. by destruct (m w) as [w' [a|e|]]. Qed.

Lemma filterM_hasBeenSent_gen {A} c (f : A → string) (l : list A) w :
  filterM (λ a, b <- hasBeenSent c (f a) ;; ret (negb b)) l w
  = (addTrace (replicate (length l) (ReadFile (cacheFilePath c))) w,
     Normal (filter (λ a, recorded (files w) (cacheFilePath c) (f a) = false) l)).
Proof.
  revert w. induction l as [|a l IH]; intros w.
  - simpl. by rewrite addTrace_nil.
  - cbn [filterM].
    erewrite (bind_normal (bind _ _)).
    2: { erewrite bind_normal by apply hasBeenSent_run. reflexivity. }
    erewrite bind_normal by apply IH.
    rewrite addTrace_addTrace. unfold ret. f_equal.
    rewrite filter_cons. simpl.
    by destruct (recorded (files w) (cacheFilePath c) (f a)).
Qed.

Lemma filterM_hasBeenSent_run c (batch : list Pair) w :
  filterM (λ pair, b <- hasBeenSent c (workflowId pair) ;; ret (negb b)) batch w
  = (addTrace (replicate (length batch) (ReadFile (cacheFilePath c))) w,
     Normal (subBatch (files w) (cacheFilePath c) batch)).
Proof. apply (filterM_hasBeenSent_gen c workflowId). Qed.

Lemma processBatches_unfold fuel s paired i w :
  i < length paired →
  processBatches (S fuel) s paired i w
  = if bool_decide (length (windowNew s paired i w) = 0)
    then processBatches fuel s paired (i + batchSize s) (afterFilter s paired i w)
    else bind (deliverBatch s (windowNew s paired i w))
              (λ _, processBatches fuel s paired (i + batchSize s))
              (afterFilter s paired i w).
Proof.
  intros Hi. cbn [processBatches].
  rewrite bool_decide_true by done.
  erewrite bind_normal by apply filterM_hasBeenSent_run.
  fold (afterFilter s paired i w) (windowNew s paired i w).
  destruct (bool_decide (length (windowNew s paired i w) = 0)); [done|].
  unfold deliverBatch. by rewrite bind_assoc.
Qed.

Lemma processBatches_done fuel s (paired : list Pair) (i : nat) w :
  length paired ≤ i → processBatches (S fuel) s paired i w = (w, Normal tt).
Proof.
  intros Hi. cbn [processBatches]. by rewrite bool_decide_false by lia.
Qed.

Lemma apiCalls_audit (t : list Event) dry body :
  apiCalls (t ++ [AuditLog dry body]) = apiCalls t.
Proof. rewrite apiCalls_app. simpl. by rewrite app_nil_r. Qed.

(** ** The audit log *)

Lemma forEach_logSeries (ss : list Series) w :
  forEach logSeries ss w
  = (w, if forallb formatsDates ss then Normal tt else Throw invalidTimeValue).
Proof.
  induction ss as [|x ss IH]; [done|].
  cbn [forEach forallb]. unfold bind, logSeries.
  destruct (formatsDates x); [apply IH|done].
Qed.

(** The audit log is written when every date formats; otherwise the
    [RangeError] leaves before anything is written. *)
Lemma logMetricPayload_run s (body : MetricPayload) w :
  logMetricPayload s body w
  = if loggable body then (emit (AuditLog (dryRun s) body) w, Normal tt)
    else (w, Throw invalidTimeValue).
Proof.
  unfold logMetricPayload, loggable, bind. rewrite forEach_logSeries.
  by destruct (forallb formatsDates (series body)).
Qed.

Lemma logMetricPayload_ok s (body : MetricPayload) w :
  loggable body = true →
  logMetricPayload s body w = (emit (AuditLog (dryRun s) body) w, Normal tt).
Proof. intros H. by rewrite logMetricPayload_run, H. Qed.

Lemma logMetricPayload_throws s (body : MetricPayload) w :
  loggable body = false →
  logMetricPayload s body w = (w, Throw invalidTimeValue).
Proof. intros H. by rewrite logMetricPayload_run, H. Qed.

Lemma loggable_Forall (body : MetricPayload) :
  loggable body = true ↔ Forall (λ m, formatsDates m = true) (series body).
Proof.
  unfold loggable. induction (series body) as [|m ms IH]; simpl.
  - split; [constructor|done].
  - by rewrite Forall_cons, andb_true_iff, IH.
Qed.

Lemma deliverBatch_outcome s new w :
  DeliverOutcome s new w (deliverBatch s new w).
Proof.
  unfold deliverBatch.
  set (body := {| series := payload <$> new |}).
  destruct (loggable body) eqn:Hlog.
  2: { erewrite bind_throw by (by apply logMetricPayload_throws).
       by apply LoggerFailed. }
  erewrite bind_normal by (by apply logMetricPayload_ok).
  set (w1 := emit (AuditLog (dryRun s) body) w).
  unfold tryCatch.
  destruct (dryRun s) eqn:Hdry; simpl negb; cbv iota.
  - erewrite bind_normal by reflexivity.
    destruct (sentOf (files w) (cacheFilePath (workflowCache s))) as [sent|] eqn:Hs.
    + rewrite (markAsSent_run _ _ w1 sent) by done.
      pose proof (Delivered s new w sent Hlog Hs (or_introl Hdry)) as H.
      unfold apiEvents in H. rewrite Hdry in H. simpl in H.
      subst w1. simpl. by rewrite <- app_assoc.
    + destruct (markAsSent_fails (workflowCache s) ((workflowId <$> new)) w1)
        as [message ->]; [done|].
      pose proof (LedgerFailed s new w message Hlog Hs (or_introl Hdry)) as H.
      unfold apiEvents in H. rewrite Hdry in H. simpl in H.
      subst w1. simpl. rewrite emit_addTrace, addTrace_addTrace. exact H.
  - unfold bind at 1, metricsApi_submitMetrics.
    assert (apiCalls (trace w1) = apiCalls (trace w)) as ->
      by (subst w1; simpl; apply apiCalls_audit).
    destruct (metricsApi s (apiCalls (trace w)) body) as [e|] eqn:Hapi.
    + pose proof (TransportFailed s new w e Hlog Hdry Hapi) as H.
      subst w1. rewrite !emit_addTrace, addTrace_addTrace.
      destruct e; exact H.
    + set (w2 := emit (ApiSubmit body None) w1).
      destruct (sentOf (files w) (cacheFilePath (workflowCache s))) as [sent|] eqn:Hs.
      * rewrite (markAsSent_run _ _ w2 sent) by done.
        pose proof (Delivered s new w sent Hlog Hs (or_intror Hapi)) as H.
        unfold apiEvents in H. rewrite Hdry in H. simpl in H.
        subst w2 w1. simpl. by rewrite <- !app_assoc.
      * destruct (markAsSent_fails (workflowCache s) ((workflowId <$> new)) w2)
          as [message ->]; [done|].
        pose proof (LedgerFailed s new w message Hlog Hs (or_intror Hapi)) as H.
        unfold apiEvents in H. rewrite Hdry in H. simpl in H.
        subst w2 w1. simpl. rewrite !emit_addTrace, !addTrace_addTrace. exact H.
Qed.

Lemma deliverBatch_normal s new w w' :
  deliverBatch s new w = (w', Normal tt) →
  let path := cacheFilePath (workflowCache s) in
  let body := {| series := payload <$> new |} in
  ∃ sent,
    sentOf (files w) path = Some sent ∧
    transportOk s (trace w) body ∧
    files w' = <[path := SentDoc (setSpread (sent ++ (workflowId <$> new)))]> (files w) ∧
    trace w' = trace w ++ [AuditLog (dryRun s) body] ++ apiEvents s body
                 ++ [ReadFile path;
                     WriteFile path (SentDoc (setSpread (sent ++ (workflowId <$> new))))].
Proof.
  intros Hrun. pose proof (deliverBatch_outcome s new w) as H.
  rewrite Hrun in H. inversion H; subst. exists sent. auto.
Qed.

Lemma deliverBatch_normal_loggable s new w w' :
  deliverBatch s new w = (w', Normal tt) → loggable (payloadOf new) = true.
Proof.
  intros Hrun. pose proof (deliverBatch_outcome s new w) as H.
  rewrite Hrun in H. by inversion H.
Qed.

Lemma deliverBatch_throw s new w w' e' :
  deliverBatch s new w = (w', Throw e') →
  let path := cacheFilePath (workflowCache s) in
  let body := {| series := payload <$> new |} in
  files w' = files w ∧
  ((∃ e, dryRun s = false ∧ metricsApi s (apiCalls (trace w)) body = Some e ∧
         e' = propagated e ∧
         trace w' = trace w ++ [AuditLog false body; ApiSubmit body (Some e)])
   ∨ (∃ message, sentOf (files w) path = None ∧ transportOk s (trace w) body ∧
         e' = JsError message ∧
         trace w' = trace w ++ [AuditLog (dryRun s) body] ++ apiEvents s body
                      ++ [ReadFile path])
   ∨ (loggable body = false ∧ e' = invalidTimeValue ∧ w' = w)).
Proof.
  intros Hrun. pose proof (deliverBatch_outcome s new w) as H.
  rewrite Hrun in H. inversion H; subst; (split; [done|]).
  - right. right. auto.
  - left. exists e. auto.
  - right. left. exists message. auto.
Qed.

(** Unless the audit log threw, the delivery went as far as the Transport
    step. *)
Lemma deliverBatch_throw_loggable s new w w' e' :
  deliverBatch s new w = (w', Throw e') →
  loggable (payloadOf new) = true →
  let path := cacheFilePath (workflowCache s) in
  let body := {| series := payload <$> new |} in
  (∃ e, dryRun s = false ∧ metricsApi s (apiCalls (trace w)) body = Some e ∧
        e' = propagated e ∧
        trace w' = trace w ++ [AuditLog false body; ApiSubmit body (Some e)])
  ∨ (∃ message, sentOf (files w) path = None ∧ transportOk s (trace w) body ∧
        e' = JsError message ∧
        trace w' = trace w ++ [AuditLog (dryRun s) body] ++ apiEvents s body
                     ++ [ReadFile path]).
Proof.
  intros Hrun Hlog path body.
  apply deliverBatch_throw in Hrun as [_ [?|[?|[Hno _]]]]; [by left|by right|].
  unfold payloadOf in Hlog. congruence.
Qed.

Lemma deliverBatch_converges s new w w' : deliverBatch s new w ≠ (w', Diverge).
Proof.
  intros Hrun. pose proof (deliverBatch_outcome s new w) as H.
  rewrite Hrun in H. inversion H.
Qed.

Lemma processBatches_run fuel s paired i w :
  LoopRun s paired i w (processBatches fuel s paired i w).
Proof.
  revert i w. induction fuel as [|fuel IH]; intros i w.
  - apply run_out_of_fuel.
  - destruct (decide (i < length paired)) as [Hi|Hi].
    + rewrite processBatches_unfold by done.
      case_bool_decide as Hnew.
      * apply run_skip; [done| |apply IH].
        by apply nil_length_inv.
      * assert (windowNew s paired i w ≠ []) as Hne
          by (intros Heq; by rewrite Heq in Hnew).
        unfold bind.
        destruct (deliverBatch s (windowNew s paired i w) (afterFilter s paired i w))
          as [w' [[]|e|]] eqn:Hd.
        -- eapply run_deliver; eauto.
        -- eapply run_abort; eauto.
        -- by apply deliverBatch_converges in Hd.
    + rewrite processBatches_done by lia. apply run_done. lia.
Qed.

(** With a positive batch size the fuel [submitMetrics] gives the loop is
    enough: the loop never answers [Diverge]. *)
Lemma processBatches_terminates fuel s (paired : list Pair) i w :
  0 < batchSize s → length paired - i < fuel →
  (processBatches fuel s paired i w).2 ≠ Diverge.
Proof.
  intros Hbs. revert i w. induction fuel as [|fuel IH]; intros i w Hfuel; [lia|].
  destruct (decide (i < length paired)) as [Hi|Hi].
  - rewrite processBatches_unfold by done.
    case_bool_decide.
    + apply IH. lia.
    + unfold bind.
      destruct (deliverBatch s _ _) as [w' [[]|e|]] eqn:Hd; simpl; try done.
      * apply IH. lia.
      * by apply deliverBatch_converges in Hd.
  - by rewrite processBatches_done by lia.
Qed.

(** With batch size 0 the index never advances: on a non-empty input the
    loop exhausts every amount of fuel. *)
Lemma processBatches_zero_diverges fuel s (paired : list Pair) i w :
  batchSize s = 0 → i < length paired →
  (processBatches fuel s paired i w).2 = Diverge.
Proof.
  intros Hbs Hi. revert w. induction fuel as [|fuel IH]; intros w; [done|].
  rewrite processBatches_unfold by done.
  unfold windowNew, slice. rewrite Hbs, Nat.add_0_r.
  replace (i - i) with 0 by lia. simpl.
  apply IH.
Qed.

(** ** [setSpread] builds a duplicate-free list with the same elements *)

Lemma elem_of_setSpread xs x : x ∈ setSpread xs ↔ x ∈ xs.
Proof.
  induction xs as [|y xs IH]; simpl; [done|].
  rewrite !elem_of_cons, list_elem_of_filter, IH.
  destruct (decide (x = y)); tauto.
Qed.

Lemma NoDup_setSpread xs : NoDup (setSpread xs).
Proof.
  induction xs as [|y xs IH]; simpl; [constructor|].
  constructor.
  - rewrite list_elem_of_filter. tauto.
  - by apply NoDup_filter.
Qed.

Lemma filter_all {A} (P : A → Prop) `{!∀ x, Decision (P x)} (l : list A) :
  (∀ x, x ∈ l → P x) → filter P l = l.
Proof.
  induction l as [|x l IH]; intros Hall; [done|].
  rewrite filter_cons_True by (apply Hall; left).
  f_equal. apply IH. intros z Hz. apply Hall. by right.
Qed.

Lemma filter_none {A} (P : A → Prop) `{!∀ x, Decision (P x)} (l : list A) :
  (∀ x, x ∈ l → ¬ P x) → filter P l = [].
Proof.
  induction l as [|x l IH]; intros Hall; [done|].
  rewrite filter_cons_False by (apply Hall; left).
  apply IH. intros z Hz. apply Hall. by right.
Qed.

Lemma setSpread_NoDup xs : NoDup xs → setSpread xs = xs.
Proof.
  induction 1 as [|y xs Hy Hnd IH]; simpl; [done|].
  rewrite IH. f_equal. apply filter_all. by intros z Hz ->.
Qed.

Lemma setSpread_app xs ys :
  setSpread (xs ++ ys) = setSpread xs ++ filter (λ y, y ∉ xs) (setSpread ys).
Proof.
  induction xs as [|x xs IH]; simpl.
  - symmetry. apply filter_all. intros y _. apply not_elem_of_nil.
  - f_equal. rewrite IH, filter_app. f_equal.
    rewrite list_filter_filter. apply list_filter_iff.
    intros y. rewrite not_elem_of_cons. tauto.
Qed.

(** Marking identifiers that are all stored already rewrites the same
    array. *)
Lemma setSpread_absorb sent ids :
  NoDup sent → (∀ x, x ∈ ids → x ∈ sent) → setSpread (sent ++ ids) = sent.
Proof.
  intros Hnd Hsub. rewrite setSpread_app, setSpread_NoDup by done.
  rewrite filter_none; [by rewrite app_nil_r|].
  intros y Hy Hn. apply Hn, Hsub. by apply elem_of_setSpread.
Qed.

Lemma includes_true sent id : includes sent id = true ↔ id ∈ sent.
Proof. unfold includes. apply bool_decide_eq_true. Qed.

Lemma recorded_true fs path id :
  recorded fs path id = true ↔ ∃ sent, sentOf fs path = Some sent ∧ id ∈ sent.
Proof.
  unfold recorded. destruct (sentOf fs path) as [sent|].
  - rewrite includes_true. split; [eauto|]. by intros (? & [= <-] & ?).
  - split; [done|]. by intros (? & ? & ?).
Qed.

Lemma sentOf_insert fs path c :
  sentOf (<[path := SentDoc c]> fs) path = Some c.
Proof. unfold sentOf. by rewrite lookup_insert_eq. Qed.

Lemma sentOf_insert_ne fs path q c :
  path ≠ q → sentOf (<[path := c]> fs) q = sentOf fs q.
Proof. intros. unfold sentOf. by rewrite lookup_insert_ne. Qed.

(** ** Histories of ledger operations *)

Lemma filterNewWorkflows_run c ids w :
  filterNewWorkflows c ids w
  = (addTrace (replicate (length ids) (ReadFile (cacheFilePath c))) w,
     Normal (filter (λ id, recorded (files w) (cacheFilePath c) id = false) ids)).
Proof. apply (filterM_hasBeenSent_gen c (λ id, id)). Qed.

Lemma newWorkflowCache_fresh cwd filename w :
  files w !! Path.join cwd "cache" filename = None →
  newWorkflowCache cwd filename w
  = ({| files := <[Path.join cwd "cache" filename := SentDoc []]> (files w);
        trace := trace w ++ [WriteFile (Path.join cwd "cache" filename) (SentDoc [])] |},
     Normal {| cacheFilePath := Path.join cwd "cache" filename |}).
Proof.
  intros Hnone. unfold newWorkflowCache, ensureCacheExists, existsSync, bind; simpl.
  rewrite Hnone. rewrite bool_decide_false by (by intros [? ?]). reflexivity.
Qed.

Lemma newWorkflowCache_existing cwd filename w :
  is_Some (files w !! Path.join cwd "cache" filename) →
  newWorkflowCache cwd filename w
  = (w, Normal {| cacheFilePath := Path.join cwd "cache" filename |}).
Proof.
  intros Hsome. unfold newWorkflowCache, ensureCacheExists, existsSync, bind; simpl.
  by rewrite bool_decide_true.
Qed.

Lemma runOp_run c op w sent :
  sentOf (files w) (cacheFilePath c) = Some sent →
  ∃ w' sent',
    runOp c op w = (w', Normal tt) ∧
    sentOf (files w') (cacheFilePath c) = Some sent' ∧
    (∀ x, x ∈ sent' ↔ x ∈ sent ∨ x ∈ markedIn [op]).
Proof.
  intros Hs. destruct op as [id|ids|ids]; simpl.
  - erewrite bind_normal by apply hasBeenSent_run.
    eexists _, sent. split_and!; [reflexivity|done|].
    intros x. rewrite elem_of_nil. tauto.
  - rewrite (markAsSent_run _ _ _ sent) by done.
    eexists _, _. split_and!; [reflexivity|simpl; apply sentOf_insert|].
    intros x. by rewrite elem_of_setSpread, app_nil_r, elem_of_app.
  - erewrite bind_normal by apply filterNewWorkflows_run.
    eexists _, sent. split_and!; [reflexivity|done|].
    intros x. rewrite elem_of_nil. tauto.
Qed.

Lemma markedIn_cons op ops x :
  x ∈ markedIn (op :: ops) ↔ x ∈ markedIn [op] ∨ x ∈ markedIn ops.
Proof.
  destruct op; simpl; rewrite ?elem_of_app, ?app_nil_r, ?elem_of_nil; tauto.
Qed.

Lemma runOps_run c ops w sent :
  sentOf (files w) (cacheFilePath c) = Some sent →
  ∃ w' sent',
    runOps c ops w = (w', Normal tt) ∧
    sentOf (files w') (cacheFilePath c) = Some sent' ∧
    (∀ x, x ∈ sent' ↔ x ∈ sent ∨ x ∈ markedIn ops).
Proof.
  revert w sent. induction ops as [|op ops IH]; intros w sent Hs.
  - exists w, sent. split_and!; [done|done|].
    intros x. simpl. rewrite elem_of_nil. tauto.
  - destruct (runOp_run c op w sent Hs) as (w1 & sent1 & Hrun1 & Hs1 & Hin1).
    destruct (IH w1 sent1 Hs1) as (w2 & sent2 & Hrun2 & Hs2 & Hin2).
    exists w2, sent2. split_and!; [|done|].
    + cbn [runOps]. by erewrite bind_normal by exact Hrun1.
    + intros x. rewrite Hin2, Hin1, (markedIn_cons op ops). tauto.
Qed.

Lemma submitMetrics_mismatch s (p : MetricPayload) (ids : list string) w :
  length (series p) ≠ length ids →
  submitMetrics s p ids w
  = (w, Throw (JsError (mismatchMessage (length (series p)) (length ids)))).
Proof.
  intros Hne. unfold submitMetrics, submitMetricsFuel.
  by rewrite bool_decide_false.
Qed.

(** ** Pairing *)

Lemma pairUp_zip (ss : list Series) (ids : list string) :
  length ss = length ids →
  pairUp ss ids
  = zip_with (λ series_ id, {| payload := series_; workflowId := id |}) ss ids.
Proof.
  unfold pairUp. revert ids. induction ss as [|x ss IH]; intros [|id ids] Hlen;
    try done.
  rewrite imap_cons. simpl. f_equal.
  rewrite <- IH by (simpl in Hlen; lia). by apply imap_ext.
Qed.

Lemma length_pairUp (ss : list Series) ids : length (pairUp ss ids) = length ss.
Proof. unfold pairUp. apply length_imap. Qed.

Lemma pairUp_payload (ss : list Series) (ids : list string) :
  length ss = length ids → (payload <$> (pairUp ss ids)) = ss.
Proof.
  intros Hlen. rewrite pairUp_zip by done. revert ids Hlen.
  induction ss as [|x ss IH]; intros [|id ids] Hlen; try done.
  simpl in *. f_equal. apply IH. lia.
Qed.

Lemma pairUp_workflowId (ss : list Series) (ids : list string) :
  length ss = length ids → (workflowId <$> (pairUp ss ids)) = ids.
Proof.
  intros Hlen. rewrite pairUp_zip by done. revert ids Hlen.
  induction ss as [|x ss IH]; intros [|id ids] Hlen; try done.
  simpl in *. f_equal. apply IH. lia.
Qed.

Lemma pairUp_lookup (ss : list Series) (ids : list string) j pair :
  length ss = length ids →
  pairUp ss ids !! j = Some pair ↔
  ss !! j = Some (payload pair) ∧ ids !! j = Some (workflowId pair).
Proof.
  intros Hlen. rewrite pairUp_zip by done. rewrite lookup_zip_with_Some.
  destruct pair as [x id]; simpl. split.
  - intros (x' & id' & [= -> ->] & ? & ?). done.
  - intros [? ?]. eauto.
Qed.

(** ** What a call of [submitMetrics] is *)

Lemma submitMetrics_run s (p : MetricPayload) (ids : list string) w :
  length (series p) = length ids →
  submitMetrics s p ids w
  = processBatches (S (length (series p))) s (pairUp (series p) ids) 0 w.
Proof.
  intros Hlen. unfold submitMetrics, submitMetricsFuel.
  by rewrite bool_decide_true.
Qed.

Lemma submitMetrics_LoopRun s (p : MetricPayload) (ids : list string) w :
  length (series p) = length ids →
  LoopRun s (pairUp (series p) ids) 0 w (submitMetrics s p ids w).
Proof.
  intros Hlen. rewrite submitMetrics_run by done. apply processBatches_run.
Qed.

(** A call with a positive batch size never runs out of fuel. *)
Lemma submitMetrics_converges s (p : MetricPayload) (ids : list string) w :
  0 < batchSize s → (submitMetrics s p ids w).2 ≠ Diverge.
Proof.
  intros Hbs. destruct (decide (length (series p) = length ids)) as [Hlen|Hlen].
  - rewrite submitMetrics_run by done.
    apply processBatches_terminates; [done|]. rewrite length_pairUp. lia.
  - by rewrite submitMetrics_mismatch.
Qed.

(** ** Frame and monotonicity of the ledger files *)

Lemma files_afterFilter s paired i w : files (afterFilter s paired i w) = files w.
Proof. done. Qed.

Lemma deliverBatch_recorded_mono s new w res q x :
  deliverBatch s new w = res →
  recorded (files w) q x = true → recorded (files res.1) q x = true.
Proof.
  intros <- Hrec. destruct (deliverBatch_outcome s new w); simpl; try done.
  destruct (decide (path = q)) as [<-|Hne].
  - apply recorded_true in Hrec as (sent0 & Hs0 & Hin).
    apply recorded_true. exists sent'. split; [apply sentOf_insert|].
    subst sent'. apply elem_of_setSpread, elem_of_app. left. congruence.
  - unfold recorded. by rewrite sentOf_insert_ne.
Qed.

Lemma deliverBatch_frame s new w res q :
  deliverBatch s new w = res →
  q ≠ cacheFilePath (workflowCache s) →
  files res.1 !! q = files w !! q.
Proof.
  intros <- Hne. destruct (deliverBatch_outcome s new w); simpl; try done.
  by rewrite lookup_insert_ne.
Qed.

Lemma LoopRun_recorded_mono s paired i w res q x :
  LoopRun s paired i w res →
  recorded (files w) q x = true → recorded (files res.1) q x = true.
Proof.
  induction 1 as [i w Hi|i w|i w res Hi Hnew Hrun IH
                 |i w w' res Hi Hnew Hd Hrun IH|i w w' e Hi Hnew Hd];
    intros Hrec; simpl; try done.
  - by apply IH.
  - apply IH. by apply (deliverBatch_recorded_mono _ _ _ _ _ _ Hd).
  - by apply (deliverBatch_recorded_mono _ _ _ _ _ _ Hd).
Qed.

Lemma LoopRun_frame s paired i w res q :
  LoopRun s paired i w res →
  q ≠ cacheFilePath (workflowCache s) →
  files res.1 !! q = files w !! q.
Proof.
  induction 1 as [i w Hi|i w|i w res Hi Hnew Hrun IH
                 |i w w' res Hi Hnew Hd Hrun IH|i w w' e Hi Hnew Hd];
    intros Hne; simpl; try done.
  - by apply IH.
  - rewrite IH by done. by apply (deliverBatch_frame _ _ _ _ _ Hd).
  - by apply (deliverBatch_frame _ _ _ _ _ Hd).
Qed.

Lemma sentOf_Some fs path sent :
  sentOf fs path = Some sent ↔ fs !! path = Some (SentDoc sent).
Proof.
  unfold sentOf. destruct (fs !! path) as [[| | |sent']|]; split; congruence.
Qed.

Lemma markAsSent_recorded_mono c ids w q x :
  recorded (files w) q x = true →
  recorded (files (markAsSent c ids w).1) q x = true.
Proof.
  intros Hrec.
  destruct (sentOf (files w) (cacheFilePath c)) as [sent|] eqn:Hs.
  - rewrite (markAsSent_run _ _ _ sent) by done. simpl.
    destruct (decide (cacheFilePath c = q)) as [<-|Hne].
    + apply recorded_true in Hrec as (sent0 & Hs0 & Hin).
      apply recorded_true. eexists. split; [apply sentOf_insert|].
      apply elem_of_setSpread, elem_of_app. left. congruence.
    + unfold recorded. by rewrite sentOf_insert_ne.
  - by destruct (markAsSent_fails c ids w Hs) as [message ->].
Qed.

Lemma submitMetrics_recorded_mono s (p : MetricPayload) ids w q x :
  recorded (files w) q x = true →
  recorded (files (submitMetrics s p ids w).1) q x = true.
Proof.
  intros Hrec. destruct (decide (length (series p) = length ids)) as [Hlen|Hlen].
  - by apply (LoopRun_recorded_mono _ _ _ _ _ _ _ (submitMetrics_LoopRun s p ids w Hlen)).
  - by rewrite submitMetrics_mismatch.
Qed.

(** ** Windows *)

Lemma slice_take_drop {A} (l : list A) i n :
  slice l i (i + n) = take n (drop i l).
Proof. unfold slice. f_equal. lia. Qed.

Lemma slice_0 {A} (l : list A) n : slice l 0 n = take n l.
Proof. unfold slice. rewrite drop_0. f_equal. lia. Qed.

Lemma drop_slice {A} (l : list A) i n :
  drop i l = slice l i (i + n) ++ drop (i + n) l.
Proof. by rewrite slice_take_drop, <- drop_drop, take_drop. Qed.

Lemma slice_nonempty {A} (l : list A) i n :
  i < length l → 0 < n → slice l i (i + n) ≠ [].
Proof.
  intros Hi Hn Hnil. apply (f_equal length) in Hnil.
  rewrite slice_take_drop, length_take, length_drop in Hnil. simpl in Hnil. lia.
Qed.

Lemma brokenLedger_sentOf fs path : brokenLedger fs path ↔ sentOf fs path = None.
Proof.
  unfold brokenLedger, sentOf.
  destruct (fs !! path) as [[| | |sent]|]; intuition congruence.
Qed.

Lemma recorded_broken fs path id : sentOf fs path = None → recorded fs path id = false.
Proof. unfold recorded. by intros ->. Qed.

Lemma windowNew_broken s paired i w :
  sentOf (files w) (cacheFilePath (workflowCache s)) = None →
  windowNew s paired i w = slice paired i (i + batchSize s).
Proof.
  intros Hs. unfold windowNew, subBatch. apply filter_all.
  intros pair _. by apply recorded_broken.
Qed.

Lemma apiCalls_afterFilter s paired i w :
  apiCalls (trace (afterFilter s paired i w)) = apiCalls (trace w).
Proof.
  unfold afterFilter; simpl. by rewrite apiCalls_app, apiCalls_reads, app_nil_r.
Qed.

(** With a broken ledger file and a Transport that accepts, a window is
    submitted in full and then the ledger update throws. *)
Lemma deliverBatch_broken s new w :
  loggable {| series := payload <$> new |} = true →
  sentOf (files w) (cacheFilePath (workflowCache s)) = None →
  transportOk s (trace w) {| series := payload <$> new |} →
  ∃ message,
    deliverBatch s new w
    = (addTrace ([AuditLog (dryRun s) {| series := payload <$> new |}]
                   ++ apiEvents s {| series := payload <$> new |}
                   ++ [ReadFile (cacheFilePath (workflowCache s))]) w,
       Throw (JsError message)).
Proof.
  intros Hlog Hs Hok. pose proof (deliverBatch_outcome s new w) as H.
  inversion H; subst; unfold_lets;
    [congruence | congruence | destruct Hok; congruence | by eexists].
Qed.

(** ** After a call that returns, every identifier is stored *)

Lemma subBatch_nil_recorded fs path batch (pair : Pair) :
  subBatch fs path batch = [] → pair ∈ batch →
  recorded fs path (workflowId pair) = true.
Proof.
  intros Hnil Hin.
  destruct (recorded fs path (workflowId pair)) eqn:Hrec; [done|].
  by destruct (filter_nil_not_elem_of _ _ pair Hnil Hrec).
Qed.

Lemma elem_of_subBatch fs path batch (pair : Pair) :
  pair ∈ subBatch fs path batch ↔
  recorded fs path (workflowId pair) = false ∧ pair ∈ batch.
Proof.
  unfold subBatch.
  apply (list_elem_of_filter (λ pr, recorded fs path (workflowId pr) = false)).
Qed.

Lemma deliverBatch_marks s new w w' (pair : Pair) :
  deliverBatch s new w = (w', Normal tt) → pair ∈ new →
  recorded (files w') (cacheFilePath (workflowCache s)) (workflowId pair) = true.
Proof.
  intros Hd Hin. apply deliverBatch_normal in Hd as (sent & Hs & _ & Hf & _).
  apply recorded_true. eexists. rewrite Hf. split; [apply sentOf_insert|].
  apply elem_of_setSpread, elem_of_app. right. by apply list_elem_of_fmap_2.
Qed.

Lemma LoopRun_all_recorded s paired i w res (pair : Pair) :
  LoopRun s paired i w res →
  res.2 = Normal tt →
  pair ∈ drop i paired →
  recorded (files res.1) (cacheFilePath (workflowCache s)) (workflowId pair) = true.
Proof.
  induction 1 as [i w Hi|i w|i w res Hi Hnew Hrun IH
                 |i w w' res Hi Hnew Hd Hrun IH|i w w' e Hi Hnew Hd];
    intros Hres Hin; simpl in *; try done.
  - rewrite drop_ge in Hin by done. by apply elem_of_nil in Hin.
  - rewrite (drop_slice _ i (batchSize s)) in Hin.
    apply elem_of_app in Hin as [Hin|Hin]; [|by apply IH].
    apply (LoopRun_recorded_mono _ _ _ _ _ _ _ Hrun).
    rewrite files_afterFilter. by eapply subBatch_nil_recorded.
  - rewrite (drop_slice _ i (batchSize s)) in Hin.
    apply elem_of_app in Hin as [Hin|Hin]; [|by apply IH].
    apply (LoopRun_recorded_mono _ _ _ _ _ _ _ Hrun).
    destruct (recorded (files w) (cacheFilePath (workflowCache s)) (workflowId pair))
      eqn:Hrec.
    + by apply (deliverBatch_recorded_mono _ _ _ _ _ _ Hd).
    + apply (deliverBatch_marks _ _ _ _ _ Hd). by apply elem_of_subBatch.
Qed.

Lemma submitMetrics_all_recorded s (p : MetricPayload) ids w id :
  (submitMetrics s p ids w).2 = Normal tt → id ∈ ids →
  recorded (files (submitMetrics s p ids w).1) (cacheFilePath (workflowCache s)) id
  = true.
Proof.
  intros Hres Hin. destruct (decide (length (series p) = length ids)) as [Hlen|Hlen].
  - rewrite <- (pairUp_workflowId (series p) ids Hlen) in Hin.
    apply list_elem_of_fmap in Hin as (pair & -> & Hin).
    eapply LoopRun_all_recorded; [by apply submitMetrics_LoopRun|done|done].
  - by rewrite submitMetrics_mismatch in Hres.
Qed.

(** ** A dry run never calls the Transport *)

Lemma LoopRun_dry_no_api s paired i w res :
  LoopRun s paired i w res → dryRun s = true →
  apiCalls (trace res.1) = apiCalls (trace w).
Proof.
  induction 1 as [i w Hi|i w|i w res Hi Hnew Hrun IH
                 |i w w' res Hi Hnew Hd Hrun IH|i w w' e Hi Hnew Hd];
    intros Hdry; cbn [fst]; try done.
  - by rewrite IH, apiCalls_afterFilter.
  - rewrite IH by done.
    apply deliverBatch_normal in Hd as (sent & _ & _ & _ & ->).
    unfold apiEvents. rewrite Hdry, apiCalls_app, apiCalls_afterFilter. simpl.
    by rewrite app_nil_r.
  - apply deliverBatch_throw in Hd
      as [_ [(e0 & ? & _)|[(message & _ & _ & _ & ->)|(_ & _ & ->)]]];
      [congruence| |apply apiCalls_afterFilter].
    unfold apiEvents. rewrite Hdry, apiCalls_app, apiCalls_afterFilter. simpl.
    by rewrite app_nil_r.
Qed.

(** ** The four ledger files are distinct *)

Lemma append_inj_r (a b c : string) : a +:+ b = a +:+ c → b = c.
Proof. induction a as [|ch a IH]; simpl; [done|]. intros [= H]. auto. Qed.

Lemma join_inj_filename cwd dir f g :
  Path.join cwd dir f = Path.join cwd dir g → f = g.
Proof.
  unfold Path.join. intros H.
  by repeat apply append_inj_r in H.
Qed.

Lemma cacheFilename_modes env env' : cacheFilename true env ≠ cacheFilename false env'.
Proof. unfold cacheFilename. by repeat case_bool_decide. Qed.

Lemma newDatadogService_built proc options w w' s :
  newDatadogService proc options w = (w', Normal s) →
  cacheFilePath (workflowCache s)
  = Path.join (cwd proc) "cache" (cacheFilename (dryRun s) (NODE_ENV proc))
  ∧ dryRun s = default false (options ≫= opt_dryRun)
  ∧ batchSize s = default 10 (options ≫= opt_batchSize)
  ∧ metricsApi s = v2_MetricsApi proc.
Proof.
  unfold newDatadogService, bind.
  destruct (newWorkflowCache _ _ w) as [w1 [c| |]] eqn:Hc; try done.
  assert (cacheFilePath c = Path.join (cwd proc) "cache"
            (cacheFilename (default false (options ≫= opt_dryRun)) (NODE_ENV proc)))
    as Hpath.
  { destruct (files w !! Path.join (cwd proc) "cache"
        (cacheFilename (default false (options ≫= opt_dryRun)) (NODE_ENV proc)))
      eqn:Hf.
    - rewrite newWorkflowCache_existing in Hc by (by rewrite Hf). by inversion Hc.
    - rewrite newWorkflowCache_fresh in Hc by done. by inversion Hc. }
  destruct (falsy (DD_API_KEY proc)); [done|].
  unfold ret. intros [= <- <-]. simpl. done.
Qed.

Lemma submitMetrics_frame s (p : MetricPayload) ids w q :
  q ≠ cacheFilePath (workflowCache s) →
  files (submitMetrics s p ids w).1 !! q = files w !! q.
Proof.
  intros Hne. destruct (decide (length (series p) = length ids)) as [Hlen|Hlen].
  - by apply (LoopRun_frame _ _ _ _ _ _ (submitMetrics_LoopRun s p ids w Hlen)).
  - by rewrite submitMetrics_mismatch.
Qed.

Lemma submitMetrics_dry_no_api s (p : MetricPayload) ids w :
  dryRun s = true →
  apiCalls (trace (submitMetrics s p ids w).1) = apiCalls (trace w).
Proof.
  intros Hdry. destruct (decide (length (series p) = length ids)) as [Hlen|Hlen].
  - by apply (LoopRun_dry_no_api _ _ _ _ _ (submitMetrics_LoopRun s p ids w Hlen)).
  - by rewrite submitMetrics_mismatch.
Qed.

Lemma hasBeenSent_frame c id w w' :
  files w' !! cacheFilePath c = files w !! cacheFilePath c →
  (hasBeenSent c id w').2 = (hasBeenSent c id w).2.
Proof.
  intros Hf. rewrite !hasBeenSent_run. simpl. unfold recorded, sentOf.
  by rewrite Hf.
Qed.

(** ** A call on identifiers that are all stored only reads *)

Lemma elem_of_drop_add {A} (l : list A) i n x : x ∈ drop (i + n) l → x ∈ drop i l.
Proof. rewrite (drop_slice l i n), elem_of_app. auto. Qed.

Lemma elem_of_slice_drop {A} (l : list A) i n x :
  x ∈ slice l i (i + n) → x ∈ drop i l.
Proof. rewrite (drop_slice l i n), elem_of_app. auto. Qed.

Lemma windowNew_all_recorded s paired i w :
  (∀ pair, pair ∈ drop i paired →
     recorded (files w) (cacheFilePath (workflowCache s)) (workflowId pair) = true) →
  windowNew s paired i w = [].
Proof.
  intros Hall. unfold windowNew, subBatch. apply filter_none.
  intros pair Hin%elem_of_slice_drop. rewrite (Hall pair Hin). done.
Qed.

Lemma LoopRun_quiet s paired i w res :
  LoopRun s paired i w res →
  (∀ pair, pair ∈ drop i paired →
     recorded (files w) (cacheFilePath (workflowCache s)) (workflowId pair) = true) →
  files res.1 = files w
  ∧ (∃ n, trace res.1
          = trace w ++ replicate n (ReadFile (cacheFilePath (workflowCache s))))
  ∧ (∀ e, res.2 ≠ Throw e).
Proof.
  induction 1 as [i w Hi|i w|i w res Hi Hnew Hrun IH
                 |i w w' res Hi Hnew Hd Hrun IH|i w w' e Hi Hnew Hd];
    intros Hall; cbn [fst snd].
  - split_and!; [done|exists 0; by rewrite app_nil_r|done].
  - split_and!; [done|exists 0; by rewrite app_nil_r|done].
  - destruct IH as (Hf & [n Ht] & Hres).
    { intros pair Hin. rewrite files_afterFilter. eauto using elem_of_drop_add. }
    split_and!; [done| |done].
    eexists. rewrite Ht. unfold afterFilter; simpl.
    by rewrite <- app_assoc, <- replicate_add.
  - by rewrite windowNew_all_recorded in Hnew.
  - by rewrite windowNew_all_recorded in Hnew.
Qed.

(** ** Which sub-batches reach the Transport *)

Lemma deliverBatch_apiCalls s new w w' r :
  deliverBatch s new w = (w', r) →
  apiCalls (trace w')
  = apiCalls (trace w)
      ++ (if loggable (payloadOf new) then payloadOf <$> sentBatches s new else []).
Proof.
  intros Hd. change w' with (w', r).1. rewrite <- Hd. clear Hd.
  destruct (deliverBatch_outcome s new w) as [body Hlog|sent path body sent' Hlog Hs Hok
                                              |e body Hlog Hlive Hapi
                                              |message path body Hlog Hs Hok];
    unfold_lets; unfold payloadOf; rewrite Hlog; cbn [fst trace addTrace];
    [by rewrite app_nil_r|..];
    rewrite apiCalls_app; f_equal; unfold sentBatches, apiEvents.
  - by destruct (dryRun s).
  - by rewrite Hlive.
  - by destruct (dryRun s).
Qed.

Lemma invocationsOf_cons x (b : list Pair) batches :
  invocationsOf x (b :: batches)
  = (if decide (x ∈ workflowId <$> b) then 1 else 0) + invocationsOf x batches.
Proof.
  unfold invocationsOf. rewrite filter_cons. by destruct (decide _).
Qed.

Lemma invocationsOf_app x (bs1 bs2 : list (list Pair)) :
  invocationsOf x (bs1 ++ bs2) = invocationsOf x bs1 + invocationsOf x bs2.
Proof. unfold invocationsOf. by rewrite filter_app, length_app. Qed.

Lemma invocationsOf_sentBatches s x (new : list Pair) :
  invocationsOf x (sentBatches s new)
  = if dryRun s then 0 else if decide (x ∈ workflowId <$> new) then 1 else 0.
Proof.
  unfold sentBatches. destruct (dryRun s); [done|].
  rewrite invocationsOf_cons. unfold invocationsOf. simpl. lia.
Qed.

Lemma elem_of_windowNew_ids s paired i w x :
  x ∈ workflowId <$> windowNew s paired i w ↔
  recorded (files w) (cacheFilePath (workflowCache s)) x = false
  ∧ x ∈ workflowId <$> slice paired i (i + batchSize s).
Proof.
  unfold windowNew. rewrite !list_elem_of_fmap. split.
  - intros (pair & -> & [Hrec Hin]%elem_of_subBatch). eauto.
  - intros (Hrec & pair & -> & Hin). exists pair. split; [done|].
    by apply elem_of_subBatch.
Qed.

Lemma windowNew_sublist s paired i w : windowNew s paired i w `sublist_of` paired.
Proof.
  unfold windowNew, subBatch, slice.
  etrans; [apply sublist_filter|]. etrans; [apply sublist_take|]. apply sublist_drop.
Qed.

Lemma elem_of_ids_drop (paired : list Pair) i n x :
  x ∈ workflowId <$> drop i paired ↔
  x ∈ workflowId <$> slice paired i (i + n) ∨ x ∈ workflowId <$> drop (i + n) paired.
Proof. by rewrite (drop_slice paired i n), fmap_app, elem_of_app. Qed.

Lemma deliverBatch_recorded s new w w' x :
  deliverBatch s new w = (w', Normal tt) →
  recorded (files w') (cacheFilePath (workflowCache s)) x = true ↔
  recorded (files w) (cacheFilePath (workflowCache s)) x = true
  ∨ x ∈ workflowId <$> new.
Proof.
  intros (sent & Hs & _ & Hf & _)%deliverBatch_normal.
  rewrite !recorded_true, Hf, sentOf_insert, Hs. split.
  - intros (sent' & [= <-] & Hin%elem_of_setSpread%elem_of_app).
    destruct Hin; eauto.
  - intros [(sent' & [= <-] & Hin)|Hin]; eexists; (split; [done|]);
      apply elem_of_setSpread, elem_of_app; auto.
Qed.

(** Every run of the loop hands the Transport a list of sub-batches of the
    paired input in which a stored identifier never occurs, no identifier
    occurs twice, and, for a live run that returns, every identifier that
    was not stored occurs once. *)
Lemma LoopRun_invocations s paired i w res :
  LoopRun s paired i w res →
  let path := cacheFilePath (workflowCache s) in
  ∃ batches,
    apiCalls (trace res.1) = apiCalls (trace w) ++ (payloadOf <$> batches)
    ∧ Forall (λ batch, batch `sublist_of` paired) batches
    ∧ ∀ x,
        invocationsOf x batches ≤ 1
        ∧ (recorded (files w) path x = true → invocationsOf x batches = 0)
        ∧ (x ∉ workflowId <$> drop i paired → invocationsOf x batches = 0)
        ∧ (dryRun s = false → res.2 = Normal tt →
           recorded (files w) path x = false →
           x ∈ workflowId <$> drop i paired →
           invocationsOf x batches = 1).
Proof.
  intros Hrun path.
  induction Hrun as [i w Hi|i w|i w res Hi Hnew Hrun IH
                    |i w w' res Hi Hnew Hd Hrun IH|i w w' e Hi Hnew Hd];
    cbn [fst snd].
  - exists []. split_and!; [by rewrite app_nil_r|constructor|].
    intros x. split_and!; try done; [unfold invocationsOf; simpl; lia|].
    rewrite drop_ge by done. intros _ _ _ Hin. by apply elem_of_nil in Hin.
  - exists []. split_and!; [by rewrite app_nil_r|constructor|].
    intros x. split_and!; try done. unfold invocationsOf; simpl; lia.
  - destruct IH as (batches & Hcalls & Hsub & Hinv).
    exists batches. split_and!; [by rewrite Hcalls, apiCalls_afterFilter|done|].
    intros x. destruct (Hinv x) as (Hle & Hrec & Hout & Hone).
    rewrite files_afterFilter in Hrec, Hone.
    split_and!; [done|done| |].
    + intros Hnin. apply Hout. intros Hin. apply Hnin.
      apply (elem_of_ids_drop _ _ (batchSize s)). auto.
    + intros Hdry Hres Hx Hin. apply Hone; try done.
      apply (elem_of_ids_drop _ _ (batchSize s)) in Hin as [Hin|Hin]; [|done].
      assert (x ∈ workflowId <$> windowNew s paired i w) as Hin'
        by (by apply elem_of_windowNew_ids).
      rewrite Hnew in Hin'. by apply elem_of_nil in Hin'.
  - destruct IH as (batches & Hcalls & Hsub & Hinv).
    exists (sentBatches s (windowNew s paired i w) ++ batches).
    split_and!.
    + rewrite Hcalls, (deliverBatch_apiCalls _ _ _ _ _ Hd).
      rewrite (deliverBatch_normal_loggable _ _ _ _ Hd).
      by rewrite apiCalls_afterFilter, fmap_app, app_assoc.
    + apply Forall_app. split; [|done].
      unfold sentBatches. destruct (dryRun s); repeat constructor.
      apply windowNew_sublist.
    + intros x. destruct (Hinv x) as (Hle & Hrec & Hout & Hone).
      pose proof (deliverBatch_recorded _ _ _ _ x Hd) as Hrec'.
      rewrite files_afterFilter in Hrec'.
      pose proof (elem_of_windowNew_ids s paired i w x) as Hnew'.
      pose proof (elem_of_ids_drop paired i (batchSize s) x) as Hdrop.
      rewrite invocationsOf_app, invocationsOf_sentBatches.
      fold path in Hrec', Hnew'.
      destruct (recorded (files w') path x) eqn:Hw';
        destruct (recorded (files w) path x) eqn:Hw;
        destruct (dryRun s); repeat case_decide;
        split_and!; intros; try lia; try tauto; try (rewrite Hrec by done; lia);
        try (rewrite Hout by tauto; lia); try (rewrite Hone by tauto; lia);
        try (exfalso; tauto); try (exfalso; intuition congruence).
  - pose proof (deliverBatch_apiCalls _ _ _ _ _ Hd) as Hcalls.
    rewrite apiCalls_afterFilter in Hcalls.
    destruct (loggable (payloadOf (windowNew s paired i w))).
    2: { exists []. split_and!; [done|constructor|].
         intros x. split_and!; try done. unfold invocationsOf; simpl; lia. }
    exists (sentBatches s (windowNew s paired i w)).
    split_and!.
    + done.
    + unfold sentBatches. destruct (dryRun s); repeat constructor.
      apply windowNew_sublist.
    + intros x.
      pose proof (elem_of_windowNew_ids s paired i w x) as Hnew'.
      pose proof (elem_of_ids_drop paired i (batchSize s) x) as Hdrop.
      rewrite invocationsOf_sentBatches. fold path in Hnew'.
      destruct (recorded (files w) path x) eqn:Hw;
        destruct (dryRun s); repeat case_decide;
        split_and!; intros; try lia; try done; try (exfalso; tauto);
        try (exfalso; intuition congruence).
Qed.

(** A call that has returned returns again, and the second time it only
    reads the ledger. *)
Lemma submitMetrics_again s (p : MetricPayload) ids w w1 :
  submitMetrics s p ids w = (w1, Normal tt) →
  ∃ w2 n,
    submitMetrics s p ids w1 = (w2, Normal tt)
    ∧ files w2 = files w1
    ∧ trace w2 = trace w1 ++ replicate n (ReadFile (cacheFilePath (workflowCache s))).
Proof.
  intros Hfirst.
  destruct (decide (length (series p) = length ids)) as [Hlen|Hlen];
    [|by rewrite submitMetrics_mismatch in Hfirst].
  pose proof (submitMetrics_LoopRun s p ids w1 Hlen) as Hrun.
  apply LoopRun_quiet in Hrun as (Hf & [n Ht] & Hres).
  2: { intros pair Hin. rewrite drop_0 in Hin.
       pose proof (submitMetrics_LoopRun s p ids w Hlen) as Hrun1.
       rewrite Hfirst in Hrun1.
       by apply (LoopRun_all_recorded _ _ _ _ _ pair Hrun1). }
  assert ((submitMetrics s p ids w1).2 ≠ Diverge) as Hconv.
  { destruct (decide (0 < batchSize s)) as [Hbs|Hbs];
      [by apply submitMetrics_converges|].
    destruct (series p) as [|x ss] eqn:Hss.
    - rewrite submitMetrics_run, Hss by (by rewrite Hss).
      by rewrite processBatches_done by (rewrite length_pairUp; simpl; lia).
    - exfalso. rewrite submitMetrics_run in Hfirst by (by rewrite Hss).
      pose proof (processBatches_zero_diverges (S (length (series p))) s
                    (pairUp (series p) ids) 0 w) as Hdiv.
      rewrite Hfirst in Hdiv. rewrite length_pairUp, Hss in Hdiv.
      simpl in Hdiv. discriminate Hdiv; lia. }
  destruct (submitMetrics s p ids w1) as [w2 [[]|e|]]; simpl in *.
  - by exists w2, n.
  - by destruct (Hres e).
  - done.
Qed.

(** ** A rejected Transport call ends the call *)

Lemma rejected_not_read body e n path :
  ApiSubmit body (Some e) ∉ replicate n (ReadFile path).
Proof. by intros [? _]%elem_of_replicate. Qed.

Lemma ids_slice_take (paired : list Pair) i n j x :
  i + n ≤ j →
  x ∈ workflowId <$> slice paired i (i + n) → x ∈ workflowId <$> take j paired.
Proof.
  intros Hle. rewrite !list_elem_of_fmap. intros (pair & -> & Hin).
  exists pair. split; [done|].
  rewrite slice_take_drop in Hin.
  apply list_elem_of_lookup in Hin as [k Hk].
  apply lookup_take_Some in Hk as [Hk Hkn]. rewrite lookup_drop in Hk.
  apply list_elem_of_lookup. exists (i + k).
  rewrite lookup_take_lt by lia. done.
Qed.

(** Splits the membership of an event in a concrete stretch of trace. *)
Ltac event_cases Hin :=
  unfold apiEvents in Hin;
  repeat (rewrite elem_of_app in Hin || rewrite elem_of_cons in Hin
          || rewrite elem_of_nil in Hin);
  destruct_or? Hin; try done; try (by apply rejected_not_read in Hin).

Lemma LoopRun_rejected s paired i w res :
  LoopRun s paired i w res →
  let path := cacheFilePath (workflowCache s) in
  ∃ t,
    trace res.1 = trace w ++ t
    ∧ ∀ body e,
        ApiSubmit body (Some e) ∈ t →
        (∃ t', t = t' ++ [ApiSubmit body (Some e)])
        ∧ res.2 = Throw (propagated e)
        ∧ ∃ n,
            i + n * batchSize s < length paired
            ∧ body = payloadOf (subBatch (files res.1) path
                                  (slice paired (i + n * batchSize s)
                                     (i + n * batchSize s + batchSize s)))
            ∧ ∀ x, recorded (files res.1) path x = true →
                   recorded (files w) path x = true
                   ∨ x ∈ workflowId <$> take (i + n * batchSize s) paired.
Proof.
  intros Hrun path.
  induction Hrun as [i w Hi|i w|i w res Hi Hnew Hrun IH
                    |i w w' res Hi Hnew Hd Hrun IH|i w w' e0 Hi Hnew Hd];
    cbn [fst snd].
  - exists []. split; [by rewrite app_nil_r|]. by intros body e ?%elem_of_nil.
  - exists []. split; [by rewrite app_nil_r|]. by intros body e ?%elem_of_nil.
  - destruct IH as (t & Ht & IH). eexists. split.
    { rewrite Ht. unfold afterFilter; simpl. by rewrite <- app_assoc. }
    intros body e Hin. event_cases Hin.
    destruct (IH body e Hin) as ([t' ->] & Hres & n & Hlt & Hbody & Hrec).
    split_and!; [eexists; by rewrite app_assoc|done|].
    exists (S n). replace (i + S n * batchSize s) with (i + batchSize s + n * batchSize s)
      by lia. split_and!; try done.
  - destruct IH as (t & Ht & IH).
    pose proof (λ x, deliverBatch_recorded _ _ _ _ x Hd) as Hrec'.
    apply deliverBatch_normal in Hd as (sent & Hs & _ & _ & Htr).
    eexists. split.
    { rewrite Ht, Htr. unfold afterFilter; simpl. rewrite <- !app_assoc. reflexivity. }
    intros body e Hin. unfold apiEvents in Hin. destruct (dryRun s); event_cases Hin.
    all: destruct (IH body e Hin) as ([t' ->] & Hres & n & Hlt & Hbody & Hrec).
    all: split_and!; [eexists; by rewrite ?app_comm_cons, !app_assoc|done|].
    all: exists (S n).
    all: replace (i + S n * batchSize s) with (i + batchSize s + n * batchSize s) by lia.
    all: split_and!; try done.
    all: intros x Hx; destruct (Hrec x Hx) as [Hw'|Hearlier]; [|by right].
    all: apply Hrec' in Hw' as [Hw|Hnewx]; [by left|right].
    all: apply elem_of_windowNew_ids in Hnewx as [_ Hslice].
    all: eapply ids_slice_take; [|exact Hslice]; lia.
  - apply deliverBatch_throw in Hd
      as [Hf [(e1 & Hlive & Hapi & -> & Htr)
             |[(message & Hs & Hok & -> & Htr)|(_ & _ & ->)]]].
    3: { eexists. split; [reflexivity|].
         intros body e Hin. event_cases Hin. }
    + eexists. split.
      { rewrite Htr. unfold afterFilter; simpl. rewrite <- !app_assoc. reflexivity. }
      intros body e Hin. event_cases Hin. injection Hin as -> ->.
      split_and!; [|done|].
      * eexists (_ ++ [_]). by rewrite <- app_assoc.
      * exists 0. rewrite Nat.add_0_r. split_and!; [done| |].
        -- by rewrite Hf, files_afterFilter.
        -- intros x Hx. left. by rewrite Hf, files_afterFilter in Hx.
    + eexists. split.
      { rewrite Htr. unfold afterFilter; simpl. rewrite <- !app_assoc. reflexivity. }
      intros body e Hin. unfold apiEvents in Hin. destruct (dryRun s); event_cases Hin.
Qed.

(** ** Duplicates inside one window *)

Lemma LoopRun_trace s paired i w res :
  LoopRun s paired i w res → ∃ t, trace res.1 = trace w ++ t.
Proof.
  intros Hrun. destruct (LoopRun_rejected _ _ _ _ _ Hrun) as (t & Ht & _). eauto.
Qed.

Lemma sublist_two {A} (l : list A) a b x y :
  a < b → l !! a = Some x → l !! b = Some y → [x; y] `sublist_of` l.
Proof.
  intros Hab Ha Hb. rewrite <- (take_drop_middle l a x Ha).
  apply sublist_inserts_l, sublist_skip, singleton_sublist_l.
  apply list_elem_of_lookup. exists (b - S a).
  rewrite lookup_drop. by replace (S a + (b - S a)) with b by lia.
Qed.

Lemma sublist_filter_mono {A} (P : A → Prop) `{!∀ x, Decision (P x)} (l1 l2 : list A) :
  l1 `sublist_of` l2 → filter P l1 `sublist_of` filter P l2.
Proof.
  induction 1 as [|x l1 l2 _ IH|x l1 l2 _ IH]; [constructor| |].
  - rewrite !filter_cons. destruct (decide (P x)); [by constructor|done].
  - rewrite filter_cons. destruct (decide (P x)); [by constructor|done].
Qed.

Lemma sublist_fmap_mono {A B} (f : A → B) (l1 l2 : list A) :
  l1 `sublist_of` l2 → f <$> l1 `sublist_of` f <$> l2.
Proof. induction 1; simpl; by constructor. Qed.

Lemma slice_lookup {A} (l : list A) i n j x :
  i ≤ j → j < i + n → l !! j = Some x → slice l i (i + n) !! (j - i) = Some x.
Proof.
  intros Hij Hjn Hj. rewrite slice_take_drop, lookup_take_lt, lookup_drop by lia.
  by replace (i + (j - i)) with j by lia.
Qed.

Lemma windowNew_duplicates s paired i j k w (pj pk : Pair) :
  i ≤ j → j < k → k < i + batchSize s →
  paired !! j = Some pj → paired !! k = Some pk →
  workflowId pj = workflowId pk →
  recorded (files w) (cacheFilePath (workflowCache s)) (workflowId pj) = false →
  [pj; pk] `sublist_of` windowNew s paired i w.
Proof.
  intros Hij Hjk Hk Hpj Hpk Hid Hrec. unfold windowNew, subBatch.
  set (P := λ pair : Pair,
         recorded (files w) (cacheFilePath (workflowCache s)) (workflowId pair) = false).
  assert ([pj; pk] = filter P [pj; pk]) as ->.
  { rewrite !filter_cons, filter_nil.
    rewrite !decide_True; [done|by unfold P; rewrite <- Hid|done]. }
  apply sublist_filter_mono.
  apply (sublist_two _ (j - i) (k - i)); [lia| |]; apply slice_lookup; try done; lia.
Qed.

(** In live mode the delivery of a sub-batch whose dates are valid starts
    with its audit record and its Transport call, whatever happens next. *)
Lemma deliverBatch_live_starts s new w res :
  dryRun s = false →
  loggable (payloadOf new) = true →
  deliverBatch s new w = res →
  ∃ rest,
    trace res.1
    = trace w ++ [AuditLog false (payloadOf new);
                  ApiSubmit (payloadOf new)
                    (metricsApi s (apiCalls (trace w)) (payloadOf new))] ++ rest.
Proof.
  intros Hlive Hlog <-.
  destruct (deliverBatch_outcome s new w) as [body Hno
                                              |sent path body sent' _ Hs Hok
                                              |e body _ _ Hapi
                                              |message path body _ Hs Hok];
    unfold_lets; cbn [fst trace addTrace]; unfold apiEvents, payloadOf in *;
    rewrite ?Hlive.
  - congruence.
  - destruct Hok as [Hok|Hok]; [congruence|]. rewrite Hok. by eexists.
  - rewrite Hapi. by exists [].
  - destruct Hok as [Hok|Hok]; [congruence|]. rewrite Hok. by eexists.
Qed.

(** A sub-batch is made of pairs of its window. *)
Lemma loggable_windowNew s paired i w :
  Forall (λ pair, formatsDates (payload pair) = true)
    (slice paired i (i + batchSize s)) →
  loggable (payloadOf (windowNew s paired i w)) = true.
Proof.
  intros Hall. apply loggable_Forall. unfold payloadOf; simpl.
  apply Forall_fmap, Forall_forall. intros pair Hin.
  apply elem_of_subBatch in Hin as [_ Hin].
  rewrite Forall_forall in Hall. by apply Hall.
Qed.

Lemma processBatches_duplicates fuel s paired i j k w (pj pk : Pair) :
  dryRun s = false →
  Forall (λ pair, formatsDates (payload pair) = true)
    (slice paired i (i + batchSize s)) →
  i ≤ j → j < k → k < i + batchSize s →
  paired !! j = Some pj → paired !! k = Some pk →
  workflowId pj = workflowId pk →
  recorded (files w) (cacheFilePath (workflowCache s)) (workflowId pj) = false →
  ∃ body rest,
    trace (processBatches (S fuel) s paired i w).1
    = trace (afterFilter s paired i w)
        ++ [AuditLog false body;
            ApiSubmit body (metricsApi s (apiCalls (trace w)) body)] ++ rest
    ∧ [payload pj; payload pk] `sublist_of` series body.
Proof.
  intros Hlive Hdates Hij Hjk Hk Hpj Hpk Hid Hrec.
  pose proof (windowNew_duplicates s paired i j k w pj pk
                Hij Hjk Hk Hpj Hpk Hid Hrec) as Hsub.
  assert (i < length paired) as Hi.
  { apply lookup_lt_Some in Hpj. lia. }
  exists (payloadOf (windowNew s paired i w)).
  rewrite processBatches_unfold by done.
  rewrite bool_decide_false.
  2: { intros Hnil%nil_length_inv. rewrite Hnil in Hsub.
       by apply sublist_nil_r in Hsub. }
  destruct (deliverBatch_live_starts s (windowNew s paired i w)
              (afterFilter s paired i w) _ Hlive
              (loggable_windowNew s paired i w Hdates) eq_refl) as [rest Hstart].
  rewrite apiCalls_afterFilter in Hstart.
  unfold bind.
  destruct (deliverBatch s (windowNew s paired i w) (afterFilter s paired i w))
    as [w' [[]|e|]] eqn:Hd; cbn [fst] in *.
  - destruct (LoopRun_trace _ _ _ _ _
                (processBatches_run fuel s paired (i + batchSize s) w')) as [t Ht].
    exists (rest ++ t). split; [|by apply (sublist_fmap_mono payload) in Hsub].
    rewrite Ht, Hstart. by rewrite <- !app_assoc.
  - exists rest. split; [done|by apply (sublist_fmap_mono payload) in Hsub].
  - by apply deliverBatch_converges in Hd.
Qed.

(** ** The loop refines the specification's window-by-window delivery *)

Lemma windowsFuel_enough {A} size fuel1 fuel2 (l : list A) :
  0 < size → length l ≤ fuel1 → length l ≤ fuel2 →
  windowsFuel fuel1 size l = windowsFuel fuel2 size l.
Proof.
  intros Hsize. revert fuel2 l.
  induction fuel1 as [|fuel1 IH]; intros fuel2 l H1 H2.
  - destruct l; [by destruct fuel2|simpl in H1; lia].
  - destruct l as [|x l]; [by destruct fuel2|].
    destruct fuel2 as [|fuel2]; [simpl in H2; lia|].
    cbn [windowsFuel]. f_equal.
    apply IH; rewrite length_drop; simpl in *; lia.
Qed.

Lemma windows_nil {A} size : windows size (@nil A) = [].
Proof. done. Qed.

Lemma windows_unfold {A} size (l : list A) :
  0 < size → l ≠ [] →
  windows size l = take size l :: windows size (drop size l).
Proof.
  intros Hsize Hne. unfold windows. destruct l as [|x l]; [done|].
  cbn [length windowsFuel]. f_equal.
  apply windowsFuel_enough; [done| |done].
  rewrite length_drop. simpl. lia.
Qed.

Lemma windows_from {A} size (l : list A) i :
  0 < size → i < length l →
  windows size (drop i l)
  = slice l i (i + size) :: windows size (drop (i + size) l).
Proof.
  intros Hsize Hi. rewrite windows_unfold; [|done|].
  - by rewrite slice_take_drop, drop_drop.
  - intros Hnil%(f_equal length). rewrite length_drop in Hnil. simpl in Hnil. lia.
Qed.

Lemma windows_concat {A} size (l : list A) :
  0 < size → concat (windows size l) = l.
Proof.
  intros Hsize. remember (length l) as n eqn:Hn. revert l Hn.
  induction (lt_wf n) as [n _ IH]; intros l ->.
  destruct l as [|x l]; [done|].
  rewrite windows_unfold by done. cbn [concat].
  rewrite (IH (length (drop size (x :: l)))); [apply take_drop| |done].
  rewrite length_drop. simpl. lia.
Qed.

Lemma windows_sizes {A} size (l : list A) :
  0 < size → Forall (λ window, 0 < length window ≤ size) (windows size l).
Proof.
  intros Hsize. remember (length l) as n eqn:Hn. revert l Hn.
  induction (lt_wf n) as [n _ IH]; intros l ->.
  destruct l as [|x l]; [constructor|].
  rewrite windows_unfold by done. constructor.
  - rewrite length_take. simpl. lia.
  - apply (IH (length (drop size (x :: l)))); [|done].
    rewrite length_drop. simpl. lia.
Qed.

Lemma spec_filter_windowNew s paired i w (sent : list string) :
  (∀ x, x ∈ sent ↔ recorded (files w) (cacheFilePath (workflowCache s)) x = true) →
  filter (λ pair : Pair, workflowId pair ∉ sent) (slice paired i (i + batchSize s))
  = windowNew s paired i w.
Proof.
  intros Hsent. unfold windowNew, subBatch. apply list_filter_iff.
  intros pair. rewrite Hsent. by destruct (recorded _ _ _).
Qed.

Lemma spec_deliveries_cons sent (window : list Pair) ws pr sub :
  filter (λ pair : Pair, workflowId pair ∉ sent) window = pr :: sub →
  spec_deliveries sent (window :: ws)
  = payloadOf (pr :: sub)
      :: spec_deliveries (sent ++ (workflowId <$> pr :: sub)) ws.
Proof. intros H. cbn [spec_deliveries]. by rewrite H. Qed.

(** Whatever its completion, a live run sends a prefix of the deliveries
    the specification describes, and all of them when it returns. *)
Lemma LoopRun_deliveries s paired i w res :
  LoopRun s paired i w res →
  dryRun s = false → 0 < batchSize s →
  ∀ sent : list string,
    (∀ x, x ∈ sent ↔ recorded (files w) (cacheFilePath (workflowCache s)) x = true) →
    ∃ calls,
      apiCalls (trace res.1) = apiCalls (trace w) ++ calls
      ∧ calls `prefix_of`
          spec_deliveries sent (windows (batchSize s) (drop i paired))
      ∧ (res.2 = Normal tt →
         calls = spec_deliveries sent (windows (batchSize s) (drop i paired))).
Proof.
  intros Hrun Hlive Hsize.
  induction Hrun as [i w Hi|i w|i w res Hi Hnew Hrun IH
                    |i w w' res Hi Hnew Hd Hrun IH|i w w' e Hi Hnew Hd];
    intros sent Hsent; cbn [fst snd] in *.
  - exists []. rewrite drop_ge, windows_nil, app_nil_r by done. done.
  - exists []. rewrite app_nil_r. split_and!; [done|apply prefix_nil|done].
  - destruct (IH sent) as (calls & Hcalls & Hpre & Hall); [done|].
    exists calls. rewrite windows_from by done. cbn [spec_deliveries].
    rewrite (spec_filter_windowNew s paired i w sent Hsent), Hnew.
    by rewrite Hcalls, apiCalls_afterFilter.
  - destruct (IH (sent ++ (workflowId <$> windowNew s paired i w)))
      as (calls & Hcalls & Hpre & Hall).
    { intros x. rewrite elem_of_app, Hsent.
      by rewrite (deliverBatch_recorded _ _ _ _ x Hd), files_afterFilter. }
    exists (payloadOf (windowNew s paired i w) :: calls).
    rewrite windows_from by done.
    destruct (windowNew s paired i w) as [|pr sub] eqn:Hw; [done|].
    rewrite (spec_deliveries_cons sent _ _ pr sub)
      by (by rewrite (spec_filter_windowNew s paired i w sent Hsent)).
    split_and!.
    + rewrite Hcalls, (deliverBatch_apiCalls _ _ _ _ _ Hd), apiCalls_afterFilter.
      rewrite (deliverBatch_normal_loggable _ _ _ _ Hd).
      unfold sentBatches. rewrite Hlive. by rewrite <- app_assoc.
    + by apply prefix_cons.
    + intros Hres. f_equal. by apply Hall.
  - pose proof (deliverBatch_apiCalls _ _ _ _ _ Hd) as Hcalls.
    rewrite apiCalls_afterFilter in Hcalls.
    destruct (loggable (payloadOf (windowNew s paired i w))).
    2: { exists []. split_and!; [done|apply prefix_nil|done]. }
    exists [payloadOf (windowNew s paired i w)].
    rewrite windows_from by done.
    destruct (windowNew s paired i w) as [|pr sub] eqn:Hw; [done|].
    rewrite (spec_deliveries_cons sent _ _ pr sub)
      by (by rewrite (spec_filter_windowNew s paired i w sent Hsent)).
    split_and!; [|apply prefix_cons, prefix_nil|done].
    rewrite Hcalls. unfold sentBatches. by rewrite Hlive.
Qed.

(** ** A call on a well-formed ledger with an accepting Transport returns *)

Lemma loggable_sublist (l paired : list Pair) :
  l `sublist_of` paired →
  Forall (λ pair, formatsDates (payload pair) = true) paired →
  loggable (payloadOf l) = true.
Proof.
  intros Hsub Hall. apply loggable_Forall. unfold payloadOf; simpl.
  apply Forall_fmap, Forall_forall. intros pair Hin.
  rewrite Forall_forall in Hall. apply Hall.
  by eapply elem_of_sublist.
Qed.

Lemma LoopRun_no_throw s paired i w res :
  LoopRun s paired i w res →
  Forall (λ pair, formatsDates (payload pair) = true) paired →
  dryRun s = true ∨ accepting (metricsApi s) →
  is_Some (sentOf (files w) (cacheFilePath (workflowCache s))) →
  ∀ e, res.2 ≠ Throw e.
Proof.
  intros Hrun Hdates Hok.
  induction Hrun as [i w Hi|i w|i w res Hi Hnew Hrun IH
                    |i w w' res Hi Hnew Hd Hrun IH|i w w' e0 Hi Hnew Hd];
    intros Hs e; cbn [fst snd] in *; try done.
  - by apply IH.
  - apply IH. apply deliverBatch_normal in Hd as (sent & _ & _ & -> & _).
    by rewrite sentOf_insert.
  - apply deliverBatch_throw_loggable in Hd
      as [(e1 & Hlive & Hapi & _)|(message & Hnone & _)].
    + destruct Hok as [Hdry|Hacc]; [congruence|]. by rewrite Hacc in Hapi.
    + rewrite files_afterFilter in Hnone. rewrite Hnone in Hs. by destruct Hs.
    + eapply loggable_sublist; [apply windowNew_sublist|done].
Qed.

Lemma Forall_payload (l : list Pair) :
  Forall (λ m, formatsDates m = true) (payload <$> l) →
  Forall (λ pair, formatsDates (payload pair) = true) l.
Proof. intros H. by apply Forall_fmap in H. Qed.

Lemma pairUp_dates (ss : list Series) (ids : list string) :
  length ss = length ids →
  Forall (λ m, formatsDates m = true) ss →
  Forall (λ pair, formatsDates (payload pair) = true) (pairUp ss ids).
Proof.
  intros Hlen Hall. rewrite <- (pairUp_payload ss ids Hlen) in Hall.
  by apply Forall_fmap in Hall.
Qed.

Lemma submitMetrics_returns s (p : MetricPayload) ids w :
  0 < batchSize s →
  length (series p) = length ids →
  loggable p = true →
  dryRun s = true ∨ accepting (metricsApi s) →
  is_Some (sentOf (files w) (cacheFilePath (workflowCache s))) →
  (submitMetrics s p ids w).2 = Normal tt.
Proof.
  intros Hsize Hlen Hlog%loggable_Forall Hok Hs.
  pose proof (submitMetrics_converges s p ids w Hsize) as Hconv.
  pose proof (LoopRun_no_throw _ _ _ _ _ (submitMetrics_LoopRun s p ids w Hlen)
                (pairUp_dates _ _ Hlen Hlog) Hok Hs)
    as Hthrow.
  destruct (submitMetrics s p ids w) as [w' [[]|e|]]; simpl in *;
    [done|by destruct (Hthrow e)|done].
Qed.

(** ** The points a returning call submits, in closed form *)

Lemma pointsDueFrom_app size sent ids j (l1 l2 : list Pair) :
  pointsDueFrom size sent ids j (l1 ++ l2)
  = pointsDueFrom size sent ids j l1
      ++ pointsDueFrom size sent ids (j + length l1) l2.
Proof.
  revert j. induction l1 as [|pair l1 IH]; intros j; simpl.
  - by rewrite Nat.add_0_r.
  - rewrite IH, <- app_assoc. by replace (S j + length l1) with (j + S (length l1)) by lia.
Qed.

Lemma window_start size n o : o < size → (n * size + o) / size * size = n * size.
Proof.
  intros Ho. rewrite Nat.div_add_l by lia. rewrite Nat.div_small by done. lia.
Qed.

Lemma pointsDueFrom_window size sent0 ids (sent : list string) n o (l : list Pair) :
  o + length l ≤ size →
  (∀ x, x ∈ sent ↔ x ∈ sent0 ∨ x ∈ take (n * size) ids) →
  pointsDueFrom size sent0 ids (n * size + o) l
  = payload <$> filter (λ pair, workflowId pair ∉ sent) l.
Proof.
  intros Hlen Hsent. revert o Hlen.
  induction l as [|pair l IH]; intros o Hlen; [done|]. simpl in Hlen.
  cbn [pointsDueFrom]. rewrite window_start by lia.
  replace (S (n * size + o)) with (n * size + S o) by lia.
  rewrite IH by lia. rewrite filter_cons.
  destruct (decide (workflowId pair ∉ sent)) as [Hout|Hin].
  - rewrite decide_True; [done|]. rewrite Hsent in Hout. tauto.
  - rewrite decide_False; [done|]. rewrite Hsent in Hin. tauto.
Qed.

Lemma elem_of_take_add (paired : list Pair) i n x :
  x ∈ take (i + n) (workflowId <$> paired) ↔
  x ∈ take i (workflowId <$> paired) ∨ x ∈ workflowId <$> slice paired i (i + n).
Proof.
  rewrite <- take_take_drop, elem_of_app.
  by rewrite slice_take_drop, fmap_take, fmap_drop.
Qed.

Lemma submitted_spec_deliveries size sent0 (sent : list string) (paired : list Pair) n :
  0 < size →
  (∀ x, x ∈ sent ↔ x ∈ sent0 ∨ x ∈ take (n * size) (workflowId <$> paired)) →
  concat (series <$> spec_deliveries sent (windows size (drop (n * size) paired)))
  = pointsDueFrom size sent0 (workflowId <$> paired) (n * size) (drop (n * size) paired).
Proof.
  intros Hsize. remember (length paired - n * size) as k eqn:Hk.
  revert n sent Hk. induction (lt_wf k) as [k _ IH]; intros n sent -> Hsent.
  destruct (decide (n * size < length paired)) as [Hi|Hi];
    [|by rewrite drop_ge by lia].
  rewrite windows_from by done.
  rewrite (drop_slice paired (n * size) size) at 1.
  rewrite pointsDueFrom_app.
  pose proof (pointsDueFrom_window size sent0 (workflowId <$> paired) sent n 0
                (slice paired (n * size) (n * size + size))) as Hwin.
  rewrite Nat.add_0_r in Hwin. rewrite Hwin; [|simpl|done]; clear Hwin.
  2: { rewrite slice_take_drop, length_take. lia. }
  assert (pointsDueFrom size sent0 (workflowId <$> paired)
            (n * size + length (slice paired (n * size) (n * size + size)))
            (drop (n * size + size) paired)
          = pointsDueFrom size sent0 (workflowId <$> paired)
              (S n * size) (drop (S n * size) paired)) as ->.
  { replace (S n * size) with (n * size + size) by lia.
    destruct (decide (n * size + size ≤ length paired)) as [Hfull|Hshort].
    - rewrite slice_take_drop, length_take, length_drop.
      by rewrite Nat.min_l by lia.
    - by rewrite !drop_ge by lia. }
  set (sub := filter (λ pair : Pair, workflowId pair ∉ sent)
                (slice paired (n * size) (n * size + size))).
  assert (∀ x, x ∈ sent ++ (workflowId <$> sub)
               ↔ x ∈ sent0 ∨ x ∈ take (S n * size) (workflowId <$> paired))
    as Hnext.
  { intros x. replace (S n * size) with (n * size + size) by lia.
    rewrite elem_of_app, elem_of_take_add, Hsent.
    subst sub. rewrite !list_elem_of_fmap.
    setoid_rewrite list_elem_of_filter. split.
    - intros [[?|?]|(pair & -> & _ & Hin)]; eauto.
    - intros [?|[?|(pair & -> & Hin)]]; auto.
      destruct (decide (workflowId pair ∈ sent)) as [Hs|Hs]; [|by eauto 6].
      apply Hsent in Hs. auto. }
  cbn [spec_deliveries]. fold sub.
  replace (n * size + size) with (S n * size) by lia.
  clearbody sub. destruct sub as [|pr sub].
  - rewrite (IH (length paired - S n * size)); [done|lia|done|].
    intros x. rewrite <- Hnext. simpl. by rewrite app_nil_r.
  - rewrite fmap_cons. cbn [concat]. f_equal.
    apply (IH (length paired - S n * size)); [lia|done|done].
Qed.

Lemma storedIds_recorded fs path x :
  x ∈ storedIds fs path ↔ recorded fs path x = true.
Proof.
  unfold storedIds. rewrite recorded_true.
  destruct (sentOf fs path) as [sent|]; simpl.
  - split; [eauto|]. by intros (? & [= <-] & ?).
  - rewrite elem_of_nil. split; [done|]. by intros (? & ? & ?).
Qed.

Lemma submitMetrics_deliveries s (p : MetricPayload) ids w :
  dryRun s = false →
  0 < batchSize s →
  length (series p) = length ids →
  let res := submitMetrics s p ids w in
  let due := spec_deliveries (storedIds (files w) (cacheFilePath (workflowCache s)))
               (windows (batchSize s) (pairUp (series p) ids)) in
  ∃ calls,
    apiCalls (trace res.1) = apiCalls (trace w) ++ calls
    ∧ calls `prefix_of` due
    ∧ (res.2 = Normal tt → calls = due).
Proof.
  intros Hlive Hsize Hlen res due. subst res due.
  rewrite <- (drop_0 (pairUp (series p) ids)).
  apply (LoopRun_deliveries _ _ _ _ _ (submitMetrics_LoopRun s p ids w Hlen)
           Hlive Hsize).
  intros x. apply storedIds_recorded.
Qed.

Lemma concat_fmap_prefix {A B} (f : A → list B) (l1 l2 : list A) :
  l1 `prefix_of` l2 → concat (f <$> l1) `prefix_of` concat (f <$> l2).
Proof. intros [k ->]. rewrite fmap_app, concat_app. by eexists. Qed.

Lemma submitMetrics_points s (p : MetricPayload) ids w :
  dryRun s = false →
  0 < batchSize s →
  length (series p) = length ids →
  let res := submitMetrics s p ids w in
  let due := pointsDueFrom (batchSize s)
               (storedIds (files w) (cacheFilePath (workflowCache s)))
               ids 0 (pairUp (series p) ids) in
  ∃ points,
    submittedPoints (trace res.1) = submittedPoints (trace w) ++ points
    ∧ points `prefix_of` due
    ∧ (res.2 = Normal tt → points = due).
Proof.
  intros Hlive Hsize Hlen res due. subst res.
  destruct (submitMetrics_deliveries s p ids w Hlive Hsize Hlen)
    as (calls & Hcalls & Hpre & Hall).
  pose proof (submitted_spec_deliveries (batchSize s)
                (storedIds (files w) (cacheFilePath (workflowCache s)))
                (storedIds (files w) (cacheFilePath (workflowCache s)))
                (pairUp (series p) ids) 0 Hsize) as H.
  simpl in H. rewrite drop_0, pairUp_workflowId in H by done.
  assert (concat
            (series <$>
             spec_deliveries (storedIds (files w) (cacheFilePath (workflowCache s)))
               (windows (batchSize s) (pairUp (series p) ids))) = due) as Hdue.
  { apply H. intros x. rewrite take_0, elem_of_nil. tauto. }
  exists (concat (series <$> calls)). unfold submittedPoints. split_and!.
  - by rewrite Hcalls, fmap_app, concat_app.
  - rewrite <- Hdue. by apply concat_fmap_prefix.
  - intros Hres. rewrite <- Hdue. by rewrite (Hall Hres).
Qed.

(** ** What a returning call has stored *)

Lemma LoopRun_recorded_only s paired i w res x :
  LoopRun s paired i w res →
  recorded (files res.1) (cacheFilePath (workflowCache s)) x = true →
  recorded (files w) (cacheFilePath (workflowCache s)) x = true
  ∨ x ∈ workflowId <$> drop i paired.
Proof.
  induction 1 as [i w Hi|i w|i w res Hi Hnew Hrun IH
                 |i w w' res Hi Hnew Hd Hrun IH|i w w' e0 Hi Hnew Hd];
    cbn [fst snd]; auto.
  - intros [?|Hx]%IH; [by left|right].
    apply (elem_of_ids_drop _ _ (batchSize s)). auto.
  - intros [Hx|Hx]%IH.
    + apply (deliverBatch_recorded _ _ _ _ x Hd) in Hx as [Hx|Hx]; [by left|right].
      apply (elem_of_ids_drop _ _ (batchSize s)). left.
      by apply elem_of_windowNew_ids in Hx as [_ Hx].
    + right. apply (elem_of_ids_drop _ _ (batchSize s)). auto.
  - apply deliverBatch_throw in Hd as [-> _]. auto.
Qed.

Lemma submitMetrics_marks s (p : MetricPayload) ids w sent :
  files w !! cacheFilePath (workflowCache s) = Some (SentDoc sent) →
  0 < batchSize s →
  length (series p) = length ids →
  loggable p = true →
  dryRun s = true ∨ accepting (metricsApi s) →
  (submitMetrics s p ids w).2 = Normal tt
  ∧ ∀ X, (hasBeenSent (workflowCache s) X (submitMetrics s p ids w).1).2 = Normal true
         ↔ X ∈ sent ∨ X ∈ ids.
Proof.
  intros Hf%sentOf_Some Hbs Hlen Hlog Hok.
  assert ((submitMetrics s p ids w).2 = Normal tt) as Hres.
  { apply submitMetrics_returns; [done|done|done|done|by rewrite Hf]. }
  split; [done|]. intros X. rewrite hasBeenSent_run. cbn [snd].
  assert (recorded (files w) (cacheFilePath (workflowCache s)) X = true ↔ X ∈ sent)
    as Hsent.
  { rewrite recorded_true, Hf. split; [by intros (? & [= <-] & ?)|eauto]. }
  split.
  - intros [= Hrec].
    apply (LoopRun_recorded_only _ _ _ _ _ X (submitMetrics_LoopRun s p ids w Hlen))
      in Hrec as [Hrec|Hin].
    + left. by apply Hsent.
    + right. by rewrite drop_0, pairUp_workflowId in Hin.
  - intros [Hin|Hin]; f_equal.
    + apply submitMetrics_recorded_mono. by apply Hsent.
    + by apply submitMetrics_all_recorded.
Qed.
(** * The properties the specification states *)

(** C1: when a call of [submitMetrics] returns, the same call made again
    returns too and does nothing but read the ledger: it makes no Transport
    call and changes no file.  The Transport
    payloads of the first call are those of sub-batches of the paired input;
    no identifier occurs in two of them, and in live mode every identifier
    of the call that the ledger did not hold occurs in exactly one, so in
    exactly one Transport invocation over both calls.  More generally, in any call, an identifier the ledger
    holds stays in the ledger and occurs in no sub-batch sent to the
    Transport. *)
Theorem C1_idempotent_submission :
  (∀ s (p : MetricPayload) ids w w1,
      submitMetrics s p ids w = (w1, Normal tt) →
      ∃ w2 n batches,
        submitMetrics s p ids w1 = (w2, Normal tt)
        ∧ trace w2
          = trace w1 ++ replicate n (ReadFile (cacheFilePath (workflowCache s)))
        ∧ apiCalls (trace w2) = apiCalls (trace w1)
        ∧ files w2 = files w1
        ∧ apiCalls (trace w1) = apiCalls (trace w) ++ (payloadOf <$> batches)
        ∧ Forall (λ batch, batch `sublist_of` pairUp (series p) ids) batches
        ∧ (∀ x, invocationsOf x batches ≤ 1)
        ∧ (dryRun s = false →
           ∀ x, x ∈ ids →
                recorded (files w) (cacheFilePath (workflowCache s)) x = false →
                invocationsOf x batches = 1))
  ∧ (∀ s (p : MetricPayload) ids w x,
      recorded (files w) (cacheFilePath (workflowCache s)) x = true →
      let res := submitMetrics s p ids w in
      recorded (files res.1) (cacheFilePath (workflowCache s)) x = true
      ∧ ∃ batches,
          apiCalls (trace res.1) = apiCalls (trace w) ++ (payloadOf <$> batches)
          ∧ Forall (λ batch, batch `sublist_of` pairUp (series p) ids) batches
          ∧ invocationsOf x batches = 0).
Proof.
  split.
  - intros s p ids w w1 Hfirst.
    destruct (submitMetrics_again _ _ _ _ _ Hfirst) as (w2 & n & Hsecond & Hf & Ht).
    destruct (decide (length (series p) = length ids)) as [Hlen|Hlen];
      [|by rewrite submitMetrics_mismatch in Hfirst].
    pose proof (submitMetrics_LoopRun s p ids w Hlen) as Hrun.
    rewrite Hfirst in Hrun.
    destruct (LoopRun_invocations _ _ _ _ _ Hrun) as (batches & Hcalls & Hsub & Hinv).
    exists w2, n, batches. split_and!; try done.
    + by rewrite Ht, apiCalls_app, apiCalls_reads, app_nil_r.
    + intros x. by destruct (Hinv x) as (Hle & _).
    + intros Hlive x Hin Hx. destruct (Hinv x) as (_ & _ & _ & Hone).
      apply Hone; try done. by rewrite drop_0, pairUp_workflowId.
  - intros s p ids w x Hrec res. subst res. split.
    + by apply submitMetrics_recorded_mono.
    + destruct (decide (length (series p) = length ids)) as [Hlen|Hlen].
      * pose proof (submitMetrics_LoopRun s p ids w Hlen) as Hrun.
        destruct (LoopRun_invocations _ _ _ _ _ Hrun)
          as (batches & Hcalls & Hsub & Hinv).
        exists batches. split_and!; try done.
        destruct (Hinv x) as (_ & Hzero & _). by apply Hzero.
      * rewrite submitMetrics_mismatch by done. exists [].
        split_and!; [by rewrite app_nil_r|constructor|done].
Qed.

(** C2 (as amended): when the Transport rejects a call made by
    [submitMetrics], that call is the last effect of [submitMetrics]: no
    later window is processed and nothing is written afterwards; the error
    propagates (an [Error] as it is, anything else as the fixed unknown
    error); the rejected body is the sub-batch of one window, none of whose
    identifiers is stored afterwards; and an identifier stored afterwards was
    stored before the call or belongs to an earlier window. *)
Theorem C2_no_write_after_failure s (p : MetricPayload) ids w t body e :
  let res := submitMetrics s p ids w in
  let path := cacheFilePath (workflowCache s) in
  trace res.1 = trace w ++ t →
  ApiSubmit body (Some e) ∈ t →
  (∃ t', t = t' ++ [ApiSubmit body (Some e)])
  ∧ res.2 = Throw (propagated e)
  ∧ ∃ n,
      let i := n * batchSize s in
      let new := subBatch (files res.1) path
                   (slice (pairUp (series p) ids) i (i + batchSize s)) in
      i < length ids
      ∧ body = payloadOf new
      ∧ (∀ pair, pair ∈ new → recorded (files res.1) path (workflowId pair) = false)
      ∧ (∀ x, recorded (files res.1) path x = true →
              recorded (files w) path x = true ∨ x ∈ take i ids).
Proof.
  intros res path Ht Hin. subst res.
  destruct (decide (length (series p) = length ids)) as [Hlen|Hlen].
  - pose proof (submitMetrics_LoopRun s p ids w Hlen) as Hrun.
    destruct (LoopRun_rejected _ _ _ _ _ Hrun) as (t0 & Ht0 & H).
    assert (t0 = t) as -> by (rewrite Ht in Ht0; by apply app_inv_head in Ht0).
    destruct (H body e Hin) as (Hlast & Hres & n & Hlt & Hbody & Hrec).
    split_and!; [done|done|]. exists n. simpl in *.
    rewrite length_pairUp, Hlen in Hlt. split_and!; [done|done| |].
    + intros pair Hpair. by apply elem_of_subBatch in Hpair as [? _].
    + intros x Hx. destruct (Hrec x Hx) as [?|Hearlier]; [by left|right].
      by rewrite fmap_take, pairUp_workflowId in Hearlier.
  - rewrite submitMetrics_mismatch in Ht by done. simpl in Ht.
    rewrite <- (app_nil_r (trace w)) in Ht at 1. apply app_inv_head in Ht as <-.
    by apply elem_of_nil in Hin.
Qed.

(** C3: when the two lengths differ [submitMetrics] throws the mismatch
    error and the world is the one it started from: no Transport call, no
    ledger read or write, no audit-log write. *)
Theorem C3_pairing_mismatch s (p : MetricPayload) (workflowIds : list string) w :
  length (series p) ≠ length workflowIds →
  submitMetrics s p workflowIds w
  = (w, Throw (JsError (mismatchMessage (length (series p)) (length workflowIds)))).
Proof.
  apply submitMetrics_mismatch.
Qed.

(** C4 (as amended): [submitMetrics] pairs [series[i]] with
    [workflowIds[i]]; the windows of at most [batchSize] pairs are
    consecutive, non-empty and concatenate to the paired input; the
    Transport payloads of a live call are, window by window and in order,
    the pairs of the window whose identifier the ledger does not hold at
    that point, empty sub-batches being skipped: all of them when the call
    returns, a prefix of them otherwise.  In particular, with batch size 2,
    an empty ledger, a Transport that accepts and three pairs whose dates
    are valid and whose third identifier differs from the first two, the
    call returns after exactly two Transport calls, of the first two points
    and of the third. *)
Theorem C4_batch_partitioning :
  (∀ (ss : list Series) (ids : list string) j pair,
      length ss = length ids →
      pairUp ss ids !! j = Some pair ↔
      ss !! j = Some (payload pair) ∧ ids !! j = Some (workflowId pair))
  ∧ (∀ size (l : list Pair),
      0 < size →
      concat (windows size l) = l
      ∧ Forall (λ window, 0 < length window ≤ size) (windows size l))
  ∧ (∀ s (p : MetricPayload) ids w,
      dryRun s = false →
      0 < batchSize s →
      length (series p) = length ids →
      let res := submitMetrics s p ids w in
      let due := spec_deliveries
                   (storedIds (files w) (cacheFilePath (workflowCache s)))
                   (windows (batchSize s) (pairUp (series p) ids)) in
      ∃ calls,
        apiCalls (trace res.1) = apiCalls (trace w) ++ calls
        ∧ calls `prefix_of` due
        ∧ (res.2 = Normal tt → calls = due))
  ∧ (∀ s w (m1 m2 m3 : Series) (id1 id2 id3 : string),
      dryRun s = false →
      batchSize s = 2 →
      accepting (metricsApi s) →
      files w !! cacheFilePath (workflowCache s) = Some (SentDoc []) →
      Forall (λ m, formatsDates m = true) [m1; m2; m3] →
      id3 ≠ id1 → id3 ≠ id2 →
      ∃ w',
        submitMetrics s {| series := [m1; m2; m3] |} [id1; id2; id3] w
        = (w', Normal tt)
        ∧ apiCalls (trace w')
          = apiCalls (trace w) ++ [{| series := [m1; m2] |}; {| series := [m3] |}]).
Proof.
  split_and!; [apply pairUp_lookup| |apply submitMetrics_deliveries|].
  - intros size l Hsize. split; [by apply windows_concat|by apply windows_sizes].
  - intros s w m1 m2 m3 id1 id2 id3 Hlive Hsize Hacc Hf Hdates H31 H32.
    destruct (submitMetrics_deliveries s {| series := [m1; m2; m3] |}
                [id1; id2; id3] w Hlive ltac:(lia) eq_refl)
      as (calls & Hcalls & _ & Hall).
    destruct (submitMetrics s {| series := [m1; m2; m3] |} [id1; id2; id3] w)
      as [w' r] eqn:Hrun.
    assert (r = Normal tt) as ->.
    { change r with (w', r).2. rewrite <- Hrun.
      apply submitMetrics_returns; [lia|done|by apply loggable_Forall|by right|].
      apply sentOf_Some in Hf. by rewrite Hf. }
    exists w'. split; [done|]. cbn [fst snd] in *.
    rewrite Hcalls, (Hall eq_refl), Hsize. f_equal.
    unfold storedIds. apply sentOf_Some in Hf. rewrite Hf.
    cbn. rewrite !decide_True by apply not_elem_of_nil. cbn.
    rewrite decide_True; [done|].
    rewrite !not_elem_of_cons. split_and!; [done|done|apply not_elem_of_nil].
Qed.

(** C5: let a dry-run service and a live service be built by the
    constructor in processes with the same working directory; their ledger
    files differ.  A dry-run call makes no Transport call and changes no
    file but the dry-run ledger, so [hasBeenSent] of the live ledger answers
    as before for every identifier; on a well-formed dry-run ledger, with a
    positive batch size, matching lengths and valid dates, it returns, and
    [hasBeenSent] of the dry-run ledger then answers [true] exactly for the
    identifiers stored before and those of the call.  Conversely a live
    call changes no file but the live ledger, so the dry-run ledger answers
    as before; under the same conditions and with a Transport that accepts
    it returns and marks its identifiers in the live ledger. *)
Theorem C5_mode_isolation proc proc' optsDry optsLive wa wa' wb wb'
    (sDry sLive : DatadogService) :
  newDatadogService proc optsDry wa = (wa', Normal sDry) →
  newDatadogService proc' optsLive wb = (wb', Normal sLive) →
  cwd proc = cwd proc' →
  dryRun sDry = true →
  dryRun sLive = false →
  cacheFilePath (workflowCache sDry) ≠ cacheFilePath (workflowCache sLive)
  ∧ (∀ (p : MetricPayload) ids w,
      let res := submitMetrics sDry p ids w in
      apiCalls (trace res.1) = apiCalls (trace w)
      ∧ (∀ q, q ≠ cacheFilePath (workflowCache sDry) → files res.1 !! q = files w !! q)
      ∧ (∀ X, (hasBeenSent (workflowCache sLive) X res.1).2
              = (hasBeenSent (workflowCache sLive) X w).2)
      ∧ (res.2 = Normal tt →
         ∀ X, X ∈ ids → (hasBeenSent (workflowCache sDry) X res.1).2 = Normal true)
      ∧ (∀ sent,
           files w !! cacheFilePath (workflowCache sDry) = Some (SentDoc sent) →
           0 < batchSize sDry →
           length (series p) = length ids →
           loggable p = true →
           res.2 = Normal tt
           ∧ ∀ X, (hasBeenSent (workflowCache sDry) X res.1).2 = Normal true
                  ↔ X ∈ sent ∨ X ∈ ids))
  ∧ (∀ (p : MetricPayload) ids w,
      let res := submitMetrics sLive p ids w in
      (∀ q, q ≠ cacheFilePath (workflowCache sLive) → files res.1 !! q = files w !! q)
      ∧ (∀ X, (hasBeenSent (workflowCache sDry) X res.1).2
              = (hasBeenSent (workflowCache sDry) X w).2)
      ∧ (∀ sent,
           files w !! cacheFilePath (workflowCache sLive) = Some (SentDoc sent) →
           0 < batchSize sLive →
           length (series p) = length ids →
           loggable p = true →
           accepting (metricsApi sLive) →
           res.2 = Normal tt
           ∧ ∀ X, (hasBeenSent (workflowCache sLive) X res.1).2 = Normal true
                  ↔ X ∈ sent ∨ X ∈ ids)).
Proof.
  intros Hd Hl Hcwd Hdry Hlive.
  apply newDatadogService_built in Hd as (Hpd & _).
  apply newDatadogService_built in Hl as (Hpl & _).
  assert (cacheFilePath (workflowCache sLive) ≠ cacheFilePath (workflowCache sDry))
    as Hne.
  { rewrite Hpd, Hpl, Hdry, Hlive, Hcwd. intros H%join_inj_filename.
    by eapply cacheFilename_modes. }
  split; [done|]. split.
  - intros p ids w res. subst res. split_and!.
    + by apply submitMetrics_dry_no_api.
    + intros q Hq. by apply submitMetrics_frame.
    + intros X. apply hasBeenSent_frame. by apply submitMetrics_frame.
    + intros Hres X HX. rewrite hasBeenSent_run. simpl. f_equal.
      by apply submitMetrics_all_recorded.
    + intros sent Hf Hbs Hlen Hlog.
      apply submitMetrics_marks; try done. by left.
  - intros p ids w res. subst res. split_and!.
    + intros q Hq. by apply submitMetrics_frame.
    + intros X. apply hasBeenSent_frame. by apply submitMetrics_frame.
    + intros sent Hf Hbs Hlen Hlog Hacc.
      apply submitMetrics_marks; try done. by right.
Qed.

(** C6: [hasBeenSent] never throws and only reads; it answers [false]
    when the backing file is missing, unreadable, not JSON or without a
    [sent] array, and when the identifier is absent from a well-formed file;
    on a ledger the constructor created and that was only operated through
    the class, it answers [true] exactly for the identifiers passed to
    [markAsSent]. *)
Theorem C6_hasBeenSent_fails_open :
  (∀ c id w, ∃ b,
      hasBeenSent c id w = (addTrace [ReadFile (cacheFilePath c)] w, Normal b))
  ∧ (∀ c id w,
      files w !! cacheFilePath c = None
      ∨ files w !! cacheFilePath c = Some Unreadable
      ∨ files w !! cacheFilePath c = Some NotJson
      ∨ files w !! cacheFilePath c = Some NoSent →
      (hasBeenSent c id w).2 = Normal false)
  ∧ (∀ c id w sent,
      files w !! cacheFilePath c = Some (SentDoc sent) →
      (hasBeenSent c id w).2 = Normal (bool_decide (id ∈ sent)))
  ∧ (∀ cwd filename ops id w0,
      files w0 !! Path.join cwd "cache" filename = None →
      ∃ c w1 w2,
        newWorkflowCache cwd filename w0 = (w1, Normal c) ∧
        runOps c ops w1 = (w2, Normal tt) ∧
        ((hasBeenSent c id w2).2 = Normal true ↔ id ∈ markedIn ops)).
Proof.
  split_and!.
  - intros c id w. eexists. apply hasBeenSent_run.
  - intros c id w H. rewrite hasBeenSent_run. simpl.
    unfold recorded, sentOf. by destruct H as [->|[->|[->| ->]]].
  - intros c id w sent H. rewrite hasBeenSent_run. simpl.
    unfold recorded, sentOf. by rewrite H.
  - intros cwd filename ops id w0 Hnone.
    rewrite (newWorkflowCache_fresh _ _ _ Hnone).
    set (c := {| cacheFilePath := Path.join cwd "cache" filename |}).
    set (w1 := {| files := <[Path.join cwd "cache" filename := SentDoc []]> (files w0);
                  trace := trace w0 ++ [WriteFile (Path.join cwd "cache" filename)
                                          (SentDoc [])] |}).
    destruct (runOps_run c ops w1 [])
      as (w2 & sent2 & Hrun & Hs & Hin); [apply sentOf_insert|].
    exists c, w1, w2. split_and!; [reflexivity|exact Hrun|].
    rewrite hasBeenSent_run. cbn [snd]. unfold recorded. rewrite Hs.
    rewrite <- includes_true. split.
    + intros [= H]. apply includes_true, Hin in H.
      rewrite elem_of_nil in H. apply includes_true. tauto.
    + intros H%includes_true. f_equal. apply includes_true, Hin. auto.
Qed.

(** C7: on a well-formed ledger [markAsSent] succeeds and stores a
    duplicate-free array whose elements are those stored before together
    with the new ones; marking identifiers that are all stored already
    leaves the set as it was (and the array itself when it had no
    duplicates); no operation of the cache, no construction of a cache and no
    call of [submitMetrics] makes a stored identifier disappear from any
    ledger file. *)
Theorem C7_markAsSent_set_insert :
  (∀ c ids w sent,
      files w !! cacheFilePath c = Some (SentDoc sent) →
      ∃ w' sent',
        markAsSent c ids w = (w', Normal tt) ∧
        files w' !! cacheFilePath c = Some (SentDoc sent') ∧
        NoDup sent' ∧
        (∀ x, x ∈ sent' ↔ x ∈ sent ∨ x ∈ ids) ∧
        ((∀ x, x ∈ ids → x ∈ sent) →
         (∀ x, x ∈ sent' ↔ x ∈ sent) ∧ (NoDup sent → sent' = sent)))
  ∧ (∀ c op w q x,
      recorded (files w) q x = true →
      recorded (files (runOp c op w).1) q x = true)
  ∧ (∀ cwd filename w q x,
      recorded (files w) q x = true →
      recorded (files (newWorkflowCache cwd filename w).1) q x = true)
  ∧ (∀ s (p : MetricPayload) ids w q x,
      recorded (files w) q x = true →
      recorded (files (submitMetrics s p ids w).1) q x = true).
Proof.
  split_and!.
  - intros c ids w sent Hf. apply sentOf_Some in Hf as Hs.
    rewrite (markAsSent_run _ _ _ sent) by done.
    eexists _, _. split_and!; [reflexivity|simpl; apply lookup_insert_eq| | |].
    + apply NoDup_setSpread.
    + intros x. by rewrite elem_of_setSpread, elem_of_app.
    + intros Hsub. split.
      * intros x. rewrite elem_of_setSpread, elem_of_app. specialize (Hsub x). tauto.
      * intros Hnd. by apply setSpread_absorb.
  - intros c [id|ids|ids] w q x Hrec; simpl.
    + by erewrite bind_normal by apply hasBeenSent_run.
    + by apply markAsSent_recorded_mono.
    + by erewrite bind_normal by apply filterNewWorkflows_run.
  - intros cwd filename w q x Hrec.
    destruct (files w !! Path.join cwd "cache" filename) as [content|] eqn:Hf.
    + by rewrite newWorkflowCache_existing by (by rewrite Hf).
    + rewrite newWorkflowCache_fresh by done. simpl.
      apply recorded_true in Hrec as (sent & Hs%sentOf_Some & Hin).
      apply recorded_true. exists sent. split; [|done].
      apply sentOf_Some. rewrite lookup_insert_ne; [done|]. congruence.
  - intros s p ids w q x. apply submitMetrics_recorded_mono.
Qed.

(** C9: the filter of a window consults the ledger only.  Whenever the
    loop of a live service reaches a window in which one identifier, not
    stored in the ledger, sits at two positions, both paired points are in
    the window's sub-batch, and when the dates of the window are valid, so
    that the audit log is written, the body of that window's Transport call
    carries both; in particular a call of [submitMetrics] whose first window
    holds such a duplicate submits the identifier's measurement twice in its
    first Transport call. *)
Theorem C9_no_dedup_within_window :
  (∀ s paired i j k w (pj pk : Pair),
      i ≤ j → j < k → k < i + batchSize s →
      paired !! j = Some pj → paired !! k = Some pk →
      workflowId pj = workflowId pk →
      recorded (files w) (cacheFilePath (workflowCache s)) (workflowId pj) = false →
      [pj; pk] `sublist_of` windowNew s paired i w)
  ∧ (∀ fuel s paired i j k w (pj pk : Pair),
      dryRun s = false →
      Forall (λ pair, formatsDates (payload pair) = true)
        (slice paired i (i + batchSize s)) →
      i ≤ j → j < k → k < i + batchSize s →
      paired !! j = Some pj → paired !! k = Some pk →
      workflowId pj = workflowId pk →
      recorded (files w) (cacheFilePath (workflowCache s)) (workflowId pj) = false →
      ∃ body rest,
        trace (processBatches (S fuel) s paired i w).1
        = trace (afterFilter s paired i w)
            ++ [AuditLog false body;
                ApiSubmit body (metricsApi s (apiCalls (trace w)) body)] ++ rest
        ∧ [payload pj; payload pk] `sublist_of` series body)
  ∧ (∀ s (p : MetricPayload) ids j k x mj mk w,
      dryRun s = false →
      Forall (λ m, formatsDates m = true) (take (batchSize s) (series p)) →
      length (series p) = length ids →
      j < k → k < batchSize s →
      ids !! j = Some x → ids !! k = Some x →
      series p !! j = Some mj → series p !! k = Some mk →
      (hasBeenSent (workflowCache s) x w).2 = Normal false →
      ∃ body rest,
        trace (submitMetrics s p ids w).1
        = trace w
            ++ replicate (length (take (batchSize s) ids))
                 (ReadFile (cacheFilePath (workflowCache s)))
            ++ [AuditLog false body;
                ApiSubmit body (metricsApi s (apiCalls (trace w)) body)] ++ rest
        ∧ [mj; mk] `sublist_of` series body).
Proof.
  split_and!; [apply windowNew_duplicates|apply processBatches_duplicates|].
  intros s p ids j k x mj mk w Hlive Hdates Hlen Hjk Hk Hj Hk' Hmj Hmk Hsent.
  rewrite hasBeenSent_run in Hsent. injection Hsent as Hrec.
  rewrite submitMetrics_run by done.
  destruct (processBatches_duplicates (length (series p)) s (pairUp (series p) ids)
              0 j k w {| payload := mj; workflowId := x |}
              {| payload := mk; workflowId := x |})
    as (body & rest & Ht & Hsub); try done; try lia.
  - rewrite slice_0. apply Forall_payload.
    by rewrite fmap_take, pairUp_payload.
  - by apply pairUp_lookup.
  - by apply pairUp_lookup.
  - exists body, rest. split; [|done]. rewrite Ht. unfold afterFilter; simpl.
    rewrite <- app_assoc. do 3 f_equal.
    rewrite slice_0, !length_take, length_pairUp. lia.
Qed.

(** C10: [markAsSent] reads and parses the ledger file first and rethrows
    any failure without writing; so a live call on a broken ledger file,
    whose first window has valid dates and is accepted by the Transport,
    submits that whole window (every identifier looked undelivered), then
    throws from [markAsSent], and leaves every file as it was: the delivery
    is not recorded. *)
Theorem C10_markAsSent_fails_closed :
  (∀ c ids w,
      brokenLedger (files w) (cacheFilePath c) →
      ∃ message,
        markAsSent c ids w
        = (addTrace [ReadFile (cacheFilePath c)] w, Throw (JsError message)))
  ∧ (∀ s (p : MetricPayload) ids w,
      let path := cacheFilePath (workflowCache s) in
      let body := {| series := take (batchSize s) (series p) |} in
      dryRun s = false →
      0 < batchSize s →
      length (series p) = length ids →
      ids ≠ [] →
      brokenLedger (files w) path →
      loggable body = true →
      metricsApi s (apiCalls (trace w)) body = None →
      (∀ id, (hasBeenSent (workflowCache s) id w).2 = Normal false) ∧
      ∃ message,
        submitMetrics s p ids w
        = (addTrace (replicate (length (take (batchSize s) ids)) (ReadFile path)
                       ++ [AuditLog false body; ApiSubmit body None; ReadFile path]) w,
           Throw (JsError message))).
Proof.
  split.
  - intros c ids w Hb%brokenLedger_sentOf. by apply markAsSent_fails.
  - intros s p ids w path body Hdry Hbs Hlen Hne Hb%brokenLedger_sentOf Hlog Hapi.
    split.
    { intros id. rewrite hasBeenSent_run. simpl. f_equal. by apply recorded_broken. }
    rewrite submitMetrics_run by done.
    assert (0 < length (pairUp (series p) ids)) as Hpos.
    { rewrite length_pairUp, Hlen. destruct ids; [done|simpl; lia]. }
    rewrite processBatches_unfold by done.
    rewrite windowNew_broken by done.
    rewrite bool_decide_false.
    2: { intros Hnil%nil_length_inv. by eapply slice_nonempty in Hnil. }
    assert (payload <$> slice (pairUp (series p) ids) 0 (0 + batchSize s)
            = take (batchSize s) (series p)) as Hbody.
    { rewrite slice_0, fmap_take. by rewrite pairUp_payload. }
    destruct (deliverBatch_broken s (slice (pairUp (series p) ids) 0 (0 + batchSize s))
                (afterFilter s (pairUp (series p) ids) 0 w)) as [message Hd].
    { by rewrite Hbody. }
    { by rewrite files_afterFilter. }
    { right. by rewrite apiCalls_afterFilter, Hbody. }
    exists message. erewrite bind_throw by exact Hd.
    unfold afterFilter, apiEvents. rewrite Hdry, Hbody, addTrace_addTrace.
    subst path body. simpl. do 4 f_equal.
    rewrite slice_0, !length_take, length_pairUp. lia.
Qed.

(** * Further lemmas *)

Ltac in_events Hin :=
  repeat (rewrite elem_of_app in Hin || rewrite elem_of_cons in Hin
          || rewrite elem_of_nil in Hin);
  destruct_or? Hin; simplify_eq; try done.

(** ** The ledger file as an append-only array *)

Lemma setSpread_idemp xs : setSpread (setSpread xs) = setSpread xs.
Proof. apply setSpread_NoDup, NoDup_setSpread. Qed.

Lemma setSpread_app_l xs ys : setSpread (setSpread xs ++ ys) = setSpread (xs ++ ys).
Proof.
  rewrite !setSpread_app, setSpread_idemp. f_equal.
  apply list_filter_iff. intros y. by rewrite elem_of_setSpread.
Qed.

Lemma setSpread_appends (sent ids : list string) :
  NoDup sent →
  setSpread (sent ++ ids) = sent ++ filter (λ x, x ∉ sent) (setSpread ids).
Proof. intros Hnd. by rewrite setSpread_app, setSpread_NoDup. Qed.

Lemma markAsSent_broken_result c ids ids' (w w' : World) :
  sentOf (files w) (cacheFilePath c) = None →
  files w' = files w →
  (markAsSent c ids' w').2 = (markAsSent c ids w).2.
Proof.
  intros Hs Hf. unfold markAsSent, tryCatch, bind, readFileSync, sentOf in *.
  rewrite Hf.
  destruct (files w !! cacheFilePath c) as [[]|]; simpl; try done.
Qed.

Lemma markAsSent_files_broken c ids (w : World) :
  sentOf (files w) (cacheFilePath c) = None →
  files (markAsSent c ids w).1 = files w.
Proof.
  intros Hs. by destruct (markAsSent_fails c ids w Hs) as [message ->].
Qed.

(** ** The constructor of the service *)

Lemma newWorkflowCache_run cwd filename (w : World) :
  ∃ w',
    newWorkflowCache cwd filename w
    = (w', Normal {| cacheFilePath := Path.join cwd "cache" filename |})
    ∧ is_Some (files w' !! Path.join cwd "cache" filename)
    ∧ (files w !! Path.join cwd "cache" filename = None →
       w' = {| files := <[Path.join cwd "cache" filename := SentDoc []]> (files w);
               trace := trace w ++ [WriteFile (Path.join cwd "cache" filename)
                                      (SentDoc [])] |})
    ∧ (is_Some (files w !! Path.join cwd "cache" filename) → w' = w).
Proof.
  destruct (files w !! Path.join cwd "cache" filename) as [content|] eqn:Hf.
  - exists w. rewrite newWorkflowCache_existing by (by rewrite Hf).
    rewrite Hf. by split_and!.
  - rewrite newWorkflowCache_fresh by done. eexists. split_and!; try done.
    simpl. by rewrite lookup_insert_eq.
Qed.

Lemma falsy_spec v : falsy v = true ↔ v = None ∨ v = Some "".
Proof.
  destruct v as [k|]; simpl; [|tauto].
  rewrite bool_decide_eq_true. split; [intros ->; auto|].
  by intros [|[= ->]].
Qed.

Lemma cacheFilename_inj dry dry' env env' :
  cacheFilename dry env = cacheFilename dry' env'
  ↔ dry = dry' ∧ (env = Some "test" ↔ env' = Some "test").
Proof.
  unfold cacheFilename.
  repeat case_bool_decide; destruct dry, dry'; split; try done; try tauto;
    intros [? ?]; try done; tauto.
Qed.

(** ** Fuel *)

Lemma processBatches_more_fuel fuel fuel' s (paired : list Pair) i (w : World) :
  (processBatches fuel s paired i w).2 ≠ Diverge →
  fuel ≤ fuel' →
  processBatches fuel' s paired i w = processBatches fuel s paired i w.
Proof.
  revert fuel' i w. induction fuel as [|fuel IH]; intros fuel' i w Hconv Hle;
    [done|].
  destruct fuel' as [|fuel']; [lia|].
  destruct (decide (i < length paired)) as [Hi|Hi].
  - rewrite !processBatches_unfold in * by done.
    case_bool_decide.
    + apply IH; [done|lia].
    + unfold bind in *.
      destruct (deliverBatch s _ _) as [w' [[]|e|]]; try done.
      apply IH; [done|lia].
  - by rewrite !processBatches_done by lia.
Qed.

Lemma processBatches_zero fuel s (paired : list Pair) i (w : World) :
  batchSize s = 0 → i < length paired →
  processBatches fuel s paired i w = (w, Diverge).
Proof.
  intros Hbs Hi. revert w. induction fuel as [|fuel IH]; intros w; [done|].
  rewrite processBatches_unfold by done.
  unfold windowNew, afterFilter, slice. rewrite Hbs, Nat.add_0_r.
  replace (i - i) with 0 by lia. simpl.
  rewrite addTrace_nil. apply IH.
Qed.

(** ** What a call throws *)

Lemma LoopRun_throws_Error s paired i (w : World) res e :
  LoopRun s paired i w res → res.2 = Throw e → ∃ message, e = JsError message.
Proof.
  induction 1 as [i w Hi|i w|i w res Hi Hnew Hrun IH
                 |i w w' res Hi Hnew Hd Hrun IH|i w w' e0 Hi Hnew Hd];
    cbn [snd]; try done.
  intros [= ->].
  apply deliverBatch_throw in Hd
    as [_ [(e1 & _ & _ & -> & _)|[(message & _ & _ & -> & _)|(_ & -> & _)]]].
  - destruct e1; simpl; eauto.
  - eauto.
  - unfold invalidTimeValue. eauto.
Qed.

(** ** The events of a call, window by window *)

(** A property of event lists that holds of the events of every window and
    is kept by concatenation holds of the events of a run. *)
Lemma LoopRun_blocks (P : list Event → Prop) s paired i (w : World) res :
  LoopRun s paired i w res →
  let path := cacheFilePath (workflowCache s) in
  P [] →
  (∀ a b, P a → P b → P (a ++ b)) →
  (∀ n, P (replicate n (ReadFile path))) →
  (∀ body c,
      P ([AuditLog (dryRun s) body] ++ apiEvents s body
           ++ [ReadFile path; WriteFile path c])) →
  (∀ body e, dryRun s = false → P [AuditLog false body; ApiSubmit body (Some e)]) →
  (∀ body, P ([AuditLog (dryRun s) body] ++ apiEvents s body ++ [ReadFile path])) →
  ∃ t, trace res.1 = trace w ++ t ∧ P t.
Proof.
  intros Hrun path Hnil Happ Hreads Hok Hrej Hled.
  induction Hrun as [i w Hi|i w|i w res Hi Hnew Hrun IH
                    |i w w' res Hi Hnew Hd Hrun IH|i w w' e0 Hi Hnew Hd];
    cbn [fst snd].
  - exists []. by rewrite app_nil_r.
  - exists []. by rewrite app_nil_r.
  - destruct IH as (t & Ht & HP).
    exists (replicate (length (slice paired i (i + batchSize s))) (ReadFile path)
              ++ t).
    split; [|by apply Happ].
    rewrite Ht. unfold afterFilter. cbn [trace addTrace]. by rewrite <- app_assoc.
  - destruct IH as (t & Ht & HP).
    apply deliverBatch_normal in Hd as (sent & _ & _ & _ & Hd).
    set (body := {| series := payload <$> windowNew s paired i w |}) in *.
    set (c := SentDoc (setSpread (sent ++ (workflowId <$> windowNew s paired i w))))
      in *.
    exists (replicate (length (slice paired i (i + batchSize s))) (ReadFile path)
              ++ ([AuditLog (dryRun s) body] ++ apiEvents s body
                    ++ [ReadFile path; WriteFile path c]) ++ t).
    split.
    + rewrite Ht, Hd. unfold afterFilter. cbn [trace addTrace].
      by rewrite <- !app_assoc.
    + apply Happ; [apply Hreads|]. apply Happ; [apply Hok|done].
  - set (body := {| series := payload <$> windowNew s paired i w |}) in *.
    apply deliverBatch_throw in Hd
      as [_ [(e1 & Hdry & _ & _ & Hd)|[(message & _ & _ & _ & Hd)|(_ & _ & ->)]]].
    3: { exists (replicate (length (slice paired i (i + batchSize s)))
                   (ReadFile path)).
         split; [done|apply Hreads]. }
    + exists (replicate (length (slice paired i (i + batchSize s))) (ReadFile path)
                ++ [AuditLog false body; ApiSubmit body (Some e1)]).
      split.
      * rewrite Hd. unfold afterFilter. cbn [trace addTrace].
        by rewrite <- !app_assoc.
      * apply Happ; [apply Hreads|]. by apply Hrej.
    + exists (replicate (length (slice paired i (i + batchSize s))) (ReadFile path)
                ++ ([AuditLog (dryRun s) body] ++ apiEvents s body
                      ++ [ReadFile path])).
      split.
      * rewrite Hd. unfold afterFilter. cbn [trace addTrace].
        by rewrite <- !app_assoc.
      * apply Happ; [apply Hreads|]. apply Hled.
Qed.

Lemma auditedPayloads_app (t1 t2 : list Event) :
  auditedPayloads (t1 ++ t2) = auditedPayloads t1 ++ auditedPayloads t2.
Proof. apply omap_app. Qed.

Lemma auditedPayloads_reads n path :
  auditedPayloads (replicate n (ReadFile path : Event)) = [].
Proof. induction n as [|n IH]; [done|]. simpl. apply IH. Qed.

Lemma elem_of_reads (e : Event) n path :
  e ∈ replicate n (ReadFile path : Event) → e = ReadFile path.
Proof. by intros [-> _]%elem_of_replicate. Qed.

Lemma writesFollowAccept_nil : writesFollowAccept [].
Proof. intros t1 q c t2 H. by destruct t1. Qed.

Lemma writesFollowAccept_app (a b : list Event) :
  writesFollowAccept a → writesFollowAccept b → writesFollowAccept (a ++ b).
Proof.
  intros Ha Hb t1 q c t2 Heq.
  apply app_eq_app in Heq as [l [[-> Heq]|[-> Heq]]].
  - destruct l as [|e l].
    + simpl in Heq. destruct (Hb [] q c t2) as (t0 & body & Ht0); [done|].
      by destruct t0.
    + simpl in Heq. injection Heq as <- ->.
      by apply (Ha t1 q c l).
  - destruct (Hb l q c t2 Heq) as (t0 & body & ->).
    exists (a ++ t0), body. by rewrite app_assoc.
Qed.

Lemma writesFollowAccept_no_write (t : list Event) :
  (∀ q c, WriteFile q c ∉ t) → writesFollowAccept t.
Proof.
  intros Hno t1 q c t2 ->. destruct (Hno q c).
  apply elem_of_app. right. apply elem_of_cons. by left.
Qed.

(** ** The ledger array over a call *)

Lemma LoopRun_appends s paired i (w : World) res sent :
  LoopRun s paired i w res →
  sentOf (files w) (cacheFilePath (workflowCache s)) = Some sent →
  NoDup sent →
  ∃ added,
    sentOf (files res.1) (cacheFilePath (workflowCache s)) = Some (sent ++ added)
    ∧ NoDup (sent ++ added)
    ∧ ∀ x, x ∈ added → x ∈ workflowId <$> drop i paired.
Proof.
  intros Hrun. revert sent.
  induction Hrun as [i w Hi|i w|i w res Hi Hnew Hrun IH
                    |i w w' res Hi Hnew Hd Hrun IH|i w w' e0 Hi Hnew Hd];
    intros sent Hs Hnd; cbn [fst snd].
  - exists []. rewrite app_nil_r. split_and!; try done. by intros x ?%elem_of_nil.
  - exists []. rewrite app_nil_r. split_and!; try done. by intros x ?%elem_of_nil.
  - destruct (IH sent) as (added & ? & ? & Hin); [done|done|].
    exists added. split_and!; try done.
    intros x Hx. apply (elem_of_ids_drop _ _ (batchSize s)). auto.
  - apply deliverBatch_normal in Hd as (sent0 & Hs0 & _ & Hf & _).
    rewrite files_afterFilter in Hs0. rewrite Hs in Hs0. injection Hs0 as <-.
    rewrite setSpread_appends in Hf by done.
    destruct (IH (sent ++ filter (λ x, x ∉ sent)
                            (setSpread (workflowId <$> windowNew s paired i w))))
      as (added & Hs' & Hnd' & Hin).
    { rewrite Hf. apply sentOf_insert. }
    { rewrite <- setSpread_appends by done. apply NoDup_setSpread. }
    eexists. rewrite <- app_assoc in Hs', Hnd'. split_and!; [done|done|].
    intros x [Hx|Hx]%elem_of_app.
    + apply list_elem_of_filter in Hx as [_ Hx]. rewrite elem_of_setSpread in Hx.
      apply (elem_of_ids_drop _ _ (batchSize s)). left.
      by apply elem_of_windowNew_ids in Hx as [_ Hx].
    + apply (elem_of_ids_drop _ _ (batchSize s)). auto.
  - apply deliverBatch_throw in Hd as [Hf _]. rewrite Hf, files_afterFilter.
    exists []. rewrite app_nil_r. split_and!; try done. by intros x ?%elem_of_nil.
Qed.


(** ** One iteration of a batching loop *)

Lemma deliver_run s (body : MetricPayload) (ids : list string) (w : World) :
  let path := cacheFilePath (workflowCache s) in
  deliver s body ids w
  = if loggable body then
      match (if dryRun s then None else metricsApi s (apiCalls (trace w)) body) with
      | Some e =>
          (addTrace [AuditLog false body; ApiSubmit body (Some e)] w,
           Throw (propagated e))
      | None =>
          match sentOf (files w) path with
          | Some sent =>
              ({| files := <[path := SentDoc (setSpread (sent ++ ids))]> (files w);
                  trace := trace w ++ [AuditLog (dryRun s) body] ++ apiEvents s body
                             ++ [ReadFile path;
                                 WriteFile path (SentDoc (setSpread (sent ++ ids)))] |},
               Normal tt)
          | None =>
              (addTrace ([AuditLog (dryRun s) body] ++ apiEvents s body
                           ++ [ReadFile path]) w,
               (markAsSent (workflowCache s) ids w).2)
          end
      end
    else (w, Throw invalidTimeValue).
Proof.
  intros path. subst path. unfold deliver.
  destruct (loggable body) eqn:Hlog.
  2: { by erewrite bind_throw by (by apply logMetricPayload_throws). }
  erewrite bind_normal by (by apply logMetricPayload_ok).
  set (w1 := emit (AuditLog (dryRun s) body) w).
  unfold tryCatch, apiEvents.
  destruct (dryRun s) eqn:Hdry; simpl negb; cbv iota.
  - erewrite bind_normal by reflexivity.
    destruct (sentOf (files w) (cacheFilePath (workflowCache s))) as [sent|] eqn:Hs.
    + rewrite (markAsSent_run _ _ w1 sent) by done.
      subst w1. simpl. by rewrite <- app_assoc.
    + rewrite <- (markAsSent_broken_result (workflowCache s) ids ids w w1) by done.
      destruct (markAsSent_fails (workflowCache s) ids w1) as [message ->]; [done|].
      subst w1. simpl. by rewrite emit_addTrace, addTrace_addTrace.
  - unfold bind at 1, metricsApi_submitMetrics.
    assert (apiCalls (trace w1) = apiCalls (trace w)) as ->
      by (subst w1; simpl; apply apiCalls_audit).
    destruct (metricsApi s (apiCalls (trace w)) body) as [e|] eqn:Hapi.
    + subst w1. rewrite !emit_addTrace, addTrace_addTrace. by destruct e.
    + set (w2 := emit (ApiSubmit body None) w1).
      destruct (sentOf (files w) (cacheFilePath (workflowCache s))) as [sent|] eqn:Hs.
      * rewrite (markAsSent_run _ _ w2 sent) by done.
        subst w2 w1. simpl. by rewrite <- !app_assoc.
      * rewrite <- (markAsSent_broken_result (workflowCache s) ids ids w w2) by done.
        destruct (markAsSent_fails (workflowCache s) ids w2) as [message ->]; [done|].
        subst w2 w1. simpl. by rewrite !emit_addTrace, !addTrace_addTrace.
Qed.

Lemma deliverBatch_deliver s (new : list Pair) :
  deliverBatch s new = deliver s (payloadOf new) (workflowId <$> new).
Proof. done. Qed.

(** ** Accepted deliveries *)

Lemma acceptedCalls_app (t1 t2 : list Event) :
  acceptedCalls (t1 ++ t2) = acceptedCalls t1 ++ acceptedCalls t2.
Proof. apply omap_app. Qed.

Lemma acceptedCalls_reads n path :
  acceptedCalls (replicate n (ReadFile path : Event)) = [].
Proof. induction n as [|n IH]; [done|]. simpl. apply IH. Qed.

Lemma acceptedCalls_afterFilter s paired i (w : World) :
  acceptedCalls (trace (afterFilter s paired i w)) = acceptedCalls (trace w).
Proof.
  unfold afterFilter. cbn [trace addTrace].
  by rewrite acceptedCalls_app, acceptedCalls_reads, app_nil_r.
Qed.

(** In live mode, on a well-formed ledger, the sub-batches the Transport
    accepted are those whose identifiers the run stored. *)
Lemma LoopRun_accepted s paired i (w : World) res :
  LoopRun s paired i w res →
  dryRun s = false →
  is_Some (sentOf (files w) (cacheFilePath (workflowCache s))) →
  is_Some (sentOf (files res.1) (cacheFilePath (workflowCache s)))
  ∧ ∃ batches,
      acceptedCalls (trace res.1) = acceptedCalls (trace w) ++ (payloadOf <$> batches)
      ∧ Forall (λ batch, batch `sublist_of` paired) batches
      ∧ ∀ x,
          (recorded (files w) (cacheFilePath (workflowCache s)) x = true →
           invocationsOf x batches = 0)
          ∧ (recorded (files w) (cacheFilePath (workflowCache s)) x = false →
             invocationsOf x batches
             = if recorded (files res.1) (cacheFilePath (workflowCache s)) x
               then 1 else 0).
Proof.
  intros Hrun Hdry.
  induction Hrun as [i w Hi|i w|i w res Hi Hnew Hrun IH
                    |i w w' res Hi Hnew Hd Hrun IH|i w w' e0 Hi Hnew Hd];
    intros Hwf; cbn [fst snd].
  - split; [done|]. exists []. split_and!; [by rewrite app_nil_r|constructor|].
    intros x. split; [done|]. by intros ->.
  - split; [done|]. exists []. split_and!; [by rewrite app_nil_r|constructor|].
    intros x. split; [done|]. by intros ->.
  - destruct (IH Hwf) as (Hwf' & batches & Hcalls & Hsub & Hinv).
    split; [done|]. exists batches.
    split_and!; [by rewrite Hcalls, acceptedCalls_afterFilter|done|done].
  - pose proof Hd as (sent & Hs & _ & Hf & Ht)%deliverBatch_normal.
    destruct IH as (Hwf' & batches & Hcalls & Hsub & Hinv).
    { rewrite Hf, sentOf_insert. eauto. }
    split; [done|]. exists (windowNew s paired i w :: batches).
    split_and!.
    + rewrite Hcalls, Ht. unfold apiEvents. rewrite Hdry.
      rewrite !acceptedCalls_app, acceptedCalls_afterFilter. simpl.
      by rewrite <- app_assoc.
    + constructor; [apply windowNew_sublist|done].
    + intros x. destruct (Hinv x) as (Hrec & Hnew').
      pose proof (deliverBatch_recorded _ _ _ _ x Hd) as Hrec'.
      rewrite files_afterFilter in Hrec'.
      pose proof (elem_of_windowNew_ids s paired i w x) as Hin.
      pose proof (LoopRun_recorded_mono _ _ _ _ _ (cacheFilePath (workflowCache s)) x Hrun)
        as Hmono. cbn [fst] in Hmono.
      rewrite invocationsOf_cons.
      destruct (recorded (files w') (cacheFilePath (workflowCache s)) x) eqn:Hw';
        destruct (recorded (files w) (cacheFilePath (workflowCache s)) x) eqn:Hw;
        case_decide; split; intros; try done;
        try (rewrite Hrec by done); try (rewrite Hmono by done); try lia;
        try (rewrite Hnew' by done; lia);
        try (exfalso; tauto); try (exfalso; intuition congruence).
  - pose proof Hd
      as [Hf [(e1 & _ & _ & _ & Ht)|[(message & Hs & _)|(_ & _ & Hw)]]]%deliverBatch_throw.
    2: { rewrite files_afterFilter in Hs. rewrite Hs in Hwf. by destruct Hwf. }
    all: rewrite Hf, files_afterFilter; split; [done|]; exists [];
      split_and!; [|constructor|intros x; split; [done|]; by intros ->].
    + rewrite Ht, acceptedCalls_app, acceptedCalls_afterFilter. done.
    + rewrite Hw, acceptedCalls_afterFilter. simpl. by rewrite app_nil_r.
Qed.

(** ** The positional-slice and the unbatched variant *)

Lemma bind_ret_tt (m : M unit) (w : World) : bind m (λ _, ret tt) w = m w.
Proof. unfold bind, ret. by destruct (m w) as [w' [[]| |]]. Qed.

Lemma deliver_normal s (body : MetricPayload) (ids : list string) (w w' : World) :
  deliver s body ids w = (w', Normal tt) →
  ∃ sent,
    sentOf (files w) (cacheFilePath (workflowCache s)) = Some sent
    ∧ files w'
      = <[cacheFilePath (workflowCache s) := SentDoc (setSpread (sent ++ ids))]> (files w).
Proof.
  rewrite deliver_run. destruct (loggable body); [|done].
  destruct (if dryRun s then None else _) as [e|]; [done|].
  destruct (sentOf (files w) (cacheFilePath (workflowCache s))) as [sent|] eqn:Hs.
  - intros [= <-]. eauto.
  - destruct (markAsSent_fails (workflowCache s) ids w Hs) as [message ->]. done.
Qed.

Lemma deliver_normal_loggable s (body : MetricPayload) (ids : list string)
    (w w' : World) :
  deliver s body ids w = (w', Normal tt) → loggable body = true.
Proof. rewrite deliver_run. by destruct (loggable body). Qed.

Lemma deliver_throw s (body : MetricPayload) (ids : list string) (w w' : World) r :
  deliver s body ids w = (w', r) →
  r ≠ Normal tt →
  files w' = files w ∧ ∃ e, r = Throw e.
Proof.
  rewrite deliver_run. destruct (loggable body).
  2: { intros [= <- <-] _. eauto. }
  destruct (if dryRun s then None else _) as [e|].
  { intros [= <- <-] _. eauto. }
  destruct (sentOf (files w) (cacheFilePath (workflowCache s))) as [sent|] eqn:Hs.
  - by intros [= <- <-].
  - destruct (markAsSent_fails (workflowCache s) ids w Hs) as [message ->].
    intros [= <- <-] _. eauto.
Qed.

Lemma deliver_apiCalls s (body : MetricPayload) (ids : list string) (w : World) :
  apiCalls (trace (deliver s body ids w).1)
  = apiCalls (trace w)
      ++ (if loggable body then if dryRun s then [] else [body] else []).
Proof.
  rewrite deliver_run. unfold apiEvents.
  destruct (loggable body); [|by rewrite app_nil_r].
  destruct (dryRun s) eqn:Hdry.
  - destruct (sentOf (files w) (cacheFilePath (workflowCache s)));
      cbn [fst trace addTrace]; by rewrite apiCalls_app.
  - destruct (metricsApi s (apiCalls (trace w)) body);
      [|destruct (sentOf (files w) (cacheFilePath (workflowCache s)))];
      cbn [fst trace addTrace]; by rewrite apiCalls_app.
Qed.

Lemma deliver_recorded s (body : MetricPayload) (ids : list string) (w w' : World) x :
  deliver s body ids w = (w', Normal tt) →
  recorded (files w') (cacheFilePath (workflowCache s)) x = true ↔
  recorded (files w) (cacheFilePath (workflowCache s)) x = true ∨ x ∈ ids.
Proof.
  intros (sent & Hs & Hf)%deliver_normal.
  rewrite !recorded_true, Hf, sentOf_insert, Hs. split.
  - intros (sent' & [= <-] & Hin%elem_of_setSpread%elem_of_app).
    destruct Hin; eauto.
  - intros [(sent' & [= <-] & Hin)|Hin]; eexists; (split; [done|]);
      apply elem_of_setSpread, elem_of_app; auto.
Qed.

Lemma processSlices_unfold fuel s (p : MetricPayload) (new : list string) i
    (w : World) :
  i < length new →
  processSlices (S fuel) s p new i w
  = bind (deliver s {| series := slice (series p) i (i + batchSize s) |}
                    (slice new i (i + batchSize s)))
         (λ _, processSlices fuel s p new (i + batchSize s)) w.
Proof.
  intros Hi. cbn [processSlices]. rewrite bool_decide_true by done.
  unfold deliver. by rewrite bind_assoc.
Qed.

Lemma processSlices_done fuel s (p : MetricPayload) (new : list string) i
    (w : World) :
  length new ≤ i → processSlices (S fuel) s p new i w = (w, Normal tt).
Proof.
  intros Hi. cbn [processSlices]. by rewrite bool_decide_false by lia.
Qed.

Lemma submitMetrics_positional_run s (p : MetricPayload) (ids : list string)
    (w : World) :
  let path := cacheFilePath (workflowCache s) in
  let new := filter (λ id, recorded (files w) path id = false) ids in
  let w1 := addTrace (replicate (length ids) (ReadFile path)) w in
  submitMetrics_positional s p ids w
  = if bool_decide (length new = 0) then (w1, Normal tt)
    else processSlices (S (length new)) s p new 0 w1.
Proof.
  intros path new w1. unfold submitMetrics_positional.
  erewrite bind_normal by apply filterNewWorkflows_run.
  fold path new w1. by destruct (bool_decide (length new = 0)).
Qed.

Lemma submitMetrics_unbatched_run s (p : MetricPayload) (ids : list string)
    (w : World) :
  let path := cacheFilePath (workflowCache s) in
  let new := filter (λ id, recorded (files w) path id = false) ids in
  let w1 := addTrace (replicate (length ids) (ReadFile path)) w in
  submitMetrics_unbatched s p ids w
  = if bool_decide (length new = 0) then (w1, Normal tt)
    else deliver s p new w1.
Proof.
  intros path new w1. unfold submitMetrics_unbatched.
  erewrite bind_normal by apply filterNewWorkflows_run.
  fold path new w1. destruct (bool_decide (length new = 0)); [done|].
  unfold deliver. destruct (loggable p) eqn:Hlog.
  2: { by rewrite !(bind_throw _ _ _ _ _ (logMetricPayload_throws s p w1 Hlog)). }
  rewrite !(bind_normal _ _ _ _ _ (logMetricPayload_ok s p w1 Hlog)).
  destruct (dryRun s); [|done].
  simpl negb. cbv iota. unfold tryCatch. erewrite bind_normal by reflexivity.
  set (w2 := emit _ w1).
  destruct (sentOf (files w2) (cacheFilePath (workflowCache s))) as [sent|] eqn:Hs.
  - by rewrite (markAsSent_run _ _ w2 sent).
  - by destruct (markAsSent_fails (workflowCache s) new w2 Hs) as [message ->].
Qed.

Lemma filter_nil_all {A} (P : A → Prop) `{!∀ x, Decision (P x)} (l : list A) x :
  filter P l = [] → x ∈ l → ¬ P x.
Proof.
  intros Hnil Hin HP.
  assert (x ∈ filter P l) as Hx by (by apply list_elem_of_filter).
  rewrite Hnil in Hx. by apply elem_of_nil in Hx.
Qed.

Lemma slice_app {A} (l : list A) a b c :
  a ≤ b → b ≤ c → slice l a b ++ slice l b c = slice l a c.
Proof.
  intros Hab Hbc. unfold slice.
  replace (drop b l) with (drop (b - a) (drop a l))
    by (rewrite drop_drop; f_equal; lia).
  rewrite take_take_drop. f_equal. lia.
Qed.

Lemma fmap_slice {A B} (f : A → B) (l : list A) a b :
  f <$> slice l a b = slice (f <$> l) a b.
Proof. unfold slice. by rewrite fmap_take, fmap_drop. Qed.

Lemma slice_all {A} (l : list A) n : length l ≤ n → slice l 0 (0 + n) = l.
Proof. intros Hn. rewrite slice_0. by apply take_ge. Qed.

Lemma submittedPoints_app (t1 t2 : list Event) :
  submittedPoints (t1 ++ t2) = submittedPoints t1 ++ submittedPoints t2.
Proof. unfold submittedPoints. by rewrite apiCalls_app, fmap_app, concat_app. Qed.

Lemma deliver_converges s (body : MetricPayload) (ids : list string) (w : World) :
  (deliver s body ids w).2 ≠ Diverge.
Proof.
  destruct (deliver s body ids w) as [w' [[]|e|]] eqn:Hd; try done.
  by apply deliver_throw in Hd as [_ [e ?]].
Qed.

(** The loop of the positional variant hands the Transport consecutive
    slices of the series, starting at [i]. *)
Lemma processSlices_points fuel s (p : MetricPayload) (new : list string) i
    (w : World) :
  dryRun s = false →
  ∃ m,
    submittedPoints (trace (processSlices fuel s p new i w).1)
    = submittedPoints (trace w) ++ slice (series p) i (i + m * batchSize s)
    ∧ (m = 0 ∨ i + (m - 1) * batchSize s < length new)
    ∧ ((processSlices fuel s p new i w).2 = Normal tt →
       length new ≤ i + m * batchSize s).
Proof.
  intros Hdry. revert i w. induction fuel as [|fuel IH]; intros i w.
  { exists 0. simpl. unfold slice. rewrite Nat.add_0_r, Nat.sub_diag, take_0.
    rewrite app_nil_r. split_and!; [done|by left|done]. }
  destruct (decide (i < length new)) as [Hi|Hi].
  2: { rewrite processSlices_done by lia. exists 0. simpl. unfold slice.
       rewrite Nat.add_0_r, Nat.sub_diag, take_0, app_nil_r.
       split_and!; [done|by left|lia]. }
  rewrite processSlices_unfold by done. unfold bind.
  set (body := {| series := slice (series p) i (i + batchSize s) |}).
  pose proof (deliver_apiCalls s body (slice new i (i + batchSize s)) w) as Hcalls.
  rewrite Hdry in Hcalls.
  pose proof (deliver_converges s body (slice new i (i + batchSize s)) w) as Hconv.
  destruct (deliver s body (slice new i (i + batchSize s)) w) as [w1 [[]|e|]] eqn:Hd;
    cbn [fst snd] in *; try done.
  2: destruct (loggable body) eqn:Hlog.
  3: { exists 0. simpl. unfold slice.
       rewrite Nat.add_0_r, Nat.sub_diag, take_0. unfold submittedPoints.
       rewrite Hcalls, !app_nil_r. split_and!; [done|by left|done]. }
  - rewrite (deliver_normal_loggable _ _ _ _ _ Hd) in Hcalls.
    destruct (IH (i + batchSize s) w1) as (m & Hpoints & Hlast & Hret).
    exists (S m). split_and!.
    + rewrite Hpoints. unfold submittedPoints at 1. rewrite Hcalls.
      rewrite fmap_app, concat_app. simpl. rewrite app_nil_r, <- app_assoc.
      f_equal. rewrite slice_app by lia. f_equal. lia.
    + right. destruct Hlast as [->|Hlast]; simpl; [lia|].
      destruct m; simpl in *; lia.
    + intros Hres. apply Hret in Hres. simpl. lia.
  - exists 1. split_and!.
    + unfold submittedPoints at 1. rewrite Hcalls.
      rewrite fmap_app, concat_app. simpl. rewrite app_nil_r.
      by rewrite Nat.add_0_r.
    + right. simpl. lia.
    + done.
Qed.

Lemma processSlices_recorded_mono fuel s (p : MetricPayload) (new : list string) i
    (w : World) x :
  recorded (files w) (cacheFilePath (workflowCache s)) x = true →
  recorded (files (processSlices fuel s p new i w).1)
    (cacheFilePath (workflowCache s)) x = true.
Proof.
  revert i w. induction fuel as [|fuel IH]; intros i w Hx; [done|].
  destruct (decide (i < length new)) as [Hi|Hi].
  2: { by rewrite processSlices_done by lia. }
  rewrite processSlices_unfold by done. unfold bind.
  destruct (deliver s _ _ w) as [w1 [[]|e|]] eqn:Hd; cbn [fst].
  - apply IH. apply (deliver_recorded _ _ _ _ _ x Hd). auto.
  - by apply deliver_throw in Hd as [-> _].
  - by apply deliver_throw in Hd as [-> _].
Qed.

Lemma processSlices_marks fuel s (p : MetricPayload) (new : list string) i
    (w : World) x :
  (processSlices fuel s p new i w).2 = Normal tt →
  x ∈ drop i new →
  recorded (files (processSlices fuel s p new i w).1)
    (cacheFilePath (workflowCache s)) x = true.
Proof.
  revert i w. induction fuel as [|fuel IH]; intros i w Hres Hx; [done|].
  destruct (decide (i < length new)) as [Hi|Hi].
  2: { rewrite drop_ge in Hx by lia. by apply elem_of_nil in Hx. }
  rewrite processSlices_unfold in * by done. unfold bind in *.
  destruct (deliver s _ _ w) as [w1 [[]|e|]] eqn:Hd; cbn [fst snd] in *; try done.
  rewrite (drop_slice _ _ (batchSize s)) in Hx. apply elem_of_app in Hx as [Hx|Hx].
  - apply processSlices_recorded_mono.
    apply (deliver_recorded _ _ _ _ _ x Hd). auto.
  - by apply IH.
Qed.

(** ** Traces up to ledger reads *)

Lemma withoutReads_app (t1 t2 : list Event) :
  withoutReads (t1 ++ t2) = withoutReads t1 ++ withoutReads t2.
Proof. apply filter_app. Qed.

Lemma withoutReads_reads n path :
  withoutReads (replicate n (ReadFile path : Event)) = [].
Proof.
  induction n as [|n IH]; [done|]. simpl. unfold withoutReads in *.
  rewrite filter_cons_False; [done|]. simpl. done.
Qed.

Lemma apiCalls_withoutReads (t : list Event) :
  apiCalls (withoutReads t) = apiCalls t.
Proof.
  induction t as [|e t IH]; [done|]. unfold withoutReads in *.
  rewrite filter_cons. destruct e; simpl; try done; by rewrite IH.
Qed.

Lemma NoDup_slice_drop (ids : list string) i n x :
  NoDup ids → x ∈ slice ids i (i + n) → x ∉ drop (i + n) ids.
Proof.
  intros Hnd Hx Hx'.
  assert (NoDup (drop i ids)) as Hnd'
    by (eapply sublist_NoDup; [done|apply sublist_drop]).
  rewrite (drop_slice _ _ n) in Hnd'.
  apply NoDup_app in Hnd' as (_ & Hdisj & _). by apply (Hdisj x).
Qed.

(** On an input whose identifiers are distinct and none of which is
    stored, the two batching loops go through the same windows. *)
Lemma positional_sim fuel s (p : MetricPayload) (ids : list string) i (w w' : World) :
  0 < batchSize s →
  length (series p) = length ids →
  NoDup ids →
  files w' = files w →
  withoutReads (trace w') = withoutReads (trace w) →
  (∀ x, x ∈ drop i ids →
        recorded (files w) (cacheFilePath (workflowCache s)) x = false) →
  let r := processBatches fuel s (pairUp (series p) ids) i w in
  let r' := processSlices fuel s p ids i w' in
  r'.2 = r.2 ∧ files r'.1 = files r.1
  ∧ withoutReads (trace r'.1) = withoutReads (trace r.1).
Proof.
  intros Hbs Hlen Hnd. revert i w w'.
  induction fuel as [|fuel IH]; intros i w w' Hf Ht Hfresh; [done|].
  cbv zeta.
  destruct (decide (i < length ids)) as [Hi|Hi].
  2: { rewrite processSlices_done by lia.
       by rewrite processBatches_done by (rewrite length_pairUp; lia). }
  rewrite processSlices_unfold by done.
  rewrite processBatches_unfold by (rewrite length_pairUp; lia).
  assert (windowNew s (pairUp (series p) ids) i w
          = slice (pairUp (series p) ids) i (i + batchSize s)) as ->.
  { unfold windowNew, subBatch. apply filter_all. intros pair Hin.
    apply Hfresh. apply elem_of_slice_drop in Hin.
    rewrite <- (pairUp_workflowId (series p) ids Hlen), <- fmap_drop.
    by apply list_elem_of_fmap_2. }
  rewrite bool_decide_false.
  2: { intros Hnil%nil_length_inv. revert Hnil. apply slice_nonempty; [|done].
       rewrite length_pairUp. lia. }
  rewrite deliverBatch_deliver. unfold payloadOf.
  rewrite !fmap_slice, pairUp_payload, pairUp_workflowId by done.
  set (body := {| series := slice (series p) i (i + batchSize s) |}).
  set (batch := slice ids i (i + batchSize s)).
  set (w0 := afterFilter s (pairUp (series p) ids) i w).
  assert (files w0 = files w) as Hf0 by done.
  assert (withoutReads (trace w0) = withoutReads (trace w)) as Ht0.
  { unfold w0, afterFilter. cbn [trace addTrace].
    by rewrite withoutReads_app, withoutReads_reads, app_nil_r. }
  assert (apiCalls (trace w') = apiCalls (trace w0)) as Hcalls.
  { by rewrite <- (apiCalls_withoutReads (trace w')), Ht, <- Ht0,
      apiCalls_withoutReads. }
  unfold bind. rewrite !deliver_run. rewrite Hcalls, Hf, Hf0.
  destruct (loggable body).
  2: { cbn [fst snd]. by rewrite Hf, Ht, Ht0. }
  destruct (if dryRun s then None else metricsApi s (apiCalls (trace w0)) body)
    as [e|].
  { cbn [fst snd files trace addTrace]. split_and!; [done|congruence|].
    by rewrite !withoutReads_app, Ht, Ht0. }
  destruct (sentOf (files w) (cacheFilePath (workflowCache s))) as [sent|] eqn:Hs.
  - apply IH.
    + done.
    + cbn [trace]. by rewrite !withoutReads_app, Ht, Ht0.
    + intros x Hx. cbn [files].
      apply not_true_iff_false. intros (sent' & Hs' & Hin)%recorded_true.
      rewrite sentOf_insert in Hs'. injection Hs' as <-.
      apply elem_of_setSpread, elem_of_app in Hin as [Hin|Hin].
      * pose proof (Hfresh x (elem_of_drop_add _ _ _ _ Hx)) as Hrec.
        apply not_true_iff_false in Hrec. apply Hrec, recorded_true. eauto.
      * by apply (NoDup_slice_drop ids i (batchSize s) x).
  - rewrite (markAsSent_broken_result (workflowCache s) batch batch w w')
      by done.
    rewrite (markAsSent_broken_result (workflowCache s) batch batch w w0)
      by done.
    destruct (markAsSent_fails (workflowCache s) batch w Hs) as [message ->].
    cbn [fst snd files trace addTrace]. split_and!; [done|congruence|].
    by rewrite !withoutReads_app, Ht, Ht0.
Qed.

(** ** What a call writes to the audit log *)

Lemma auditedPayloads_afterFilter s paired i (w : World) :
  auditedPayloads (trace (afterFilter s paired i w)) = auditedPayloads (trace w).
Proof.
  unfold afterFilter. cbn [trace addTrace].
  by rewrite auditedPayloads_app, auditedPayloads_reads, app_nil_r.
Qed.

Lemma deliver_audited s (body : MetricPayload) (ids : list string) (w : World) :
  auditedPayloads (trace (deliver s body ids w).1)
  = auditedPayloads (trace w) ++ (if loggable body then [body] else []).
Proof.
  rewrite deliver_run. unfold apiEvents.
  destruct (loggable body); [|by rewrite app_nil_r].
  destruct (dryRun s) eqn:Hdry.
  - destruct (sentOf (files w) (cacheFilePath (workflowCache s)));
      cbn [fst trace addTrace]; by rewrite auditedPayloads_app.
  - destruct (metricsApi s (apiCalls (trace w)) body);
      [|destruct (sentOf (files w) (cacheFilePath (workflowCache s)))];
      cbn [fst trace addTrace]; by rewrite auditedPayloads_app.
Qed.

(** In either mode the audit log of a run receives, window by window, the
    sub-batches of the specification's algorithm. *)
Lemma LoopRun_audited s paired i (w : World) res :
  LoopRun s paired i w res →
  0 < batchSize s →
  ∀ sent : list string,
    (∀ x, x ∈ sent ↔ recorded (files w) (cacheFilePath (workflowCache s)) x = true) →
    ∃ logs,
      auditedPayloads (trace res.1) = auditedPayloads (trace w) ++ logs
      ∧ logs `prefix_of`
          spec_deliveries sent (windows (batchSize s) (drop i paired))
      ∧ (res.2 = Normal tt →
         logs = spec_deliveries sent (windows (batchSize s) (drop i paired))).
Proof.
  intros Hrun Hsize.
  induction Hrun as [i w Hi|i w|i w res Hi Hnew Hrun IH
                    |i w w' res Hi Hnew Hd Hrun IH|i w w' e0 Hi Hnew Hd];
    intros sent Hsent; cbn [fst snd].
  - exists []. rewrite app_nil_r, drop_ge, windows_nil by done.
    split_and!; done.
  - exists []. rewrite app_nil_r. split_and!; [done|apply prefix_nil|done].
  - destruct (IH sent) as (logs & Hlogs & Hpre & Hall); [done|].
    exists logs. rewrite windows_from by done. cbn [spec_deliveries].
    rewrite (spec_filter_windowNew s paired i w sent Hsent), Hnew.
    by rewrite Hlogs, auditedPayloads_afterFilter.
  - destruct (IH (sent ++ (workflowId <$> windowNew s paired i w)))
      as (logs & Hlogs & Hpre & Hall).
    { intros x. rewrite elem_of_app, Hsent.
      by rewrite (deliverBatch_recorded _ _ _ _ x Hd), files_afterFilter. }
    exists (payloadOf (windowNew s paired i w) :: logs).
    rewrite windows_from by done.
    destruct (windowNew s paired i w) as [|pr sub] eqn:Hw; [done|].
    rewrite (spec_deliveries_cons sent _ _ pr sub)
      by (by rewrite (spec_filter_windowNew s paired i w sent Hsent)).
    split_and!.
    + rewrite Hlogs. change w' with (w', Normal tt).1. rewrite <- Hd.
      rewrite deliverBatch_deliver, deliver_audited, auditedPayloads_afterFilter.
      rewrite (deliverBatch_normal_loggable _ _ _ _ Hd).
      by rewrite <- app_assoc.
    + by apply prefix_cons.
    + intros Hres. f_equal. by apply Hall.
  - assert (auditedPayloads (trace w')
            = auditedPayloads (trace w)
                ++ (if loggable (payloadOf (windowNew s paired i w))
                    then [payloadOf (windowNew s paired i w)] else [])) as Hlogs.
    { change w' with (w', @Throw unit e0).1. rewrite <- Hd.
      by rewrite deliverBatch_deliver, deliver_audited, auditedPayloads_afterFilter. }
    destruct (loggable (payloadOf (windowNew s paired i w))).
    2: { exists []. split_and!; [done|apply prefix_nil|done]. }
    exists [payloadOf (windowNew s paired i w)].
    rewrite windows_from by done.
    destruct (windowNew s paired i w) as [|pr sub] eqn:Hw; [done|].
    rewrite (spec_deliveries_cons sent _ _ pr sub)
      by (by rewrite (spec_filter_windowNew s paired i w sent Hsent)).
    split_and!; [done|apply prefix_cons, prefix_nil|done].
Qed.

(** ** The variant before the ledger *)


(** ** A call on a concatenated input *)

Lemma pairUp_app (ss1 ss2 : list Series) (ids1 ids2 : list string) :
  length ss1 = length ids1 →
  length ss2 = length ids2 →
  pairUp (ss1 ++ ss2) (ids1 ++ ids2) = pairUp ss1 ids1 ++ pairUp ss2 ids2.
Proof.
  intros H1 H2. rewrite !pairUp_zip by (rewrite ?length_app; lia).
  by apply zip_with_app.
Qed.

Lemma slice_app_l {A} (l1 l2 : list A) i n :
  i + n ≤ length l1 → slice (l1 ++ l2) i (i + n) = slice l1 i (i + n).
Proof.
  intros Hle. rewrite !slice_take_drop, drop_app_le by lia.
  apply take_app_le. rewrite length_drop. lia.
Qed.

Lemma slice_app_r {A} (l1 l2 : list A) j n :
  slice (l1 ++ l2) (length l1 + j) (length l1 + j + n) = slice l2 j (j + n).
Proof. by rewrite !slice_take_drop, drop_app_add. Qed.

Lemma processBatches_fuel_eq fuel1 fuel2 s (paired : list Pair) i (w : World) :
  0 < batchSize s →
  length paired - i < fuel1 →
  length paired - i < fuel2 →
  processBatches fuel1 s paired i w = processBatches fuel2 s paired i w.
Proof.
  intros Hbs H1 H2.
  rewrite <- (processBatches_more_fuel fuel1 (fuel1 `max` fuel2))
    by (try apply processBatches_terminates; try done; lia).
  rewrite <- (processBatches_more_fuel fuel2 (fuel1 `max` fuel2))
    by (try apply processBatches_terminates; try done; lia).
  done.
Qed.

(** Past the first part of a concatenated input the loop runs as on the
    second part alone. *)
Lemma processBatches_app_r fuel s (l1 l2 : list Pair) j (w : World) :
  processBatches fuel s (l1 ++ l2) (length l1 + j) w
  = processBatches fuel s l2 j w.
Proof.
  revert j w. induction fuel as [|fuel IH]; intros j w; [done|].
  destruct (decide (j < length l2)) as [Hj|Hj].
  - rewrite !processBatches_unfold by (rewrite ?length_app; lia).
    unfold windowNew, afterFilter. rewrite slice_app_r.
    rewrite <- !Nat.add_assoc. rewrite !IH.
    case_bool_decide; [done|].
    unfold bind. destruct (deliverBatch s _ _) as [w' [[]|e|]]; try done.
  - by rewrite !processBatches_done by (rewrite ?length_app; lia).
Qed.

(** Up to the end of a first part made of whole windows the loop runs as
    on the first part alone. *)
Lemma processBatches_app_l n s (l1 l2 : list Pair) :
  0 < batchSize s →
  ∀ i (w : World) fuel fuel1 fuel2,
    length l1 = i + n * batchSize s →
    length (l1 ++ l2) - i < fuel →
    length l1 - i < fuel1 →
    length l2 < fuel2 →
    processBatches fuel s (l1 ++ l2) i w
    = bind (processBatches fuel1 s l1 i)
           (λ _, processBatches fuel2 s l2 0) w.
Proof.
  intros Hbs. induction n as [|n IH]; intros i w fuel fuel1 fuel2 Hi Hf Hf1 Hf2.
  - assert (i = length l1) as -> by lia.
    destruct fuel1 as [|fuel1]; [lia|].
    erewrite bind_normal by (by apply processBatches_done).
    pose proof (processBatches_app_r fuel s l1 l2 0 w) as Hr.
    rewrite Nat.add_0_r in Hr. rewrite Hr.
    apply processBatches_fuel_eq; [done| |lia].
    rewrite length_app in Hf. lia.
  - simpl in Hi.
    destruct fuel as [|fuel]; [lia|]. destruct fuel1 as [|fuel1]; [lia|].
    assert (∀ w',
      processBatches fuel s (l1 ++ l2) (i + batchSize s) w'
      = bind (processBatches fuel1 s l1 (i + batchSize s))
             (λ _, processBatches fuel2 s l2 0) w') as Hnext.
    { intros w'. apply IH; try lia. rewrite length_app in *. lia. }
    pose proof (processBatches_unfold fuel1 s l1 i w ltac:(lia)) as Hr.
    rewrite processBatches_unfold by (rewrite ?length_app; lia).
    unfold windowNew, afterFilter in *. rewrite slice_app_l by lia.
    unfold bind at 2. rewrite Hr. clear Hr.
    case_bool_decide; [by rewrite Hnext|].
    unfold bind. destruct (deliverBatch s _ _) as [w' [[]|e|]]; [|done..].
    apply Hnext.
Qed.

(** ** A window that cannot be logged *)

Lemma slice_sublist_take {A} (l : list A) i n k :
  i + n ≤ k → slice l i (i + n) `sublist_of` take k l.
Proof.
  intros Hk. rewrite slice_take_drop.
  replace k with (i + (k - i)) by lia. rewrite <- take_take_drop.
  apply sublist_inserts_l.
  replace (take n (drop i l)) with (take n (take (k - i) (drop i l)))
    by (rewrite take_take; f_equal; lia).
  apply sublist_take.
Qed.

Lemma not_loggable (new : list Pair) (pair : Pair) :
  pair ∈ new → formatsDates (payload pair) = false →
  loggable (payloadOf new) = false.
Proof.
  intros Hin Hbad. apply not_true_iff_false. intros Hlog%loggable_Forall.
  apply Forall_payload in Hlog. rewrite Forall_forall in Hlog.
  specialize (Hlog pair Hin). congruence.
Qed.

Lemma later_not_in_window (paired : list Pair) i n k (pk : Pair) :
  NoDup (workflowId <$> paired) → i + n ≤ k → paired !! k = Some pk →
  workflowId pk ∉ workflowId <$> slice paired i (i + n).
Proof.
  intros Hnd Hk Hpk Hin. rewrite fmap_slice in Hin.
  apply (NoDup_slice_drop _ i n (workflowId pk) Hnd Hin).
  apply list_elem_of_lookup. exists (k - (i + n)).
  rewrite lookup_drop, list_lookup_fmap.
  replace (i + n + (k - (i + n))) with k by lia. by rewrite Hpk.
Qed.

Lemma elem_of_windowNew s paired i (w : World) j (pj : Pair) :
  i ≤ j → j < i + batchSize s → paired !! j = Some pj →
  recorded (files w) (cacheFilePath (workflowCache s)) (workflowId pj) = false →
  pj ∈ windowNew s paired i w.
Proof.
  intros Hij Hj Hpj Hrec. apply elem_of_subBatch. split; [done|].
  eapply list_elem_of_lookup_2. by apply (slice_lookup _ i (batchSize s) j).
Qed.

(** The loop never gets past a window whose sub-batch holds an invalid
    date: [start] is the index at which that window begins. *)
Lemma LoopRun_blocked s paired i (w : World) res start j (pj : Pair) :
  LoopRun s paired i w res →
  let path := cacheFilePath (workflowCache s) in
  NoDup (workflowId <$> paired) →
  (∃ n, start = i + n * batchSize s) →
  start ≤ j → j < start + batchSize s →
  paired !! j = Some pj →
  formatsDates (payload pj) = false →
  recorded (files w) path (workflowId pj) = false →
  res.2 ≠ Normal tt
  ∧ (∀ k (pk : Pair), start ≤ k → paired !! k = Some pk →
       recorded (files res.1) path (workflowId pk)
       = recorded (files w) path (workflowId pk))
  ∧ ∃ batches,
      apiCalls (trace res.1) = apiCalls (trace w) ++ (payloadOf <$> batches)
      ∧ Forall (λ batch, batch `sublist_of` take start paired) batches.
Proof.
  intros Hrun path Hnd.
  induction Hrun as [i w Hi|i w|i w res Hi Hnew Hrun IH
                    |i w w' res Hi Hnew Hd Hrun IH|i w w' e0 Hi Hnew Hd];
    intros [n Hstart] Hsj Hj Hpj Hbad Hrec; cbn [fst snd].
  - apply lookup_lt_Some in Hpj. lia.
  - split_and!; [done|done|]. exists []. split; [by rewrite app_nil_r|constructor].
  - destruct n as [|n].
    { exfalso.
      assert (pj ∈ windowNew s paired i w) as Hin
        by (apply (elem_of_windowNew s paired i w j); [lia|lia|done|done]).
      rewrite Hnew in Hin. by apply elem_of_nil in Hin. }
    destruct IH as (Hres & Hsame & batches & Hcalls & Hsub); try done.
    { exists n. lia. }
    split_and!; [done|done|]. exists batches. split; [|done].
    by rewrite Hcalls, apiCalls_afterFilter.
  - destruct n as [|n].
    { exfalso.
      assert (pj ∈ windowNew s paired i w) as Hin
        by (apply (elem_of_windowNew s paired i w j); [lia|lia|done|done]).
      pose proof (deliverBatch_normal_loggable _ _ _ _ Hd) as Hlog.
      by rewrite (not_loggable _ pj Hin Hbad) in Hlog. }
    assert (∀ k (pk : Pair), start ≤ k → paired !! k = Some pk →
              recorded (files w') path (workflowId pk)
              = recorded (files w) path (workflowId pk)) as Hstep.
    { intros k pk Hk Hpk.
      pose proof (deliverBatch_recorded _ _ _ _ (workflowId pk) Hd) as Hiff.
      rewrite files_afterFilter in Hiff. fold path in Hiff.
      assert (workflowId pk ∉ workflowId <$> windowNew s paired i w) as Hout.
      { intros [_ Hin]%elem_of_windowNew_ids.
        apply (later_not_in_window paired i (batchSize s) k pk); try done. lia. }
      destruct (recorded (files w') path (workflowId pk)),
               (recorded (files w) path (workflowId pk)); try done.
      - exfalso. by destruct (proj1 Hiff eq_refl).
      - apply Hiff. by left. }
    destruct IH as (Hres & Hsame & batches & Hcalls & Hsub); try done.
    { exists n. lia. }
    { by rewrite (Hstep j pj). }
    split_and!; [done| |].
    + intros k pk Hk Hpk. rewrite (Hsame k pk Hk Hpk). by apply (Hstep k).
    + exists (sentBatches s (windowNew s paired i w) ++ batches). split.
      * rewrite Hcalls, (deliverBatch_apiCalls _ _ _ _ _ Hd).
        rewrite (deliverBatch_normal_loggable _ _ _ _ Hd).
        by rewrite apiCalls_afterFilter, fmap_app, app_assoc.
      * apply Forall_app. split; [|done].
        unfold sentBatches. destruct (dryRun s); repeat constructor.
        unfold windowNew, subBatch. etrans; [apply sublist_filter|].
        apply slice_sublist_take. lia.
  - pose proof (deliverBatch_throw _ _ _ _ _ Hd) as [Hf _].
    split_and!; [done|by (intros; rewrite Hf, files_afterFilter)|].
    pose proof (deliverBatch_apiCalls _ _ _ _ _ Hd) as Hcalls.
    rewrite apiCalls_afterFilter in Hcalls.
    destruct n as [|n].
    + assert (pj ∈ windowNew s paired i w) as Hin
        by (apply (elem_of_windowNew s paired i w j); [lia|lia|done|done]).
      rewrite (not_loggable _ pj Hin Hbad) in Hcalls.
      exists []. split; [done|constructor].
    + destruct (loggable (payloadOf (windowNew s paired i w))).
      2: { exists []. split; [done|constructor]. }
      exists (sentBatches s (windowNew s paired i w)). split; [done|].
      unfold sentBatches. destruct (dryRun s); repeat constructor.
      unfold windowNew, subBatch. etrans; [apply sublist_filter|].
      apply slice_sublist_take. lia.
Qed.

Lemma submitMetrics_blocked s (p : MetricPayload) (ids : list string) (w : World)
    j m x :
  let path := cacheFilePath (workflowCache s) in
  let start := j / batchSize s * batchSize s in
  0 < batchSize s →
  length (series p) = length ids →
  NoDup ids →
  series p !! j = Some m →
  ids !! j = Some x →
  formatsDates m = false →
  recorded (files w) path x = false →
  (∃ e, (submitMetrics s p ids w).2 = Throw e)
  ∧ (∀ k y, start ≤ k → ids !! k = Some y →
       recorded (files (submitMetrics s p ids w).1) path y
       = recorded (files w) path y)
  ∧ ∃ batches,
      apiCalls (trace (submitMetrics s p ids w).1)
      = apiCalls (trace w) ++ (payloadOf <$> batches)
      ∧ Forall (λ batch, batch `sublist_of` take start (pairUp (series p) ids))
          batches.
Proof.
  intros path start Hbs Hlen Hnd Hm Hx Hbad Hrec.
  pose proof (Nat.Div0.mul_div_le j (batchSize s)) as Hlo.
  pose proof (Nat.mul_succ_div_gt j (batchSize s)) as Hhi.
  destruct (LoopRun_blocked s (pairUp (series p) ids) 0 w (submitMetrics s p ids w)
              start j {| payload := m; workflowId := x |})
    as (Hres & Hsame & Hcalls); try done.
  - by apply submitMetrics_LoopRun.
  - by rewrite pairUp_workflowId.
  - by exists (j / batchSize s).
  - unfold start. lia.
  - unfold start. lia.
  - by apply pairUp_lookup.
  - split_and!; [| |done].
    + pose proof (submitMetrics_converges s p ids w Hbs) as Hconv.
      destruct (submitMetrics s p ids w) as [w' [[]|e|]]; cbn [snd] in *;
        [done|eauto|done].
    + intros k y Hk Hy.
      destruct (series p !! k) as [mk|] eqn:Hmk.
      2: { apply lookup_ge_None in Hmk. apply lookup_lt_Some in Hy. lia. }
      apply (Hsame k {| payload := mk; workflowId := y |}); [done|].
      by apply pairUp_lookup.
Qed.
(** * Further properties of the code *)

(** ** WorkflowCache *)

(** X1: [filterNewWorkflows] never throws and only reads the ledger, once
    per identifier; it returns, in the order of the input and with their
    repetitions, the identifiers for which [hasBeenSent] answers [false];
    on a ledger file the code cannot use that is the whole input. *)
Theorem filterNewWorkflows_selects c (ids : list string) (w : World) :
  ∃ new,
    filterNewWorkflows c ids w
    = (addTrace (replicate (length ids) (ReadFile (cacheFilePath c))) w, Normal new)
    ∧ new `sublist_of` ids
    ∧ (∀ x, x ∈ new ↔ x ∈ ids ∧ (hasBeenSent c x w).2 = Normal false)
    ∧ (∀ x, length (filter (λ y, y = x) new)
            = if recorded (files w) (cacheFilePath c) x then 0
              else length (filter (λ y, y = x) ids))
    ∧ (brokenLedger (files w) (cacheFilePath c) → new = ids).
Proof.
  rewrite filterNewWorkflows_run. eexists. split; [done|].
  split; [apply sublist_filter|].
  split; [|split].
  - intros x. rewrite list_elem_of_filter, hasBeenSent_run. simpl.
    split; intros [? ?]; split; congruence.
  - intros x. rewrite list_filter_filter.
    destruct (recorded (files w) (cacheFilePath c) x) eqn:Hx.
    + rewrite filter_none; [done|]. intros y _ [-> Hy]. congruence.
    + f_equal. apply list_filter_iff. intros y. split; [tauto|].
      intros ->. done.
  - intros Hb. apply filter_all. intros x _.
    apply recorded_broken. by apply brokenLedger_sentOf.
Qed.

(** X2: on a well-formed ledger, after [markAsSent marked] a filter keeps
    exactly what it kept before, less the identifiers just marked; so the
    identifiers just marked are all filtered out. *)
Theorem filterNewWorkflows_after_markAsSent c (marked ids : list string)
    (w : World) sent :
  files w !! cacheFilePath c = Some (SentDoc sent) →
  ∃ w1 w2,
    markAsSent c marked w = (w1, Normal tt)
    ∧ filterNewWorkflows c ids w1
      = (w2, Normal (filter (λ x, x ∉ marked) (filter (λ x, x ∉ sent) ids)))
    ∧ files w2 = files w1
    ∧ (filterNewWorkflows c marked w1).2 = Normal [].
Proof.
  intros Hf. apply sentOf_Some in Hf.
  rewrite (markAsSent_run c marked w sent Hf). do 2 eexists. split; [done|].
  rewrite !filterNewWorkflows_run. simpl.
  assert (∀ x, recorded (<[cacheFilePath c := SentDoc (setSpread (sent ++ marked))]>
                           (files w)) (cacheFilePath c) x = false
               ↔ (x ∉ sent) ∧ (x ∉ marked)) as Hrec.
  { intros x. unfold recorded. rewrite sentOf_insert.
    rewrite <- not_true_iff_false, includes_true, elem_of_setSpread, elem_of_app.
    tauto. }
  split.
  { apply f_equal2; [reflexivity|]. f_equal. rewrite list_filter_filter.
    apply list_filter_iff. intros x. rewrite Hrec. tauto. }
  split; [done|].
  f_equal. apply filter_none. intros x Hx. rewrite Hrec. tauto.
Qed.

(** X3: on a well-formed, duplicate-free ledger [markAsSent] only appends:
    the stored array is the old one followed by the first occurrence of
    every new identifier that was not stored, in the order given. *)
Theorem markAsSent_appends c (ids : list string) (w : World) sent :
  files w !! cacheFilePath c = Some (SentDoc sent) →
  NoDup sent →
  ∃ w',
    markAsSent c ids w = (w', Normal tt)
    ∧ files w' !! cacheFilePath c
      = Some (SentDoc (sent ++ filter (λ x, x ∉ sent) (setSpread ids)))
    ∧ (∀ q, q ≠ cacheFilePath c → files w' !! q = files w !! q).
Proof.
  intros Hf Hnd. apply sentOf_Some in Hf.
  rewrite (markAsSent_run c ids w sent Hf). eexists. split; [done|]. simpl.
  split.
  - by rewrite lookup_insert_eq, setSpread_appends.
  - intros q Hq. by rewrite lookup_insert_ne.
Qed.

(** X4: two calls of [markAsSent] in a row leave the files that one call
    with the concatenated identifiers leaves, and end the same way,
    whatever the state of the ledger file. *)
Theorem markAsSent_compose c (a b : list string) (w : World) :
  files (markAsSent c b (markAsSent c a w).1).1 = files (markAsSent c (a ++ b) w).1
  ∧ (markAsSent c b (markAsSent c a w).1).2 = (markAsSent c (a ++ b) w).2.
Proof.
  destruct (sentOf (files w) (cacheFilePath c)) as [sent|] eqn:Hs.
  - rewrite (markAsSent_run c a w sent Hs), (markAsSent_run c (a ++ b) w sent Hs).
    cbn [fst snd].
    erewrite markAsSent_run by (cbn [files]; apply sentOf_insert).
    cbn [fst snd files].
    by rewrite insert_insert_eq, setSpread_app_l, <- app_assoc.
  - split.
    + rewrite !markAsSent_files_broken; try done.
      by rewrite markAsSent_files_broken.
    + apply markAsSent_broken_result; [done|].
      by apply markAsSent_files_broken.
Qed.

(** ** The constructor of DatadogService *)

(** X6: the constructor sets up the ledger file before it looks at the API
    key: when [DD_API_KEY] is unset or empty it throws the fixed error, and
    the ledger file of the mode exists all the same, created empty if it
    was missing; with a key it returns the service, whose batch size is 10
    and whose mode is live unless the options say otherwise. *)
Theorem newDatadogService_checks_key_last (proc : Process) options (w : World) :
  let dry := default false (options ≫= opt_dryRun) in
  let path := Path.join (cwd proc) "cache" (cacheFilename dry (NODE_ENV proc)) in
  ∃ w',
    newDatadogService proc options w
    = (w', if bool_decide (DD_API_KEY proc = None ∨ DD_API_KEY proc = Some "")
           then Throw (JsError "DD_API_KEY environment variable is required")
           else Normal {| metricsApi := v2_MetricsApi proc; dryRun := dry;
                          workflowCache := {| cacheFilePath := path |};
                          batchSize := default 10 (options ≫= opt_batchSize) |})
    ∧ files w' !! path = Some (default (SentDoc []) (files w !! path))
    ∧ (∀ q, q ≠ path → files w' !! q = files w !! q).
Proof.
  intros dry path. unfold newDatadogService. fold dry. fold path.
  destruct (newWorkflowCache_run (cwd proc) (cacheFilename dry (NODE_ENV proc)) w)
    as (w' & Hc & Hex & Hfresh & Hold).
  exists w'. erewrite bind_normal by exact Hc. split.
  2: { fold path in Hfresh, Hold. destruct (files w !! path) eqn:Hf.
       - rewrite Hold by done. by rewrite Hf.
       - rewrite Hfresh by done. simpl. rewrite lookup_insert_eq. split; [done|].
         intros q Hq. by rewrite lookup_insert_ne. }
  destruct (falsy (DD_API_KEY proc)) eqn:Hkey.
  - apply falsy_spec in Hkey. by rewrite bool_decide_eq_true_2.
  - rewrite bool_decide_eq_false_2; [done|].
    rewrite <- falsy_spec. congruence.
Qed.

(** X7: two services built by the constructor in the same working
    directory use the same ledger file exactly when they have the same
    mode and are both, or neither, run with [NODE_ENV] set to [test]. *)
Theorem ledger_namespaces (proc proc' : Process) options options'
    (w w' v v' : World) (s s' : DatadogService) :
  newDatadogService proc options w = (w', Normal s) →
  newDatadogService proc' options' v = (v', Normal s') →
  cwd proc = cwd proc' →
  cacheFilePath (workflowCache s) = cacheFilePath (workflowCache s')
  ↔ dryRun s = dryRun s'
    ∧ (NODE_ENV proc = Some "test" ↔ NODE_ENV proc' = Some "test").
Proof.
  intros (-> & _)%newDatadogService_built (-> & _)%newDatadogService_built Hcwd.
  rewrite Hcwd, <- cacheFilename_inj. split; [apply join_inj_filename|].
  by intros ->.
Qed.

(** ** The loop of [submitMetrics] *)

(** X8: the constructor accepts a batch size of 0, and a service built
    with it never finishes a call on a non-empty input of matching
    lengths: whatever the fuel, the loop has not ended, and it has done
    nothing, not even read the ledger. *)
Theorem submitMetrics_zero_batchSize (proc : Process) opts (w0 w0' : World)
    (s : DatadogService) fuel (p : MetricPayload) (ids : list string) (w : World) :
  newDatadogService proc (Some opts) w0 = (w0', Normal s) →
  opt_batchSize opts = Some 0 →
  length (series p) = length ids →
  ids ≠ [] →
  submitMetricsFuel fuel s p ids w = (w, Diverge).
Proof.
  intros (_ & _ & Hbs & _)%newDatadogService_built Hopt Hlen Hne.
  simpl in Hbs. rewrite Hopt in Hbs. simpl in Hbs.
  unfold submitMetricsFuel. rewrite bool_decide_eq_true_2 by done. simpl.
  apply processBatches_zero; [done|].
  rewrite length_pairUp, Hlen. destruct ids; [done|simpl; lia].
Qed.

(** X9: with a positive batch size the loop ends within one iteration per
    point: every amount of fuel above the number of points gives the
    result of [submitMetrics], which is never the completion of a loop
    that has not ended. *)
Theorem submitMetrics_fuel_independent fuel s (p : MetricPayload)
    (ids : list string) (w : World) :
  0 < batchSize s →
  length (series p) < fuel →
  submitMetricsFuel fuel s p ids w = submitMetrics s p ids w
  ∧ (submitMetrics s p ids w).2 ≠ Diverge.
Proof.
  intros Hbs Hfuel. split; [|by apply submitMetrics_converges].
  pose proof (submitMetrics_converges s p ids w Hbs) as Hconv.
  unfold submitMetrics, submitMetricsFuel in *.
  destruct (negb _); [done|].
  apply processBatches_more_fuel; [done|lia].
Qed.

(** X10: whatever the Transport rejects with, and whatever is wrong with
    the input or the ledger, what [submitMetrics] throws is an [Error]. *)
Theorem submitMetrics_throws_Error s (p : MetricPayload) (ids : list string)
    (w : World) e :
  (submitMetrics s p ids w).2 = Throw e → ∃ message, e = JsError message.
Proof.
  destruct (decide (length (series p) = length ids)) as [Hlen|Hlen].
  - intros Hres.
    eapply LoopRun_throws_Error; [by apply (submitMetrics_LoopRun s p ids w)|done].
  - rewrite submitMetrics_mismatch by done. intros [= <-]. eauto.
Qed.

(** X11: the audit log of a call mirrors its Transport calls: in live
    mode the bodies handed to the Transport, the rejected one included,
    are exactly the payloads written to the audit log, in the same order;
    in a dry run nothing goes to the Transport; and every audit entry
    carries the mode of the service. *)
Theorem submitMetrics_audit_trail s (p : MetricPayload) (ids : list string)
    (w : World) :
  ∃ t,
    trace (submitMetrics s p ids w).1 = trace w ++ t
    ∧ apiCalls t = (if dryRun s then [] else auditedPayloads t)
    ∧ ∀ dry body, AuditLog dry body ∈ t → dry = dryRun s.
Proof.
  destruct (decide (length (series p) = length ids)) as [Hlen|Hlen].
  2: { rewrite submitMetrics_mismatch by done. exists []. simpl.
       rewrite app_nil_r. split_and!; [done|by destruct (dryRun s)|].
       by intros ?? ?%elem_of_nil. }
  apply (LoopRun_blocks
           (λ t, apiCalls t = (if dryRun s then [] else auditedPayloads t)
                 ∧ ∀ dry body, AuditLog dry body ∈ t → dry = dryRun s)
           s (pairUp (series p) ids) 0 w); [by apply submitMetrics_LoopRun|..].
  - split; [by destruct (dryRun s)|]. by intros ?? ?%elem_of_nil.
  - intros a b [Ha Ha'] [Hb Hb']. split.
    + rewrite apiCalls_app, auditedPayloads_app, Ha, Hb. by destruct (dryRun s).
    + intros dry body [?|?]%elem_of_app; eauto.
  - intros n. split.
    + rewrite apiCalls_reads, auditedPayloads_reads. by destruct (dryRun s).
    + by intros ?? ?%elem_of_reads.
  - intros body c. unfold apiEvents. split.
    + by destruct (dryRun s).
    + intros dry b Hin. destruct (dryRun s); by in_events Hin.
  - intros body e Hdry. rewrite Hdry. split; [done|].
    intros dry b Hin. by in_events Hin.
  - intros body. unfold apiEvents. split.
    + by destruct (dryRun s).
    + intros dry b Hin. destruct (dryRun s); by in_events Hin.
Qed.

(** X12: a call on a well-formed, duplicate-free ledger only appends to
    the stored array, and only identifiers of its input: whatever the
    completion, the array afterwards is the old one followed by
    identifiers of the input, still without duplicates; when the call
    returns, every identifier of the input is in it. *)
Theorem submitMetrics_appends s (p : MetricPayload) (ids : list string)
    (w : World) sent :
  let path := cacheFilePath (workflowCache s) in
  let res := submitMetrics s p ids w in
  files w !! path = Some (SentDoc sent) →
  NoDup sent →
  ∃ added,
    files res.1 !! path = Some (SentDoc (sent ++ added))
    ∧ NoDup (sent ++ added)
    ∧ (∀ x, x ∈ added → x ∈ ids)
    ∧ (res.2 = Normal tt → ∀ x, x ∈ ids → x ∈ sent ++ added).
Proof.
  intros path res Hf Hnd. subst path res.
  destruct (decide (length (series p) = length ids)) as [Hlen|Hlen].
  2: { rewrite submitMetrics_mismatch by done. exists []. rewrite app_nil_r.
       split_and!; try done. by intros x ?%elem_of_nil. }
  apply sentOf_Some in Hf.
  destruct (LoopRun_appends _ _ _ _ _ sent (submitMetrics_LoopRun s p ids w Hlen) Hf Hnd)
    as (added & Hs & Hnd' & Hin).
  exists added. split_and!; [by apply sentOf_Some|done| |].
  - intros x Hx. apply Hin in Hx. by rewrite drop_0, pairUp_workflowId in Hx.
  - intros Hres x Hx.
    pose proof (submitMetrics_all_recorded s p ids w x Hres Hx) as Hrec.
    apply recorded_true in Hrec as (sent' & Hs' & Hx'). congruence.
Qed.


(** X14: in live mode the ledger is written only right after the
    Transport has accepted a body: every ledger write of a call comes
    directly after a Transport call that resolved and the ledger read of
    [markAsSent]. *)
Theorem submitMetrics_writes_follow_accept s (p : MetricPayload)
    (ids : list string) (w : World) :
  dryRun s = false →
  ∃ t,
    trace (submitMetrics s p ids w).1 = trace w ++ t
    ∧ writesFollowAccept t.
Proof.
  intros Hdry.
  destruct (decide (length (series p) = length ids)) as [Hlen|Hlen].
  2: { rewrite submitMetrics_mismatch by done. exists []. simpl.
       rewrite app_nil_r. split; [done|apply writesFollowAccept_nil]. }
  apply (LoopRun_blocks writesFollowAccept s (pairUp (series p) ids) 0 w);
    [by apply submitMetrics_LoopRun|..].
  - apply writesFollowAccept_nil.
  - apply writesFollowAccept_app.
  - intros n. apply writesFollowAccept_no_write. by intros q c ?%elem_of_reads.
  - intros body c. unfold apiEvents. rewrite Hdry. simpl.
    intros t1 q c' t2 Heq.
    destruct t1 as [|e1 [|e2 [|e3 [|e4 t1]]]]; simplify_eq/=.
    + by exists [AuditLog false body], body.
    + by destruct t1.
  - intros body e _. apply writesFollowAccept_no_write.
    intros q c Hin. by in_events Hin.
  - intros body. unfold apiEvents. rewrite Hdry. simpl.
    apply writesFollowAccept_no_write. intros q c Hin. by in_events Hin.
Qed.

(** X15: retrying after a rejection delivers exactly once.  Let a live
    call on a well-formed ledger return, or end with the Transport's
    rejection of one of its sub-batches, and let the same call, made again,
    return.  Over both calls the Transport has accepted sub-batches of the
    paired input in which every identifier of the input that the ledger did
    not hold occurs exactly once, and no other identifier occurs at all.
    A first call that ends in the ledger write of [markAsSent], after the
    Transport has accepted the sub-batch, is another matter: the model has
    no such failure, and the code submits that sub-batch again. *)
Theorem retry_delivers_exactly_once s (p : MetricPayload) (ids : list string)
    (w w1 w2 : World) r1 sent :
  files w !! cacheFilePath (workflowCache s) = Some (SentDoc sent) →
  dryRun s = false →
  submitMetrics s p ids w = (w1, r1) →
  r1 = Normal tt ∨ (∃ body e, last (trace w1) = Some (ApiSubmit body (Some e))) →
  submitMetrics s p ids w1 = (w2, Normal tt) →
  ∃ batches,
    acceptedCalls (trace w2) = acceptedCalls (trace w) ++ (payloadOf <$> batches)
    ∧ Forall (λ batch, batch `sublist_of` pairUp (series p) ids) batches
    ∧ ∀ x, invocationsOf x batches = if decide (x ∈ ids ∧ x ∉ sent) then 1 else 0.
Proof.
  intros Hf%sentOf_Some Hdry Hfirst _ Hsecond.
  destruct (decide (length (series p) = length ids)) as [Hlen|Hlen].
  2: { by rewrite submitMetrics_mismatch in Hsecond. }
  pose proof (submitMetrics_LoopRun s p ids w Hlen) as Hrun1.
  pose proof (submitMetrics_LoopRun s p ids w1 Hlen) as Hrun2.
  rewrite Hfirst in Hrun1. rewrite Hsecond in Hrun2.
  destruct (LoopRun_accepted _ _ _ _ _ Hrun1 Hdry) as (Hwf1 & b1 & Hc1 & Hs1 & Hinv1);
    [by rewrite Hf|].
  destruct (LoopRun_accepted _ _ _ _ _ Hrun2 Hdry Hwf1) as (_ & b2 & Hc2 & Hs2 & Hinv2).
  cbn [fst snd] in *.
  exists (b1 ++ b2). split_and!.
  - by rewrite Hc2, Hc1, fmap_app, app_assoc.
  - by apply Forall_app.
  - intros x. rewrite invocationsOf_app.
    destruct (Hinv1 x) as (Hold1 & Hnew1). destruct (Hinv2 x) as (Hold2 & Hnew2).
    assert (recorded (files w) (cacheFilePath (workflowCache s)) x = true ↔ x ∈ sent)
      as Hsent.
    { rewrite recorded_true, Hf. split; [by intros (? & [= <-] & ?)|eauto]. }
    assert (x ∈ ids → recorded (files w2) (cacheFilePath (workflowCache s)) x = true)
      as Hall.
    { intros Hx. pose proof (submitMetrics_all_recorded s p ids w1 x) as H.
      rewrite Hsecond in H. by apply H. }
    pose proof (LoopRun_recorded_only _ _ _ _ _ x Hrun1) as Honly1.
    pose proof (LoopRun_recorded_only _ _ _ _ _ x Hrun2) as Honly2.
    pose proof (LoopRun_recorded_mono _ _ _ _ _ (cacheFilePath (workflowCache s)) x Hrun1)
      as Hmono1.
    pose proof (LoopRun_recorded_mono _ _ _ _ _ (cacheFilePath (workflowCache s)) x Hrun2)
      as Hmono2.
    rewrite drop_0, pairUp_workflowId in Honly1, Honly2 by done.
    cbn [fst] in Honly1, Honly2, Hmono1, Hmono2.
    assert (invocationsOf x b1
            = if recorded (files w) (cacheFilePath (workflowCache s)) x then 0
              else if recorded (files w1) (cacheFilePath (workflowCache s)) x
                   then 1 else 0) as ->.
    { destruct (recorded (files w) _ x); auto. }
    assert (invocationsOf x b2
            = if recorded (files w1) (cacheFilePath (workflowCache s)) x then 0
              else if recorded (files w2) (cacheFilePath (workflowCache s)) x
                   then 1 else 0) as ->.
    { destruct (recorded (files w1) _ x); auto. }
    destruct (recorded (files w) (cacheFilePath (workflowCache s)) x);
      destruct (recorded (files w1) (cacheFilePath (workflowCache s)) x);
      destruct (recorded (files w2) (cacheFilePath (workflowCache s)) x);
      case_decide; try lia; exfalso; try tauto; intuition congruence.
Qed.

(** ** The earlier variants of [submitMetrics] *)

(** X16: on an input of matching lengths whose identifiers are distinct
    and none of which is stored, the positional-slice variant does what the
    pairing variant does: with a positive batch size both end the same way,
    leave the same files and perform the same audit writes, Transport calls
    and ledger writes in the same order; they differ only in when they read
    the ledger. *)
Theorem positional_agrees_on_fresh_input s (p : MetricPayload)
    (ids : list string) (w : World) :
  0 < batchSize s →
  length (series p) = length ids →
  NoDup ids →
  (∀ x, x ∈ ids → (hasBeenSent (workflowCache s) x w).2 = Normal false) →
  let res := submitMetrics s p ids w in
  let res' := submitMetrics_positional s p ids w in
  res'.2 = res.2
  ∧ files res'.1 = files res.1
  ∧ withoutReads (trace res'.1) = withoutReads (trace res.1).
Proof.
  intros Hbs Hlen Hnd Hfresh.
  assert (∀ x, x ∈ ids →
               recorded (files w) (cacheFilePath (workflowCache s)) x = false)
    as Hrec.
  { intros x Hx. specialize (Hfresh x Hx). rewrite hasBeenSent_run in Hfresh.
    simpl in Hfresh. congruence. }
  cbv zeta. rewrite submitMetrics_run, submitMetrics_positional_run by done.
  cbv zeta. rewrite (filter_all _ ids) by done.
  case_bool_decide as Hnil.
  - apply nil_length_inv in Hnil. subst ids. simpl in Hlen.
    rewrite processBatches_done by (rewrite length_pairUp; lia).
    cbn [fst snd files trace addTrace]. split_and!; try done.
    by rewrite withoutReads_app, withoutReads_reads, app_nil_r.
  - rewrite Hlen. apply positional_sim; try done.
    cbn [trace addTrace].
    by rewrite withoutReads_app, withoutReads_reads, app_nil_r.
Qed.

(** X17: in live mode the positional-slice variant submits a prefix of
    the payload, whichever identifiers are new: after the ledger has been
    filtered, the Transport receives the first [m * batchSize] points for
    some number [m] of windows, the last of which starts below the number
    [n] of new identifiers; when the call returns, [m * batchSize] is at
    least [n] and every identifier of the input is stored. *)
Theorem positional_submits_prefix s (p : MetricPayload) (ids : list string)
    (w : World) :
  dryRun s = false →
  let path := cacheFilePath (workflowCache s) in
  let res := submitMetrics_positional s p ids w in
  let n := length (filter (λ id, recorded (files w) path id = false) ids) in
  ∃ m,
    submittedPoints (trace res.1)
    = submittedPoints (trace w) ++ take (m * batchSize s) (series p)
    ∧ (m = 0 ∨ (m - 1) * batchSize s < n)
    ∧ (res.2 = Normal tt →
       n ≤ m * batchSize s
       ∧ ∀ x, x ∈ ids → recorded (files res.1) path x = true).
Proof.
  intros Hdry path res n. subst res n.
  rewrite submitMetrics_positional_run. cbv zeta. fold path.
  set (new := filter (λ id, recorded (files w) path id = false) ids).
  set (w1 := addTrace (replicate (length ids) (ReadFile path)) w).
  assert (submittedPoints (trace w1) = submittedPoints (trace w)) as Hw1.
  { unfold w1. cbn [trace addTrace]. rewrite submittedPoints_app.
    unfold submittedPoints at 2. by rewrite apiCalls_reads, app_nil_r. }
  case_bool_decide as Hnil.
  - exists 0. cbn [fst snd]. rewrite Hw1. simpl. rewrite app_nil_r.
    split_and!; [done|by left|].
    intros _. split; [lia|]. intros x Hx.
    apply nil_length_inv in Hnil.
    apply not_false_iff_true. by apply (filter_nil_all _ ids x Hnil).
  - destruct (processSlices_points (S (length new)) s p new 0 w1 Hdry)
      as (m & Hpoints & Hlast & Hret).
    exists m. rewrite Hpoints, Hw1, slice_0. simpl in Hlast, Hret.
    split_and!; [done|done|].
    intros Hres. split; [by apply Hret|].
    intros x Hx.
    destruct (recorded (files w) path x) eqn:Hrec.
    + by apply processSlices_recorded_mono.
    + apply processSlices_marks; [done|]. rewrite drop_0.
      by apply list_elem_of_filter.
Qed.


(** X19: batching changed nothing for small inputs: when neither the
    series nor the identifiers exceed a positive batch size, the
    positional-slice variant does exactly what the unbatched variant did,
    event for event. *)
Theorem positional_small_input s (p : MetricPayload) (ids : list string)
    (w : World) :
  0 < batchSize s →
  length (series p) ≤ batchSize s →
  length ids ≤ batchSize s →
  submitMetrics_positional s p ids w = submitMetrics_unbatched s p ids w.
Proof.
  intros Hbs Hseries Hids.
  rewrite submitMetrics_positional_run, submitMetrics_unbatched_run. cbv zeta.
  set (new := filter _ ids).
  assert (length new ≤ batchSize s) as Hnew.
  { etrans; [apply length_filter|done]. }
  case_bool_decide as Hnil; [done|].
  rewrite processSlices_unfold by lia.
  rewrite !slice_all by done.
  destruct (length new) as [|n] eqn:Hn; [done|].
  destruct p as [ss]. cbn [series] in *.
  etrans; [|apply bind_ret_tt]. unfold bind.
  destruct (deliver s _ new _) as [w2 [[]|e|]]; try done.
  rewrite processSlices_done; [done|lia].
Qed.

(** X20: with batch size 0 the loop of the positional-slice variant never
    ends either, but it is not idle: on a well-formed ledger, in live mode
    with a Transport that accepts, every iteration hands the Transport an
    empty payload. *)
Theorem positional_zero_batchSize fuel s (p : MetricPayload) (new : list string)
    (w : World) sent :
  batchSize s = 0 →
  dryRun s = false →
  accepting (metricsApi s) →
  files w !! cacheFilePath (workflowCache s) = Some (SentDoc sent) →
  new ≠ [] →
  (processSlices fuel s p new 0 w).2 = Diverge
  ∧ apiCalls (trace (processSlices fuel s p new 0 w).1)
    = apiCalls (trace w) ++ replicate fuel {| series := [] |}.
Proof.
  intros Hbs Hdry Hacc Hf Hne. revert w sent Hf.
  induction fuel as [|fuel IH]; intros w sent Hs%sentOf_Some.
  { simpl. by rewrite app_nil_r. }
  rewrite processSlices_unfold by (destruct new; [done|simpl; lia]).
  rewrite Hbs, Nat.add_0_r.
  pose proof (deliver_run s {| series := slice (series p) 0 0 |} (slice new 0 0) w)
    as Hd.
  assert (loggable {| series := slice (series p) 0 0 |} = true) as Hlog by done.
  cbv zeta in Hd. rewrite Hlog, Hdry, Hacc, Hs in Hd.
  erewrite bind_normal by exact Hd.
  match goal with |- context [processSlices fuel s p new 0 ?w'] => set (w1 := w') end.
  destruct (IH w1 (setSpread (sent ++ slice new 0 0))) as [Hres Hcalls].
  { unfold w1. cbn [files]. apply lookup_insert_eq. }
  split; [done|].
  rewrite Hcalls. unfold w1, apiEvents. cbn [trace]. rewrite Hdry.
  rewrite !apiCalls_app. simpl. by rewrite <- app_assoc.
Qed.

(** ** The two modes of [submitMetrics] *)

(** X21: a dry run previews the live run.  On the same input with valid
    dates, with the same positive batch size and ledgers that hold the same
    identifiers, both calls return, and the payloads the dry run writes to
    the audit log are, in order, the payloads the live run hands to a
    Transport that accepts. *)
Theorem dry_run_previews_live_run (sDry sLive : DatadogService)
    (p : MetricPayload) (ids : list string) (wd wl : World) sent sent' :
  dryRun sDry = true →
  dryRun sLive = false →
  batchSize sDry = batchSize sLive →
  0 < batchSize sLive →
  accepting (metricsApi sLive) →
  length (series p) = length ids →
  loggable p = true →
  files wd !! cacheFilePath (workflowCache sDry) = Some (SentDoc sent) →
  files wl !! cacheFilePath (workflowCache sLive) = Some (SentDoc sent') →
  (∀ x, x ∈ sent ↔ x ∈ sent') →
  ∃ bodies,
    auditedPayloads (trace (submitMetrics sDry p ids wd).1)
    = auditedPayloads (trace wd) ++ bodies
    ∧ apiCalls (trace (submitMetrics sDry p ids wd).1) = apiCalls (trace wd)
    ∧ apiCalls (trace (submitMetrics sLive p ids wl).1)
      = apiCalls (trace wl) ++ bodies
    ∧ (submitMetrics sDry p ids wd).2 = Normal tt
    ∧ (submitMetrics sLive p ids wl).2 = Normal tt.
Proof.
  intros Hdry Hlive Hbs Hsize Hacc Hlen Hlog Hfd%sentOf_Some Hfl%sentOf_Some Hsame.
  assert ((submitMetrics sDry p ids wd).2 = Normal tt) as Hretd.
  { apply submitMetrics_returns; [lia|done|done|by left|by rewrite Hfd]. }
  assert ((submitMetrics sLive p ids wl).2 = Normal tt) as Hretl.
  { apply submitMetrics_returns; [done|done|done|by right|by rewrite Hfl]. }
  destruct (LoopRun_audited _ _ _ _ _ (submitMetrics_LoopRun sDry p ids wd Hlen))
    with (sent := sent) as (logs & Hlogs & _ & Hall); [lia| |].
  { intros x. rewrite recorded_true, Hfd. split; [eauto|].
    by intros (? & [= <-] & ?). }
  destruct (LoopRun_deliveries _ _ _ _ _ (submitMetrics_LoopRun sLive p ids wl Hlen)
              Hlive Hsize sent) as (calls & Hcalls & _ & Hall').
  { intros x. rewrite recorded_true, Hfl, Hsame. split; [eauto|].
    by intros (? & [= <-] & ?). }
  exists logs. split_and!; try done.
  - by apply submitMetrics_dry_no_api.
  - rewrite Hcalls. f_equal. rewrite (Hall Hretd), (Hall' Hretl). by rewrite Hbs.
Qed.

(** ** What the ledger added *)


(** ** Splitting an input *)

(** X28: a call on a concatenated input is two calls in a row when the
    cut falls on a window boundary: if the first input has matching
    lengths and fills a whole number of windows, [submitMetrics] on the two
    inputs joined does exactly what [submitMetrics] on the first followed,
    if it returns, by [submitMetrics] on the second does. *)
Theorem submitMetrics_split s (p1 p2 : MetricPayload) (ids1 ids2 : list string)
    (w : World) k :
  0 < batchSize s →
  length (series p1) = length ids1 →
  length (series p2) = length ids2 →
  length ids1 = k * batchSize s →
  submitMetrics s {| series := series p1 ++ series p2 |} (ids1 ++ ids2) w
  = bind (submitMetrics s p1 ids1) (λ _, submitMetrics s p2 ids2) w.
Proof.
  intros Hbs Hlen1 Hlen2 Hk.
  rewrite submitMetrics_run by (cbn [series]; rewrite !length_app; lia).
  cbn [series]. rewrite pairUp_app by done.
  rewrite (processBatches_app_l k s _ _ Hbs 0 w _
             (S (length (series p1))) (S (length (series p2))));
    rewrite ?length_app, ?length_pairUp; try lia.
  unfold bind.
  rewrite <- (submitMetrics_run s p1 ids1 w Hlen1).
  destruct (submitMetrics s p1 ids1 w) as [w1 [[]|e|]]; try done.
  by rewrite submitMetrics_run.
Qed.

(** ** An invalid date *)

(** X29: one invalid date blocks its window and every later one.  Let the
    identifiers of the input be distinct, and let the series at position
    [j] hold a point whose date is invalid while its identifier is not
    stored.  With a positive batch size every call throws, in either mode
    and whatever the Transport answers: the Transport only receives
    sub-batches of the windows before the one of [j], the ledger is as it
    was for the identifiers of that window and of the later ones, and the
    same call made again throws too. *)
Theorem invalid_date_blocks_delivery s (p : MetricPayload) (ids : list string)
    (w : World) j m x :
  let path := cacheFilePath (workflowCache s) in
  let start := j / batchSize s * batchSize s in
  let res := submitMetrics s p ids w in
  0 < batchSize s →
  length (series p) = length ids →
  NoDup ids →
  series p !! j = Some m →
  ids !! j = Some x →
  formatsDates m = false →
  recorded (files w) path x = false →
  (∃ e, res.2 = Throw e)
  ∧ (∀ k y, start ≤ k → ids !! k = Some y →
       recorded (files res.1) path y = recorded (files w) path y)
  ∧ (∃ batches,
       apiCalls (trace res.1) = apiCalls (trace w) ++ (payloadOf <$> batches)
       ∧ Forall (λ batch, batch `sublist_of` take start (pairUp (series p) ids))
           batches)
  ∧ ∃ e, (submitMetrics s p ids res.1).2 = Throw e.
Proof.
  intros path start res Hbs Hlen Hnd Hm Hx Hbad Hrec. subst res.
  destruct (submitMetrics_blocked s p ids w j m x Hbs Hlen Hnd Hm Hx Hbad Hrec)
    as (Hthrow & Hsame & Hcalls).
  split_and!; [done|done|done|].
  apply (submitMetrics_blocked s p ids _ j m x Hbs Hlen Hnd Hm Hx Hbad).
  rewrite (Hsame j x); [done| |done].
  pose proof (Nat.Div0.mul_div_le j (batchSize s)). lia.
Qed.
End Coordinator.

Arguments MetricPayload : clear implicits.
Arguments Event : clear implicits.
Arguments World : clear implicits.
Arguments Pair : clear implicits.
Arguments DatadogService : clear implicits.
Arguments Process : clear implicits.
Arguments MetricsApi : clear implicits.

(** * Counterexamples and the non-equivalence of the two variants *)

(** C2, as stated, fails when an identifier of the failing window also
    sits in an earlier window: with batch size 2 and identifiers
    a, b, a, c the first window is delivered and stores a and b; the second
    window, a and c, submits only the point of c and is rejected; a, an
    identifier of the failing window, has been added by this very call. *)
Lemma C2_counterexample :
  let s := testService false 2 (rejectAfter 1 (JsError "API Error")) in
  let ids := ["a"; "b"; "a"; "c"] in
  let w := ledgerWorld [] in
  let res := submitMetrics s {| series := ["m1"; "m2"; "m3"; "m4"] |} ids w in
  ¬ (ApiSubmit {| series := ["m4"] |} (Some (JsError "API Error")) ∈ trace res.1 →
     ∀ x, x ∈ drop 2 ids →
          recorded (files res.1) testPath x = recorded (files w) testPath x).
Proof.
  intros s ids w res H.
  assert (ApiSubmit {| series := ["m4"] |} (Some (JsError "API Error")) ∈ trace res.1)
    as Hrej.
  { set (tr := trace res.1). vm_compute in tr. subst tr. repeat constructor. }
  specialize (H Hrej "a" ltac:(repeat constructor)).
  vm_compute in H. discriminate H.
Qed.

(** C4, as stated, fails when the third identifier repeats one of the
    first two: with batch size 2, an empty ledger and identifiers a, b, a
    the second window is skipped, and the call makes one Transport call,
    not two. *)
Lemma C4_counterexample :
  let s := testService false 2 acceptAll in
  let res := submitMetrics s {| series := ["m1"; "m2"; "m3"] |} ["a"; "b"; "a"]
               (ledgerWorld []) in
  ¬ (length (apiCalls (trace res.1)) = 2)
  ∧ res.2 = Normal tt
  ∧ apiCalls (trace res.1) = [{| series := ["m1"; "m2"] |}].
Proof. vm_compute. split_and!; [discriminate|reflexivity|reflexivity]. Qed.

(** C8: with a and c already delivered and identifiers a, b, c, d, the
    positional-slice variant submits the points of a and b, so it resubmits a
    delivered point and never submits the one of d, where the pairing variant
    submits the points of b and d; and every live call of the pairing variant
    submits, in input order, only points whose identifier is undelivered when
    their window is filtered (neither in the ledger before the call nor
    among the identifiers of an earlier window): all of them when the call
    returns, a prefix of them when it fails. *)
Theorem C8_strategies_not_equivalent :
  (∃ (s : DatadogService string) (p : MetricPayload string) ids w,
      let path := cacheFilePath (workflowCache s) in
      let positional := submitMetrics_positional s p ids w in
      let pairing := submitMetrics s p ids w in
      (∃ a b c, ids !! 0 = Some a ∧ ids !! 1 = Some b ∧ ids !! 2 = Some c
                ∧ recorded (files w) path a = true
                ∧ recorded (files w) path b = false
                ∧ recorded (files w) path c = true)
      ∧ positional.2 = Normal tt
      ∧ pairing.2 = Normal tt
      ∧ (∃ m, m ∈ submittedPoints (trace positional.1)
              ∧ m ∉ submittedPoints (trace pairing.1))
      ∧ (∃ m, m ∈ submittedPoints (trace pairing.1)
              ∧ m ∉ submittedPoints (trace positional.1)))
  ∧ (∀ Series `{!Dated Series} (s : DatadogService Series)
       (p : MetricPayload Series) ids w,
      dryRun s = false →
      0 < batchSize s →
      length (series p) = length ids →
      let res := submitMetrics s p ids w in
      let due := pointsDueFrom (batchSize s)
                   (storedIds (files w) (cacheFilePath (workflowCache s)))
                   ids 0 (pairUp (series p) ids) in
      ∃ points,
        submittedPoints (trace res.1) = submittedPoints (trace w) ++ points
        ∧ points `prefix_of` due
        ∧ (res.2 = Normal tt → points = due)).
Proof.
  split; [|intros Series ?; apply submitMetrics_points].
  exists (testService false 2 acceptAll),
         {| series := ["ma"; "mb"; "mc"; "md"] |},
         ["a"; "b"; "c"; "d"],
         (ledgerWorld ["a"; "c"]).
  split_and!.
  - exists "a", "b", "c". by vm_compute.
  - by vm_compute.
  - by vm_compute.
  - exists "ma". vm_compute submittedPoints. split.
    + repeat constructor.
    + rewrite !not_elem_of_cons. split_and!; try discriminate. apply not_elem_of_nil.
  - exists "md". vm_compute submittedPoints. split.
    + repeat constructor.
    + rewrite !not_elem_of_cons. split_and!; try discriminate. apply not_elem_of_nil.
Qed.

(** * The scenarios of the test suite *)

(** Three pairs, batch size 2, wf-2 delivered before: the first window is
    filtered to wf-1, the second is wf-3; two Transport calls of one point
    each, and the ledger ends with the three identifiers. *)
Example end_to_end_scenario :
  let s := testService false 2 acceptAll in
  let res := submitMetrics s {| series := ["m1"; "m2"; "m3"] |}
               ["wf-1"; "wf-2"; "wf-3"] (ledgerWorld ["wf-2"]) in
  res.2 = Normal tt
  ∧ apiCalls (trace res.1) = [{| series := ["m1"] |}; {| series := ["m3"] |}]
  ∧ files res.1 !! testPath = Some (SentDoc ["wf-2"; "wf-1"; "wf-3"]).
Proof. vm_compute. split_and!; reflexivity. Qed.

(** A rejected call leaves the ledger as it was, and an [Error] goes
    through unchanged while any other thrown value becomes the fixed unknown
    error. *)
Example rejected_call_scenario :
  let w : World string := ledgerWorld [] in
  let known := testService false 10 (rejectAfter 0 (JsError "API Error")) in
  let unknown := testService false 10 (rejectAfter 0 (NonError "Unknown error")) in
  (submitMetrics known {| series := ["m1"] |} ["workflow-1"] w).2
  = Throw (JsError "API Error")
  ∧ (submitMetrics unknown {| series := ["m1"] |} ["workflow-1"] w).2
    = Throw (JsError "Unknown error submitting metrics")
  ∧ files (submitMetrics known {| series := ["m1"] |} ["workflow-1"] w).1 = files w.
Proof. vm_compute. split_and!; reflexivity. Qed.

(** A new service object on the same files sees the earlier deliveries. *)
Example restart_scenario :
  let first := testService false 10 acceptAll in
  let second := testService false 10 acceptAll in
  let w1 := (submitMetrics first {| series := ["m1"] |} ["workflow-1"]
               (ledgerWorld [])).1 in
  let res := submitMetrics second {| series := ["m1"] |} ["workflow-1"] w1 in
  res.2 = Normal tt ∧ apiCalls (trace res.1) = apiCalls (trace w1).
Proof. vm_compute. split; reflexivity. Qed.

(** A point with an invalid date: the audit log throws while it formats
    the sub-batch, before anything is written or submitted. *)
Example invalid_date_scenario :
  let w : World string := ledgerWorld [] in
  submitMetrics (testService false 10 acceptAll) {| series := ["NaN"] |}
    ["workflow-1"] w
  = (addTrace [ReadFile testPath] w, Throw (JsError "Invalid time value")).
Proof. vm_compute. reflexivity. Qed.

(** With batch size 0 the loop index never advances. *)
Example zero_batch_size_scenario :
  (submitMetrics (testService false 0 acceptAll) {| series := ["m1"] |}
     ["workflow-1"] (ledgerWorld [])).2 = Diverge.
Proof. vm_compute. reflexivity. Qed.

(** * Instances of the theorems at concrete inputs *)

Lemma C1_witness :
  let s := testService false 2 acceptAll in
  let p := {| series := ["m1"; "m2"; "m3"] |} in
  let ids := ["wf-1"; "wf-2"; "wf-3"] in
  let w := ledgerWorld [] in
  let w1 := (submitMetrics s p ids w).1 in
  submitMetrics s p ids w = (w1, Normal tt)
  ∧ ∃ w2, submitMetrics s p ids w1 = (w2, Normal tt)
          ∧ apiCalls (trace w2) = apiCalls (trace w1).
Proof.
  intros s p ids w w1.
  assert (submitMetrics s p ids w = (w1, Normal tt)) as Hfirst
    by (vm_compute; reflexivity).
  split; [exact Hfirst|].
  destruct (proj1 (@C1_idempotent_submission string _) s p ids w w1 Hfirst)
    as (w2 & n & batches & Hsecond & _ & Hcalls & _).
  exists w2. split; [exact Hsecond|exact Hcalls].
Defined.

Lemma C2_witness :
  let s := testService false 2 (rejectAfter 1 (JsError "API Error")) in
  let p := {| series := ["m1"; "m2"; "m3"; "m4"] |} in
  let ids := ["a"; "b"; "c"; "d"] in
  let w := ledgerWorld [] in
  let res := submitMetrics s p ids w in
  let body := {| series := ["m3"; "m4"] |} in
  trace res.1 = trace w ++ trace res.1
  ∧ ApiSubmit body (Some (JsError "API Error")) ∈ trace res.1
  ∧ res.2 = Throw (JsError "API Error").
Proof.
  intros s p ids w res body.
  assert (trace res.1 = trace w ++ trace res.1) as Ht by reflexivity.
  assert (ApiSubmit body (Some (JsError "API Error")) ∈ trace res.1) as Hin.
  { set (tr := trace res.1). vm_compute in tr. subst tr. repeat constructor. }
  split; [exact Ht|]. split; [exact Hin|].
  exact (proj1 (proj2 (C2_no_write_after_failure s p ids w (trace res.1) body
                         (JsError "API Error") Ht Hin))).
Defined.

Lemma C3_witness :
  let s := testService false 10 acceptAll in
  let p := {| series := ["m1"] |} in
  let ids := ["workflow-1"; "workflow-2"] in
  length (series p) ≠ length ids
  ∧ submitMetrics s p ids (ledgerWorld [])
    = (ledgerWorld [],
       Throw (JsError "Mismatch between series (1) and workflow IDs (2)")).
Proof.
  intros s p ids.
  assert (length (series p) ≠ length ids) as Hne by (simpl; lia).
  split; [exact Hne|].
  exact (C3_pairing_mismatch s p ids (ledgerWorld []) Hne).
Defined.

Lemma C4_witness :
  let s := testService false 2 acceptAll in
  let w := ledgerWorld [] in
  ∃ w',
    submitMetrics s {| series := ["m1"; "m2"; "m3"] |} ["wf-1"; "wf-2"; "wf-3"] w
    = (w', Normal tt)
    ∧ apiCalls (trace w')
      = apiCalls (trace w) ++ [{| series := ["m1"; "m2"] |}; {| series := ["m3"] |}].
Proof.
  intros s w.
  apply (proj2 (proj2 (proj2 (@C4_batch_partitioning string _)))).
  - reflexivity.
  - reflexivity.
  - intros history body. reflexivity.
  - vm_compute. reflexivity.
  - repeat constructor.
  - discriminate.
  - discriminate.
Defined.

Lemma C5_witness :
  let optsDry := Some {| opt_dryRun := Some true; opt_batchSize := None |} in
  let w1 := (newDatadogService (@testProcess string) optsDry emptyWorld).1 in
  let w2 := (newDatadogService (@testProcess string) None w1).1 in
  let sDry := @testDryRunService string in
  let sLive := @testService string false 10 acceptAll in
  let res := submitMetrics sDry {| series := ["m1"] |} ["workflow-1"] w2 in
  newDatadogService testProcess optsDry emptyWorld = (w1, Normal sDry)
  ∧ newDatadogService testProcess None w1 = (w2, Normal sLive)
  ∧ res.2 = Normal tt
  ∧ apiCalls (trace res.1) = apiCalls (trace w2)
  ∧ (hasBeenSent (workflowCache sDry) "workflow-1" res.1).2 = Normal true
  ∧ (hasBeenSent (workflowCache sLive) "workflow-1" res.1).2 = Normal false.
Proof.
  intros optsDry w1 w2 sDry sLive res.
  assert (newDatadogService testProcess optsDry emptyWorld = (w1, Normal sDry))
    as Hdry
    by (vm_compute; reflexivity).
  assert (newDatadogService testProcess None w1 = (w2, Normal sLive)) as Hlive
    by (vm_compute; reflexivity).
  assert ((hasBeenSent (workflowCache sLive) "workflow-1" w2).2 = Normal false)
    as Hbefore by (vm_compute; reflexivity).
  destruct (C5_mode_isolation _ _ _ _ _ _ _ _ _ _ Hdry Hlive eq_refl eq_refl eq_refl)
    as (_ & Hd & _).
  destruct (Hd {| series := ["m1"] |} ["workflow-1"] w2)
    as (Hcalls & _ & Hsame & _ & Hmarks).
  destruct (Hmarks [] ltac:(vm_compute; reflexivity) ltac:(simpl; lia) eq_refl
              eq_refl) as [Hres Hin].
  split; [exact Hdry|]. split; [exact Hlive|]. split; [exact Hres|].
  split; [exact Hcalls|]. split.
  - apply Hin. right. repeat constructor.
  - exact (eq_trans (Hsame "workflow-1") Hbefore).
Defined.

Lemma C6_witness :
  let ops := [OpMarkAsSent ["wf-1"]; OpHasBeenSent "wf-2"] in
  files (@emptyWorld string) !! Path.join "/app" "cache" "ledger.json" = None
  ∧ ∃ c (w1 w2 : World string),
      newWorkflowCache "/app" "ledger.json" emptyWorld = (w1, Normal c)
      ∧ runOps c ops w1 = (w2, Normal tt)
      ∧ ((hasBeenSent c "wf-1" w2).2 = Normal true ↔ "wf-1" ∈ markedIn ops).
Proof.
  intros ops.
  assert (files (@emptyWorld string) !! Path.join "/app" "cache" "ledger.json"
          = None) as Hnone by (vm_compute; reflexivity).
  split; [exact Hnone|].
  exact (proj2 (proj2 (proj2 (@C6_hasBeenSent_fails_open string)))
           "/app" "ledger.json" ops "wf-1" emptyWorld Hnone).
Defined.

Lemma C7_witness :
  let c := {| cacheFilePath := testPath |} in
  let w := @ledgerWorld string ["a"] in
  files w !! cacheFilePath c = Some (SentDoc ["a"])
  ∧ ∃ w' sent',
      markAsSent c ["b"; "a"; "b"] w = (w', Normal tt)
      ∧ files w' !! cacheFilePath c = Some (SentDoc sent')
      ∧ NoDup sent'.
Proof.
  intros c w.
  assert (files w !! cacheFilePath c = Some (SentDoc ["a"])) as Hf
    by (vm_compute; reflexivity).
  split; [exact Hf|].
  destruct (proj1 (@C7_markAsSent_set_insert string _) c ["b"; "a"; "b"] w ["a"] Hf)
    as (w' & sent' & Hrun & Hf' & Hnd & _).
  exists w', sent'. split; [exact Hrun|]. split; [exact Hf'|exact Hnd].
Defined.

Lemma C8_witness :
  let s := testService false 2 acceptAll in
  let p := {| series := ["ma"; "mb"; "mc"; "md"] |} in
  let ids := ["a"; "b"; "c"; "d"] in
  let w := ledgerWorld ["a"; "c"] in
  let res := submitMetrics s p ids w in
  res.2 = Normal tt
  ∧ submittedPoints (trace res.1) = ["mb"; "md"].
Proof.
  intros s p ids w res.
  assert (res.2 = Normal tt) as Hres by (vm_compute; reflexivity).
  split; [exact Hres|].
  destruct (proj2 C8_strategies_not_equivalent string _ s p ids w
              eq_refl ltac:(simpl; lia) eq_refl)
    as (points & Hpoints & _ & Hall).
  fold res in Hpoints, Hall. rewrite Hpoints, (Hall Hres).
  vm_compute. reflexivity.
Defined.

Lemma C9_witness :
  let s := testService false 2 acceptAll in
  let p := {| series := ["m1"; "m2"] |} in
  let ids := ["a"; "a"] in
  let w := ledgerWorld [] in
  (hasBeenSent (workflowCache s) "a" w).2 = Normal false
  ∧ ∃ body rest,
      trace (submitMetrics s p ids w).1
      = trace w
          ++ replicate (length (take (batchSize s) ids))
               (ReadFile (cacheFilePath (workflowCache s)))
          ++ [AuditLog false body;
              ApiSubmit body (metricsApi s (apiCalls (trace w)) body)] ++ rest
      ∧ ["m1"; "m2"] `sublist_of` series body.
Proof.
  intros s p ids w.
  assert ((hasBeenSent (workflowCache s) "a" w).2 = Normal false) as Hnew
    by (vm_compute; reflexivity).
  split; [exact Hnew|].
  apply (proj2 (proj2 (@C9_no_dedup_within_window string _))
           s p ids 0 1 "a" "m1" "m2" w);
    try reflexivity; try exact Hnew; try (repeat constructor); simpl; lia.
Defined.

Lemma C10_witness :
  let s := testService false 2 acceptAll in
  let p := {| series := ["m1"] |} in
  let w := corruptWorld in
  brokenLedger (files w) (cacheFilePath (workflowCache s))
  ∧ ∃ message,
      submitMetrics s p ["a"] w
      = (addTrace [ReadFile testPath;
                   AuditLog false p; ApiSubmit p None;
                   ReadFile testPath] w,
         Throw (JsError message)).
Proof.
  intros s p w.
  assert (brokenLedger (files w) (cacheFilePath (workflowCache s))) as Hb
    by (right; right; left; vm_compute; reflexivity).
  split; [exact Hb|].
  destruct (proj2 (@C10_markAsSent_fails_closed string _) s p ["a"] w
              eq_refl ltac:(simpl; lia) eq_refl ltac:(discriminate) Hb eq_refl
              eq_refl)
    as [_ [message Hrun]].
  exists message. exact Hrun.
Defined.

(** * The transformer *)

Section TransformerFacts.

Import Transformers.

Context {Num : Type} (parseTimestamp parseFloat : option string → Num).

Local Abbreviation toSeries := (toSeries parseTimestamp parseFloat).
Local Abbreviation transformToDatadogMetric :=
  (transformToDatadogMetric parseTimestamp parseFloat).

Lemma append_cons c (s t : string) : String c s +:+ t = String c (s +:+ t).
Proof. done. Qed.

Lemma append_nil (t : string) : "" +:+ t = t.
Proof. done. Qed.

Lemma split_nonempty sep s : split sep s ≠ [].
Proof.
  destruct s as [|c s]; simpl; [done|].
  destruct (Ascii.eqb c sep); [done|]. by destruct (split sep s).
Qed.

Lemma split_lookup_1_cons c s :
  Ascii.eqb c colon = false →
  split colon (String c s) !! 1 = split colon s !! 1.
Proof.
  intros Hc. simpl. rewrite Hc.
  pose proof (split_nonempty colon s). by destruct (split colon s).
Qed.

Lemma split_lookup_1_colon c s :
  Ascii.eqb c colon = true →
  split colon (String c s) !! 1 = split colon s !! 0.
Proof. intros Hc. simpl. by rewrite Hc. Qed.

Lemma split_lookup_0 s : is_Some (split colon s !! 0).
Proof.
  pose proof (split_nonempty colon s). destruct (split colon s); [done|].
  simpl. eauto.
Qed.

(** What [formatTags] finds after the first colon of a tag made of a name
    without colon, a colon and a value. *)
Lemma parts_1_of_tag (tag_ v : string) :
  tag_ ∈ ["project_slug"; "branch"; "workflow"; "status"] →
  split colon (tag_ +:+ ":" +:+ v) !! 1 = Some (firstPart v).
Proof.
  unfold firstPart. destruct (split_lookup_0 v) as [part Hpart].
  intros Hin. repeat (apply elem_of_cons in Hin as [->|Hin]);
    [..|by apply elem_of_nil in Hin];
    rewrite !append_cons, append_nil;
    rewrite !split_lookup_1_cons by done;
    by rewrite split_lookup_1_colon, Hpart.
Qed.

Lemma missingTags_nil tags : missingTags tags = [].
Proof.
  unfold missingTags. apply filter_none. intros tag_ Hin.
  apply not_false_iff_true, bool_decide_eq_true.
  unfold REQUIRED_TAGS, formattedTags in *.
  repeat (apply elem_of_cons in Hin as [->|Hin]); [..|by apply elem_of_nil in Hin].
  - rewrite bool_decide_eq_true_2 by done. apply list_elem_of_here.
  - rewrite bool_decide_eq_false_2 by done. simpl.
    do 1 apply list_elem_of_further. apply list_elem_of_here.
  - rewrite bool_decide_eq_false_2 by done. simpl.
    do 2 apply list_elem_of_further. apply list_elem_of_here.
  - rewrite bool_decide_eq_false_2 by done. simpl.
    do 3 apply list_elem_of_further. apply list_elem_of_here.
  - rewrite bool_decide_eq_false_2 by done. simpl.
    do 4 apply list_elem_of_further. apply list_elem_of_here.
Qed.

Ltac in_list := rewrite ?elem_of_cons; auto 10.

Lemma processBranch_range b :
  processBranch b ∈ ["master"; "staging"; "uat"; "feature"; "null"].
Proof.
  destruct b as [b|]; simpl; [|in_list].
  case_bool_decide as Hb; [|in_list].
  repeat (apply elem_of_cons in Hb as [->|Hb]); [..|by apply elem_of_nil in Hb];
    in_list.
Qed.

Lemma processStatus_Some st st' :
  processStatus st = Some st' ↔ st' = st ∧ (st = "success" ∨ st = "failed").
Proof.
  unfold processStatus. case_bool_decide; split.
  - by intros [= <-].
  - by intros [-> _].
  - done.
  - tauto.
Qed.

Lemma foundMissingValues_spec tags :
  tag_branch tags ∈ ["master"; "staging"; "uat"; "feature"; "null"] →
  tag_status tags ∈ ["success"; "failed"] →
  foundMissingValues tags
  = bool_decide (String.length (trim (firstPart (tag_project_slug tags))) = 0)
    || bool_decide (String.length (trim (firstPart (tag_workflow tags))) = 0).
Proof.
  intros Hb Hst. unfold foundMissingValues, formattedTags. cbn [existsb].
  change ("project_slug:" +:+ tag_project_slug tags)
    with ("project_slug" +:+ ":" +:+ tag_project_slug tags).
  change ("branch:" +:+ tag_branch tags) with ("branch" +:+ ":" +:+ tag_branch tags).
  change ("workflow:" +:+ tag_workflow tags)
    with ("workflow" +:+ ":" +:+ tag_workflow tags).
  change ("status:" +:+ tag_status tags) with ("status" +:+ ":" +:+ tag_status tags).
  rewrite !parts_1_of_tag by in_list.
  assert (bool_decide (String.length (trim (firstPart (tag_branch tags))) = 0) = false)
    as ->.
  { repeat (apply elem_of_cons in Hb as [->|Hb]); [..|by apply elem_of_nil in Hb];
      done. }
  assert (bool_decide (String.length (trim (firstPart (tag_status tags))) = 0) = false)
    as ->.
  { repeat (apply elem_of_cons in Hst as [->|Hst]); [..|by apply elem_of_nil in Hst];
      done. }
  change (split colon ENV_TAG !! 1) with (Some "ci").
  change (bool_decide (String.length (trim "ci") = 0)) with false.
  simpl. by rewrite !orb_false_r.
Qed.

Lemma filterIndexed_mask (pre data : list BigQueryWorkflowData) :
  filterIndexed
    (λ _ ind, match (toSeries <$> pre ++ data) !! ind with
              | Some None => false
              | _ => true
              end)
    (length pre) (workflow_id <$> data)
  = workflow_id <$> filter (λ r, is_Some (toSeries r)) data.
Proof.
  revert pre. induction data as [|r data IH]; intros pre; [done|].
  cbn [fmap list_fmap filterIndexed].
  rewrite fmap_app, lookup_app_r by (by rewrite length_fmap).
  rewrite length_fmap, Nat.sub_diag. cbn [fmap list_fmap lookup list_lookup].
  specialize (IH (pre ++ [r])). rewrite length_app, Nat.add_1_r in IH.
  rewrite <- app_assoc in IH. simpl in IH. rewrite fmap_app in IH.
  cbn [fmap list_fmap] in IH. rewrite IH.
  rewrite filter_cons. destruct (toSeries r) eqn:Hr.
  - rewrite decide_True by eauto. done.
  - rewrite decide_False by (by intros []). done.
Qed.

Lemma omap_toSeries (data : list BigQueryWorkflowData) :
  Some <$> omap id (toSeries <$> data)
  = toSeries <$> filter (λ r, is_Some (toSeries r)) data.
Proof.
  induction data as [|r data IH]; [done|].
  rewrite filter_cons. cbn [fmap list_fmap omap list_omap id].
  destruct (toSeries r) eqn:Hr.
  - rewrite decide_True by eauto. cbn [fmap list_fmap]. rewrite Hr. by f_equal.
  - rewrite decide_False by (by intros []). done.
Qed.

Lemma toSeries_Some record sr :
  toSeries record = Some sr ↔
  ∃ m c wf st slug id,
    minutes record = Some m ∧ created_at record = Some c
    ∧ workflow_name record = Some wf ∧ status record = Some st
    ∧ project_slug record = Some slug ∧ workflow_id record = Some id
    ∧ (st = "success" ∨ st = "failed")
    ∧ String.length (trim (firstPart slug)) ≠ 0
    ∧ String.length (trim (firstPart wf)) ≠ 0
    ∧ sr = {| metric := "ci.workflow.duration";
              type_ := 3;
              points := [{| timestamp := parseTimestamp (Some c);
                            value := parseFloat (Some m) |}];
              unit_ := "minutes";
              tags := ["env:ci"; "project_slug:" +:+ slug;
                       "branch:" +:+ processBranch (branch record);
                       "workflow:" +:+ wf; "status:" +:+ st] |}.
Proof.
  unfold Transformers.toSeries, processTags, isValidRecord.
  destruct record as [m c b wf st slug id]. cbn [minutes created_at branch
    workflow_name status project_slug workflow_id].
  destruct m as [m|], c as [c|], wf as [wf|], st as [st|], slug as [slug|],
    id as [id|];
    try (cbn; split; [done|]; intros (?&?&?&?&?&?&?&?&?&?&?&?&?); done).
  rewrite !bool_decide_eq_true_2 by done.
  cbn [andb negb].
  destruct (processStatus st) as [st'|] eqn:Hst.
  2: { split; [done|]. intros (?&?&?&?&?&?&_&_&_&[= <-]&_&_&Hok&_).
       assert (processStatus st = Some st) as H by (by apply processStatus_Some).
       congruence. }
  apply processStatus_Some in Hst as [-> Hst].
  unfold formatTags. rewrite missingTags_nil. cbn [length].
  rewrite bool_decide_eq_false_2 by lia.
  rewrite foundMissingValues_spec.
  2: { apply processBranch_range. }
  2: { cbn. destruct Hst as [->| ->]; in_list. }
  cbn [tag_project_slug tag_workflow].
  destruct (bool_decide (String.length (trim (firstPart slug)) = 0)) eqn:H1;
    [|destruct (bool_decide (String.length (trim (firstPart wf)) = 0)) eqn:H2].
  - apply bool_decide_eq_true in H1. cbn. split; [done|].
    intros (?&?&?&?&?&?&_&_&_&_&[= <-]&_&_&?&_). done.
  - apply bool_decide_eq_true in H2. cbn. split; [done|].
    intros (?&?&?&?&?&?&_&_&[= <-]&_&_&_&_&_&?&_). done.
  - apply bool_decide_eq_false in H1, H2. cbn [orb]. split.
    + intros [= <-]. by exists m, c, wf, st, slug, id.
    + intros (?&?&?&?&?&?&[= <-]&[= <-]&[= <-]&[= <-]&[= <-]&_&_&_&_&->). done.
Qed.

(** X23: the transformer keeps series and identifiers aligned: the series
    it returns are those of the rows its callback accepts, in order, the
    identifiers are the [workflow_id]s of the same rows, none of them
    [null], and so the two lists have the same length. *)
Theorem transform_keeps_ids_aligned (data : list BigQueryWorkflowData) :
  let res := transformToDatadogMetric data in
  let accepted := filter (λ r, is_Some (toSeries r)) data in
  Some <$> series res.1 = toSeries <$> accepted
  ∧ res.2 = workflow_id <$> accepted
  ∧ Forall (λ id, id ≠ None) res.2
  ∧ length (series res.1) = length res.2.
Proof.
  intros res accepted.
  assert (Some <$> series res.1 = toSeries <$> accepted) as Hseries
    by apply omap_toSeries.
  assert (res.2 = workflow_id <$> accepted) as Hids
    by apply (filterIndexed_mask []).
  split_and!; [done|done| |].
  - rewrite Hids. apply Forall_fmap, Forall_forall. intros r Hr.
    apply list_elem_of_filter in Hr as [[sr Hsr] _].
    apply toSeries_Some in Hsr as (?&?&?&?&?&id&_&_&_&_&_&Hid&_). simpl. congruence.
  - rewrite Hids, length_fmap, <- (length_fmap toSeries accepted), <- Hseries.
    by rewrite length_fmap.
Qed.

(** X24: which rows the transformer keeps.  A row yields a series exactly
    when none of its fields but [branch] is [null], its status is
    [success] or [failed], and the part of its project slug and of its
    workflow name before the first colon is not blank; the series then has
    the fixed metric name, type and unit, one point made from the row's
    timestamp and minutes, and the five tags made from the row. *)
Theorem transform_accepts record :
  (is_Some (toSeries record) ↔
   ∃ m c wf st slug wid,
     minutes record = Some m ∧ created_at record = Some c
     ∧ workflow_name record = Some wf ∧ status record = Some st
     ∧ project_slug record = Some slug ∧ workflow_id record = Some wid
     ∧ (st = "success" ∨ st = "failed")
     ∧ String.length (trim (firstPart slug)) ≠ 0
     ∧ String.length (trim (firstPart wf)) ≠ 0)
  ∧ (∀ sr,
       toSeries record = Some sr →
       ∃ m c wf st slug,
         minutes record = Some m ∧ created_at record = Some c
         ∧ workflow_name record = Some wf ∧ status record = Some st
         ∧ project_slug record = Some slug
         ∧ sr = {| metric := "ci.workflow.duration";
                   type_ := 3;
                   points := [{| timestamp := parseTimestamp (Some c);
                                 value := parseFloat (Some m) |}];
                   unit_ := "minutes";
                   tags := ["env:ci"; "project_slug:" +:+ slug;
                            "branch:" +:+ processBranch (branch record);
                            "workflow:" +:+ wf; "status:" +:+ st] |}).
Proof.
  split.
  - split.
    + intros [sr Hsr].
      apply toSeries_Some in Hsr as (m&c&wf&st&slug&wid&?&?&?&?&?&?&?&?&?&_).
      by exists m, c, wf, st, slug, wid.
    + intros (m&c&wf&st&slug&wid&?&?&?&?&?&?&?&?&?).
      eexists. apply toSeries_Some. exists m, c, wf, st, slug, wid.
      by split_and!.
  - intros sr Hsr.
    apply toSeries_Some in Hsr
      as (m&c&wf&st&slug&wid&Hm&Hc&Hwf&Hst&Hslug&_&_&_&_&->).
    by exists m, c, wf, st, slug.
Qed.

(** X25: the check of [formatTags] for missing required tags never
    fires: whatever the tags, every required tag is found among the
    formatted ones, so [formatTags] returns [null] only for a blank
    value. *)
Theorem formatTags_required_tags_always_present tags :
  missingTags tags = []
  ∧ (formatTags tags = None ↔ foundMissingValues tags = true).
Proof.
  split; [apply missingTags_nil|].
  unfold formatTags. rewrite missingTags_nil. cbn [length].
  rewrite bool_decide_eq_false_2 by lia.
  by destruct (foundMissingValues tags).
Qed.

(** X26: every series the transformer returns carries a branch tag from
    the five branch classes and a status tag that is [success] or
    [failed]; a [null] branch is classed [null], the three long-lived
    branches keep their name and every other branch is a [feature]. *)
Theorem transform_branch_classes (data : list BigQueryWorkflowData) sr :
  sr ∈ series (transformToDatadogMetric data).1 →
  ∃ record slug wf st,
    record ∈ data
    ∧ tags sr = ["env:ci"; "project_slug:" +:+ slug;
                 "branch:" +:+ processBranch (branch record);
                 "workflow:" +:+ wf; "status:" +:+ st]
    ∧ st ∈ ["success"; "failed"]
    ∧ processBranch (branch record) ∈ ["master"; "staging"; "uat"; "feature"; "null"]
    ∧ (branch record = None → processBranch (branch record) = "null")
    ∧ (∀ b, branch record = Some b →
            processBranch (branch record)
            = if bool_decide (b = "master" ∨ b = "staging" ∨ b = "uat")
              then b else "feature").
Proof.
  cbn [transformToDatadogMetric fst series].
  intros (o & (record & -> & Hin)%list_elem_of_fmap & Hsr)%list_elem_of_omap.
  cbn [id] in Hsr.
  apply toSeries_Some in Hsr as (m&c&wf&st&slug&i&_&_&_&_&_&_&Hst&_&_&->).
  exists record, slug, wf, st. split_and!; try done.
  - destruct Hst as [->| ->]; in_list.
  - apply processBranch_range.
  - by intros ->.
  - intros b ->. simpl.
    rewrite (bool_decide_ext (b ∈ ["master"; "staging"; "uat"])
               (b = "master" ∨ b = "staging" ∨ b = "uat")); [done|].
    rewrite !elem_of_cons, elem_of_nil. tauto.
Qed.

End TransformerFacts.

(** * From the transformer to the coordinator *)

Section Pipeline.

Context {Num : Type} `{!Transformers.DateCheck Num}.
Context (parseTimestamp parseFloat : option string → Num).

(** X27: what the transformer returns can always be submitted: its
    identifiers are strings, [submitMetrics] never throws the mismatch
    error on them but enters its loop, and the loop pairs every series with
    the [workflow_id] of the row the series was made from. *)
Theorem transformed_rows_are_paired
    (s : DatadogService (Transformers.MetricSeries Num))
    (data : list Transformers.BigQueryWorkflowData)
    (w : World (Transformers.MetricSeries Num)) :
  let res := Transformers.transformToDatadogMetric parseTimestamp parseFloat data in
  ∃ ids,
    res.2 = Some <$> ids
    ∧ length (Transformers.series res.1) = length ids
    ∧ submitMetrics s {| series := Transformers.series res.1 |} ids w
      = processBatches (S (length ids)) s
          (pairUp (Transformers.series res.1) ids) 0 w
    ∧ Forall (λ pair,
                ∃ record,
                  record ∈ data
                  ∧ Transformers.toSeries parseTimestamp parseFloat record
                    = Some (payload pair)
                  ∧ Transformers.workflow_id record = Some (workflowId pair))
             (pairUp (Transformers.series res.1) ids).
Proof.
  intros res.
  set (accepted :=
         filter (λ r, is_Some (Transformers.toSeries parseTimestamp parseFloat r))
           data).
  assert (Some <$> Transformers.series res.1
          = Transformers.toSeries parseTimestamp parseFloat <$> accepted) as Hseries
    by apply omap_toSeries.
  assert (res.2 = Transformers.workflow_id <$> accepted) as Hids
    by apply (filterIndexed_mask parseTimestamp parseFloat []).
  assert (∀ r, r ∈ accepted → is_Some (Transformers.workflow_id r)) as Hsome.
  { intros r [[sr Hsr] _]%list_elem_of_filter.
    apply toSeries_Some in Hsr as (?&?&?&?&?&wid&_&_&_&_&_&->&_). eauto. }
  set (ids := (λ r, default "" (Transformers.workflow_id r)) <$> accepted).
  assert (res.2 = Some <$> ids) as Hids'.
  { rewrite Hids. unfold ids. rewrite <- list_fmap_compose.
    apply Forall_fmap_ext, Forall_forall. intros r Hr.
    destruct (Hsome r Hr) as [wid Hwid]. simpl. by rewrite Hwid. }
  assert (length (Transformers.series res.1) = length ids) as Hlen.
  { unfold ids. rewrite length_fmap, <- (length_fmap Some), Hseries.
    by rewrite length_fmap. }
  exists ids. split_and!; [done|done| |].
  - rewrite submitMetrics_run by done. cbn [series]. by rewrite Hlen.
  - apply Forall_forall. intros pair [j Hj]%list_elem_of_lookup.
    apply pairUp_lookup in Hj as [Hsr Hid]; [|done].
    assert ((Some <$> Transformers.series res.1) !! j = Some (Some (payload pair)))
      as Hsr' by (by rewrite list_lookup_fmap, Hsr).
    rewrite Hseries, list_lookup_fmap in Hsr'.
    destruct (accepted !! j) as [record|] eqn:Hrec; [|done].
    injection Hsr' as Hsr'.
    exists record. split_and!; [|done|].
    + apply list_elem_of_lookup_2 in Hrec.
      by apply list_elem_of_filter in Hrec as [_ ?].
    + unfold ids in Hid. rewrite list_lookup_fmap, Hrec in Hid.
      injection Hid as <-.
      destruct (Hsome record) as [wid ->]; [|done].
      by eapply list_elem_of_lookup_2.
Qed.

(** X30: the transformer does not look at the date of a row, and the audit
    log does.  Let the transformer accept a row whose [created_at] gives an
    invalid date, and let the identifiers it returns be distinct.  As long
    as the identifier of the row is not stored, [submitMetrics] on what the
    transformer returns throws, with any positive batch size, in either mode
    and whatever the Transport answers, and the identifier is not stored
    afterwards either. *)
Theorem transformed_invalid_date_blocks
    (s : DatadogService (Transformers.MetricSeries Num))
    (data : list Transformers.BigQueryWorkflowData)
    (w : World (Transformers.MetricSeries Num))
    (ids : list string) record sr wid :
  let res := Transformers.transformToDatadogMetric parseTimestamp parseFloat data in
  let path := cacheFilePath (workflowCache s) in
  let call := submitMetrics s {| series := Transformers.series res.1 |} ids w in
  res.2 = Some <$> ids →
  NoDup ids →
  0 < batchSize s →
  record ∈ data →
  Transformers.toSeries parseTimestamp parseFloat record = Some sr →
  Transformers.workflow_id record = Some wid →
  Transformers.validDate (parseTimestamp (Transformers.created_at record)) = false →
  recorded (files w) path wid = false →
  (∃ e, call.2 = Throw e) ∧ recorded (files call.1) path wid = false.
Proof.
  intros res path call Hids Hnd Hbs Hin Hsr Hwid Hbad Hrec. subst call path.
  set (accepted :=
         filter (λ r, is_Some (Transformers.toSeries parseTimestamp parseFloat r))
           data).
  assert (Some <$> Transformers.series res.1
          = Transformers.toSeries parseTimestamp parseFloat <$> accepted) as Hseries
    by apply omap_toSeries.
  assert (res.2 = Transformers.workflow_id <$> accepted) as Hids'
    by apply (filterIndexed_mask parseTimestamp parseFloat []).
  assert (record ∈ accepted) as [j Hj]%list_elem_of_lookup
    by (apply list_elem_of_filter; eauto).
  assert (Transformers.series res.1 !! j = Some sr) as Hsrj.
  { assert ((Some <$> Transformers.series res.1) !! j = Some (Some sr)) as Hl
      by (rewrite Hseries, list_lookup_fmap, Hj; simpl; by rewrite Hsr).
    rewrite list_lookup_fmap in Hl.
    destruct (Transformers.series res.1 !! j); simpl in Hl; congruence. }
  assert (ids !! j = Some wid) as Hidj.
  { assert ((Some <$> ids) !! j = Some (Some wid)) as Hl
      by (rewrite <- Hids, Hids', list_lookup_fmap, Hj; simpl; by rewrite Hwid).
    rewrite list_lookup_fmap in Hl. destruct (ids !! j); simpl in Hl; congruence. }
  assert (length (Transformers.series res.1) = length ids) as Hlen.
  { rewrite <- (length_fmap Some (Transformers.series res.1)), Hseries.
    rewrite <- (length_fmap Some ids), <- Hids, Hids'. by rewrite !length_fmap. }
  assert (formatsDates sr = false) as Hdate.
  { apply toSeries_Some in Hsr as (m&c&wf&st&slug&i&_&Hc&_&_&_&_&_&_&_&->).
    rewrite Hc in Hbad. unfold formatsDates, Transformers.series_dated. simpl.
    by rewrite Hbad. }
  destruct (submitMetrics_blocked s {| series := Transformers.series res.1 |} ids w
              j sr wid Hbs Hlen Hnd Hsrj Hidj Hdate Hrec) as (Hthrow & Hsame & _).
  split; [done|]. rewrite (Hsame j wid); [done| |done].
  pose proof (Nat.Div0.mul_div_le j (batchSize s)). lia.
Qed.

End Pipeline.

(** * Instances of the further properties at concrete inputs *)

Lemma filterNewWorkflows_after_markAsSent_witness :
  let c := {| cacheFilePath := testPath |} in
  let w := @ledgerWorld string ["workflow-0"] in
  files w !! cacheFilePath c = Some (SentDoc ["workflow-0"])
  ∧ ∃ w1 w2,
      markAsSent c ["workflow-1"] w = (w1, Normal tt)
      ∧ filterNewWorkflows c ["workflow-1"; "workflow-2"] w1
        = (w2, Normal ["workflow-2"]).
Proof.
  intros c w.
  assert (files w !! cacheFilePath c = Some (SentDoc ["workflow-0"])) as Hf
    by (vm_compute; reflexivity).
  split; [exact Hf|].
  destruct (filterNewWorkflows_after_markAsSent c ["workflow-1"]
              ["workflow-1"; "workflow-2"] w ["workflow-0"] Hf)
    as (w1 & w2 & Hmark & Hfilter & _).
  exists w1, w2. split; [exact Hmark|exact Hfilter].
Defined.

Lemma markAsSent_appends_witness :
  let c := {| cacheFilePath := testPath |} in
  let w := @ledgerWorld string ["a"] in
  files w !! cacheFilePath c = Some (SentDoc ["a"])
  ∧ NoDup ["a"]
  ∧ ∃ w',
      markAsSent c ["b"; "a"; "c"; "b"] w = (w', Normal tt)
      ∧ files w' !! cacheFilePath c = Some (SentDoc ["a"; "b"; "c"]).
Proof.
  intros c w.
  assert (files w !! cacheFilePath c = Some (SentDoc ["a"])) as Hf
    by (vm_compute; reflexivity).
  assert (NoDup ["a"]) as Hnd by apply NoDup_singleton.
  split; [exact Hf|]. split; [exact Hnd|].
  destruct (markAsSent_appends c ["b"; "a"; "c"; "b"] w ["a"] Hf Hnd)
    as (w' & Hmark & Hf' & _).
  exists w'. split; [exact Hmark|exact Hf'].
Defined.

Lemma ledger_namespaces_witness :
  let optsDry := Some {| opt_dryRun := Some true; opt_batchSize := None |} in
  let sLive := @testService string false 10 acceptAll in
  newDatadogService (@testProcess string) optsDry emptyWorld
  = ((newDatadogService (@testProcess string) optsDry emptyWorld).1,
     Normal testDryRunService)
  ∧ newDatadogService (@testProcess string) None emptyWorld
    = ((newDatadogService (@testProcess string) None emptyWorld).1, Normal sLive)
  ∧ cacheFilePath (workflowCache (@testDryRunService string))
    ≠ cacheFilePath (workflowCache sLive).
Proof.
  intros optsDry sLive.
  assert (newDatadogService (@testProcess string) optsDry emptyWorld
          = ((newDatadogService (@testProcess string) optsDry emptyWorld).1,
             Normal testDryRunService)) as Hdry
    by (vm_compute; reflexivity).
  assert (newDatadogService (@testProcess string) None emptyWorld
          = ((newDatadogService (@testProcess string) None emptyWorld).1,
             Normal sLive)) as Hlive
    by (vm_compute; reflexivity).
  split; [exact Hdry|]. split; [exact Hlive|].
  intros Heq.
  destruct (proj1 (ledger_namespaces _ _ _ _ _ _ _ _ _ _ Hdry Hlive eq_refl) Heq)
    as [Hmode _].
  discriminate Hmode.
Defined.

Lemma submitMetrics_zero_batchSize_witness :
  let opts := {| opt_dryRun := None; opt_batchSize := Some 0 |} in
  let s := @testService string false 0 acceptAll in
  newDatadogService (@testProcess string) (Some opts) emptyWorld
  = ((newDatadogService (@testProcess string) (Some opts) emptyWorld).1, Normal s)
  ∧ submitMetricsFuel 1000 s {| series := ["m1"] |} ["workflow-1"] (ledgerWorld [])
    = (ledgerWorld [], Diverge).
Proof.
  intros opts s.
  assert (newDatadogService (@testProcess string) (Some opts) emptyWorld
          = ((newDatadogService (@testProcess string) (Some opts) emptyWorld).1,
             Normal s)) as Hnew
    by (vm_compute; reflexivity).
  split; [exact Hnew|].
  apply (submitMetrics_zero_batchSize _ _ _ _ _ 1000 {| series := ["m1"] |}
           ["workflow-1"] (ledgerWorld []) Hnew eq_refl eq_refl).
  discriminate.
Defined.

Lemma submitMetrics_fuel_independent_witness :
  let s := @testService string false 2 acceptAll in
  let p := {| series := ["m1"; "m2"; "m3"] |} in
  let ids := ["wf-1"; "wf-2"; "wf-3"] in
  0 < batchSize s
  ∧ length (series p) < 7
  ∧ submitMetricsFuel 7 s p ids (ledgerWorld []) = submitMetrics s p ids (ledgerWorld []).
Proof.
  intros s p ids.
  assert (0 < batchSize s) as Hbs by (simpl; lia).
  assert (length (series p) < 7) as Hfuel by (simpl; lia).
  split; [exact Hbs|]. split; [exact Hfuel|].
  exact (proj1 (submitMetrics_fuel_independent 7 s p ids (ledgerWorld []) Hbs Hfuel)).
Defined.

Lemma submitMetrics_throws_Error_witness :
  let s := @testService string false 2 (rejectAfter 0 (NonError "timeout")) in
  let p := {| series := ["m1"] |} in
  (submitMetrics s p ["wf-1"] (ledgerWorld [])).2
  = Throw (JsError "Unknown error submitting metrics")
  ∧ ∃ message, JsError "Unknown error submitting metrics" = JsError message.
Proof.
  intros s p.
  assert ((submitMetrics s p ["wf-1"] (ledgerWorld [])).2
          = Throw (JsError "Unknown error submitting metrics")) as Hres
    by (vm_compute; reflexivity).
  split; [exact Hres|].
  exact (submitMetrics_throws_Error s p ["wf-1"] (ledgerWorld []) _ Hres).
Defined.

Lemma submitMetrics_appends_witness :
  let s := @testService string false 2 acceptAll in
  let p := {| series := ["m1"; "m2"; "m3"] |} in
  let ids := ["b"; "a"; "c"] in
  let w := ledgerWorld ["a"] in
  files w !! cacheFilePath (workflowCache s) = Some (SentDoc ["a"])
  ∧ NoDup ["a"]
  ∧ ∃ added,
      files (submitMetrics s p ids w).1 !! cacheFilePath (workflowCache s)
      = Some (SentDoc (["a"] ++ added))
      ∧ NoDup (["a"] ++ added).
Proof.
  intros s p ids w.
  assert (files w !! cacheFilePath (workflowCache s) = Some (SentDoc ["a"])) as Hf
    by (vm_compute; reflexivity).
  assert (NoDup ["a"]) as Hnd by apply NoDup_singleton.
  split; [exact Hf|]. split; [exact Hnd|].
  destruct (submitMetrics_appends s p ids w ["a"] Hf Hnd) as (added & Hf' & Hnd' & _).
  exists added. split; [exact Hf'|exact Hnd'].
Defined.


Lemma submitMetrics_writes_follow_accept_witness :
  let s := @testService string false 2 acceptAll in
  let p := {| series := ["m1"; "m2"; "m3"] |} in
  let ids := ["wf-1"; "wf-2"; "wf-3"] in
  dryRun s = false
  ∧ ∃ t,
      trace (submitMetrics s p ids (ledgerWorld [])).1 = trace (ledgerWorld []) ++ t
      ∧ writesFollowAccept t.
Proof.
  intros s p ids.
  split; [reflexivity|].
  exact (submitMetrics_writes_follow_accept s p ids (ledgerWorld []) eq_refl).
Defined.

Lemma retry_delivers_exactly_once_witness :
  let s := @testService string false 2 (rejectAfter 1 (JsError "API Error")) in
  let p := {| series := ["m1"; "m2"; "m3"; "m4"] |} in
  let ids := ["a"; "b"; "c"; "d"] in
  let w := ledgerWorld [] in
  let w1 := (submitMetrics s p ids w).1 in
  let w2 := (submitMetrics s p ids w1).1 in
  files w !! cacheFilePath (workflowCache s) = Some (SentDoc [])
  ∧ submitMetrics s p ids w = (w1, Throw (JsError "API Error"))
  ∧ submitMetrics s p ids w1 = (w2, Normal tt)
  ∧ ∃ batches,
      acceptedCalls (trace w2) = acceptedCalls (trace w) ++ (payloadOf <$> batches)
      ∧ invocationsOf "c" batches = 1.
Proof.
  intros s p ids w w1 w2.
  assert (files w !! cacheFilePath (workflowCache s) = Some (SentDoc [])) as Hf
    by (vm_compute; reflexivity).
  assert (submitMetrics s p ids w = (w1, Throw (JsError "API Error"))) as Hfirst
    by (vm_compute; reflexivity).
  assert (submitMetrics s p ids w1 = (w2, Normal tt)) as Hsecond
    by (vm_compute; reflexivity).
  split; [exact Hf|]. split; [exact Hfirst|]. split; [exact Hsecond|].
  assert (∃ body e, last (trace w1) = Some (ApiSubmit body (Some e))) as Hend.
  { exists {| series := ["m3"; "m4"] |}, (JsError "API Error").
    vm_compute. reflexivity. }
  destruct (retry_delivers_exactly_once s p ids w w1 w2 _ [] Hf eq_refl Hfirst
              (or_intror Hend) Hsecond)
    as (batches & Hcalls & _ & Hinv).
  exists batches. split; [exact Hcalls|].
  rewrite (Hinv "c"). vm_compute. reflexivity.
Defined.

Lemma positional_agrees_on_fresh_input_witness :
  let s := @testService string false 2 acceptAll in
  let p := {| series := ["m1"; "m2"; "m3"] |} in
  let ids := ["wf-1"; "wf-2"; "wf-3"] in
  let w := ledgerWorld [] in
  0 < batchSize s
  ∧ length (series p) = length ids
  ∧ NoDup ids
  ∧ (∀ x, x ∈ ids → (hasBeenSent (workflowCache s) x w).2 = Normal false)
  ∧ (submitMetrics_positional s p ids w).2 = (submitMetrics s p ids w).2
  ∧ files (submitMetrics_positional s p ids w).1 = files (submitMetrics s p ids w).1.
Proof.
  intros s p ids w.
  assert (0 < batchSize s) as Hbs by (simpl; lia).
  assert (length (series p) = length ids) as Hlen by reflexivity.
  assert (NoDup ids) as Hnd by (apply (bool_decide_unpack _); vm_compute; exact I).
  assert (∀ x, x ∈ ids → (hasBeenSent (workflowCache s) x w).2 = Normal false)
    as Hfresh by (intros x _; reflexivity).
  split; [exact Hbs|]. split; [exact Hlen|]. split; [exact Hnd|].
  split; [exact Hfresh|].
  destruct (positional_agrees_on_fresh_input s p ids w Hbs Hlen Hnd Hfresh)
    as (Hres & Hfiles & _).
  split; [exact Hres|exact Hfiles].
Defined.

Lemma positional_submits_prefix_witness :
  let s := @testService string false 2 acceptAll in
  let p := {| series := ["ma"; "mb"; "mc"; "md"] |} in
  let ids := ["a"; "b"; "c"; "d"] in
  let w := ledgerWorld ["a"; "b"] in
  dryRun s = false
  ∧ ∃ m,
      submittedPoints (trace (submitMetrics_positional s p ids w).1)
      = submittedPoints (trace w) ++ take (m * batchSize s) (series p).
Proof.
  intros s p ids w.
  split; [reflexivity|].
  destruct (positional_submits_prefix s p ids w eq_refl) as (m & Hpoints & _).
  exists m. exact Hpoints.
Defined.


Lemma positional_small_input_witness :
  let s := @testService string false 10 acceptAll in
  let p := {| series := ["ma"; "mb"] |} in
  let ids := ["a"; "b"] in
  0 < batchSize s
  ∧ length (series p) ≤ batchSize s
  ∧ length ids ≤ batchSize s
  ∧ submitMetrics_positional s p ids (ledgerWorld ["a"])
    = submitMetrics_unbatched s p ids (ledgerWorld ["a"]).
Proof.
  intros s p ids.
  assert (0 < batchSize s) as Hbs by (simpl; lia).
  assert (length (series p) ≤ batchSize s) as Hseries by (simpl; lia).
  assert (length ids ≤ batchSize s) as Hids by (simpl; lia).
  split; [exact Hbs|]. split; [exact Hseries|]. split; [exact Hids|].
  exact (positional_small_input s p ids (ledgerWorld ["a"]) Hbs Hseries Hids).
Defined.

Lemma transform_branch_classes_witness :
  let row := {| Transformers.minutes := Some "15.5";
                Transformers.created_at := Some "2025-01-24 14:04:35.000000 UTC";
                Transformers.branch := Some "release/1.2";
                Transformers.workflow_name := Some "build_test_deploy";
                Transformers.status := Some "success";
                Transformers.project_slug := Some "gh/HnryNZ/hnry-rails";
                Transformers.workflow_id := Some "d744b9ea" |} in
  let sr := {| Transformers.metric := "ci.workflow.duration";
               Transformers.type_ := 3;
               Transformers.points :=
                 [{| Transformers.timestamp := Some "2025-01-24 14:04:35.000000 UTC";
                     Transformers.value := Some "15.5" |}];
               Transformers.unit_ := "minutes";
               Transformers.tags :=
                 ["env:ci"; "project_slug:gh/HnryNZ/hnry-rails"; "branch:feature";
                  "workflow:build_test_deploy"; "status:success"] |} in
  sr ∈ Transformers.series (Transformers.transformToDatadogMetric id id [row]).1
  ∧ ∃ record slug wf st,
      record ∈ [row]
      ∧ Transformers.tags sr
        = ["env:ci"; "project_slug:" +:+ slug;
           "branch:" +:+ Transformers.processBranch (Transformers.branch record);
           "workflow:" +:+ wf; "status:" +:+ st].
Proof.
  intros row sr.
  assert (sr ∈ Transformers.series
                 (Transformers.transformToDatadogMetric id id [row]).1) as Hin
    by (vm_compute; apply list_elem_of_here).
  split; [exact Hin|].
  destruct (transform_branch_classes id id [row] sr Hin)
    as (record & slug & wf & st & Hrow & Htags & _).
  exists record, slug, wf, st. split; [exact Hrow|exact Htags].
Defined.

Lemma positional_zero_batchSize_witness :
  let s := @testService string false 0 acceptAll in
  let p := {| series := ["m1"] |} in
  let w := ledgerWorld [] in
  batchSize s = 0
  ∧ dryRun s = false
  ∧ accepting (metricsApi s)
  ∧ files w !! cacheFilePath (workflowCache s) = Some (SentDoc [])
  ∧ (processSlices 3 s p ["wf-1"] 0 w).2 = Diverge
  ∧ apiCalls (trace (processSlices 3 s p ["wf-1"] 0 w).1)
    = apiCalls (trace w) ++ replicate 3 {| series := [] |}.
Proof.
  intros s p w.
  assert (accepting (metricsApi s)) as Hacc by (intros history body; reflexivity).
  assert (files w !! cacheFilePath (workflowCache s) = Some (SentDoc [])) as Hf
    by (vm_compute; reflexivity).
  assert (["wf-1"] ≠ @nil string) as Hne by discriminate.
  split; [reflexivity|]. split; [reflexivity|]. split; [exact Hacc|].
  split; [exact Hf|].
  exact (positional_zero_batchSize 3 s p ["wf-1"] w [] eq_refl eq_refl Hacc Hf Hne).
Defined.

Lemma dry_run_previews_live_run_witness :
  let sLive := @testService string false 10 acceptAll in
  let p := {| series := ["ma"; "mb"; "mc"] |} in
  let ids := ["a"; "b"; "c"] in
  let wd := {| files := {[ testDryRunPath := SentDoc ["b"] ]}; trace := [] |} in
  let wl := ledgerWorld ["b"] in
  files wd !! cacheFilePath (workflowCache (@testDryRunService string))
  = Some (SentDoc ["b"])
  ∧ files wl !! cacheFilePath (workflowCache sLive) = Some (SentDoc ["b"])
  ∧ loggable p = true
  ∧ apiCalls (trace (submitMetrics sLive p ids wl).1)
    = [{| series := ["ma"; "mc"] |}]
  ∧ ∃ bodies,
      auditedPayloads (trace (submitMetrics testDryRunService p ids wd).1)
      = auditedPayloads (trace wd) ++ bodies
      ∧ apiCalls (trace (submitMetrics sLive p ids wl).1)
        = apiCalls (trace wl) ++ bodies.
Proof.
  intros sLive p ids wd wl.
  assert (files wd !! cacheFilePath (workflowCache (@testDryRunService string))
          = Some (SentDoc ["b"])) as Hfd by (vm_compute; reflexivity).
  assert (files wl !! cacheFilePath (workflowCache sLive) = Some (SentDoc ["b"]))
    as Hfl by (vm_compute; reflexivity).
  assert (0 < batchSize sLive) as Hbs by (simpl; lia).
  assert (accepting (metricsApi sLive)) as Hacc by (intros history body; reflexivity).
  assert (loggable p = true) as Hlog by (vm_compute; reflexivity).
  split; [exact Hfd|]. split; [exact Hfl|]. split; [exact Hlog|].
  split; [vm_compute; reflexivity|].
  destruct (dry_run_previews_live_run testDryRunService sLive p ids wd wl ["b"] ["b"]
              eq_refl eq_refl eq_refl Hbs Hacc eq_refl Hlog Hfd Hfl
              (λ x, iff_refl _))
    as (bodies & Hlogs & _ & Hcalls & _).
  exists bodies. split; [exact Hlogs|exact Hcalls].
Defined.


Lemma submitMetrics_split_witness :
  let s := @testService string false 2 acceptAll in
  let p1 := {| series := ["m1"; "m2"] |} in
  let p2 := {| series := ["m3"] |} in
  let w := ledgerWorld ["a"] in
  submitMetrics s {| series := series p1 ++ series p2 |} (["a"; "b"] ++ ["c"]) w
  = bind (submitMetrics s p1 ["a"; "b"]) (λ _, submitMetrics s p2 ["c"]) w.
Proof.
  intros s p1 p2 w.
  apply (submitMetrics_split s p1 p2 ["a"; "b"] ["c"] w 1);
    [simpl; lia | reflexivity..].
Defined.

Lemma invalid_date_blocks_delivery_witness :
  let s := @testService string false 2 acceptAll in
  let p := {| series := ["m1"; "m2"; "NaN"; "m4"; "m5"] |} in
  let ids := ["a"; "b"; "c"; "d"; "e"] in
  let w := ledgerWorld [] in
  let res := submitMetrics s p ids w in
  formatsDates "NaN" = false
  ∧ res.2 = Throw invalidTimeValue
  ∧ apiCalls (trace res.1) = [{| series := ["m1"; "m2"] |}]
  ∧ (∀ k y, 2 ≤ k → ids !! k = Some y →
       recorded (files res.1) testPath y = recorded (files w) testPath y)
  ∧ ∃ e, (submitMetrics s p ids res.1).2 = Throw e.
Proof.
  intros s p ids w res.
  assert (formatsDates "NaN" = false) as Hbad by (vm_compute; reflexivity).
  assert (NoDup ids) as Hnd by (apply (bool_decide_unpack _); vm_compute; exact I).
  destruct (invalid_date_blocks_delivery s p ids w 2 "NaN" "c"
              ltac:(simpl; lia) eq_refl Hnd eq_refl eq_refl Hbad eq_refl)
    as (_ & Hsame & _ & Hretry).
  split; [exact Hbad|]. split; [vm_compute; reflexivity|].
  split; [vm_compute; reflexivity|]. split; [exact Hsame|exact Hretry].
Defined.

Lemma transformed_invalid_date_blocks_witness :
  let check : Transformers.DateCheck (option string) :=
    λ t, bool_decide (t ≠ Some "not a date") in
  let row := {| Transformers.minutes := Some "15.5";
                Transformers.created_at := Some "not a date";
                Transformers.branch := Some "master";
                Transformers.workflow_name := Some "build_test_deploy";
                Transformers.status := Some "success";
                Transformers.project_slug := Some "gh/HnryNZ/hnry-rails";
                Transformers.workflow_id := Some "d744b9ea" |} in
  let s := @testService (Transformers.MetricSeries (option string)) false 10
             acceptAll in
  let w := @ledgerWorld (Transformers.MetricSeries (option string)) [] in
  let res := Transformers.transformToDatadogMetric id id [row] in
  let call := @submitMetrics _ (@Transformers.series_dated _ check) s
                {| series := Transformers.series res.1 |} ["d744b9ea"] w in
  res.2 = [Some "d744b9ea"]
  ∧ is_Some (Transformers.toSeries id id row)
  ∧ (∃ e, call.2 = Throw e)
  ∧ recorded (files call.1) testPath "d744b9ea" = false.
Proof.
  intros check row s w res call.
  assert (res.2 = Some <$> ["d744b9ea"]) as Hids by (vm_compute; reflexivity).
  assert (NoDup ["d744b9ea"]) as Hnd
    by (apply (bool_decide_unpack _); vm_compute; exact I).
  assert (row ∈ [row]) as Hin by apply list_elem_of_here.
  destruct (Transformers.toSeries id id row) as [sr|] eqn:Hsr;
    [|vm_compute in Hsr; discriminate Hsr].
  split; [exact Hids|]. split; [exists sr; reflexivity|].
  exact (@transformed_invalid_date_blocks _ check id id s [row] w ["d744b9ea"]
           row sr "d744b9ea" Hids Hnd ltac:(simpl; lia) Hin Hsr eq_refl eq_refl
           eq_refl).
Defined.
